(** * blenderengine.py: the sample-offset generator and the render loop

    A shallow embedding of [corput], [ray_cast], [RT_trace_ray] and
    [CustomRenderEngine.render].

    - Python integers are [Z]; [divmod] is floor division, which is what
      [Z.div] and [Z.modulo] compute.
    - Python floats are kept behind the interface [PyFloat], with two
      instances: [Binary64.b64] is IEEE 754 binary64 as given by
      [SpecFloat], which is what CPython computes; [Exact.exact] is
      arithmetic in [Q], without rounding.
    - A call returns, raises, or runs for ever: [outcome].
    - The host application (bpy, mathutils) is a parameter: its vector
      operations ([Host]), the ray caster and the camera of the scene
      ([scene]).  What a run does to the host, the rays it casts and the
      result it writes, is recorded in order ([world]).
    - The vector operations of the specification's camera model, which
      the sources do not contain, are written over the real numbers in
      [Ideal].

    The first part holds the definitions, the second the properties. *)

From Stdlib Require Import ZArith QArith Qpower Lia Lqa Bool List.
From Stdlib Require Import Floats.SpecFloat.
From Stdlib Require Reals Lra.
From stdpp Require Import base list gmap strings.

Local Open Scope Z_scope.

(** ** Outcomes of a call *)

(** The exceptions: Python's built-in ones that the operations below can
    raise, and [InvalidResolution], which the specification names and no
    line of the source raises. *)
Inductive exn : Set :=
| ZeroDivisionError
| IndexError
| OverflowError
| ValueError
| MemoryError
| InvalidResolution.

Inductive outcome (A : Type) : Type :=
| Returns (a : A)
| Raises (e : exn)
| Diverges.

Arguments Returns {A} a.
Arguments Raises {A} e.
Arguments Diverges {A}.

#[global] Instance outcome_ret : MRet outcome := fun A a => Returns a.
#[global] Instance outcome_bind : MBind outcome := fun A B f m =>
  match m with
  | Returns a => f a
  | Raises e => Raises e
  | Diverges => Diverges
  end.

(** ** Python's float operations

    Division is split by operand types as CPython does: [int / int] rounds
    the exact quotient once ([int_truediv]); every other mixed operation
    first converts the integer operand ([float_of_int]).  The division
    operations are only applied to a non-zero divisor; the zero test that
    raises [ZeroDivisionError] is written out in [py_div_ii], [py_div_ff]
    and [py_div_fi].  [float_of_int] and [int_truediv] are total: they are
    the operations of CPython on integers within the float range (binary64
    holds every integer below 2^53 in magnitude exactly); beyond that range
    CPython raises [OverflowError], and the statements about image sizes
    keep to sizes below 2^53 in magnitude. *)

Class PyFloat (F : Type) : Type := {
  float_of_int : Z -> F;
  float_half : F;                       (* the literal 0.5 *)
  fadd : F -> F -> F;
  fsub : F -> F -> F;
  fmul : F -> F -> F;
  fdiv : F -> F -> F;
  fneg : F -> F;
  fis_zero : F -> bool;
  int_truediv : Z -> Z -> F;
  int_of_float : F -> outcome Z         (* int(x): truncation *)
}.

Section PyArith.
Context {F : Type} {float_ops : PyFloat F}.

Definition py_divmod (a b : Z) : outcome (Z * Z) :=
  if b =? 0 then Raises ZeroDivisionError else Returns (a / b, a mod b).

Definition py_div_ii (a b : Z) : outcome F :=
  if b =? 0 then Raises ZeroDivisionError else Returns (int_truediv a b).

Definition py_div_ff (x y : F) : outcome F :=
  if fis_zero y then Raises ZeroDivisionError else Returns (fdiv x y).

Definition py_div_fi (x : F) (b : Z) : outcome F :=
  if b =? 0 then Raises ZeroDivisionError
  else Returns (fdiv x (float_of_int b)).

(** [range(k)]: empty when [k <= 0]. *)
Definition py_range (k : Z) : list Z := seqZ 0 k.

(** [l[i]] and [l[i] = v]: a negative index counts from the end, an index
    outside [-len, len) raises [IndexError]. *)
Definition py_index {A : Type} (l : list A) (i : Z) : outcome nat :=
  let len := Z.of_nat (length l) in
  if (0 <=? i) && (i <? len) then Returns (Z.to_nat i)
  else if (- len <=? i) && (i <? 0) then Returns (Z.to_nat (len + i))
  else Raises IndexError.

Definition list_getitem {A : Type} (l : list A) (i : Z) : outcome A :=
  k ← py_index l i;
  match l !! k with
  | Some a => Returns a
  | None => Raises IndexError
  end.

Definition list_setitem {A : Type} (l : list A) (i : Z) (v : A)
  : outcome (list A) :=
  k ← py_index l i;
  Returns (<[k := v]> l).

(** [[x] * n] in 64-bit CPython.  The count is first converted to an
    index, which raises [OverflowError] outside [-2^63, 2^63); a count
    [<= 0] gives the empty list; a list longer than the machine can hold
    raises [MemoryError].  [capacity] is the length of the longest list
    the machine can allocate when the statement runs. *)
Definition py_list_repeat {A : Type} (capacity : Z) (x : A) (n : Z)
  : outcome (list A) :=
  if (n <? - 2 ^ 63) || (2 ^ 63 <=? n) then Raises OverflowError
  else if (0 <? n) && (capacity <? n) then Raises MemoryError
  else Returns (replicate (Z.to_nat n) x).
End PyArith.

(** ** [corput] *)

Section Corput.
Context {F : Type} {float_ops : PyFloat F}.

(** The [while n:] loop.  [q] starts as the integer 0, which the first
    [q += remainder / denom] converts to a float; it is carried as
    [float_of_int 0] from the start.  One unit of fuel is one iteration. *)
Fixpoint corput_loop (fuel : nat) (base n denom : Z) (q : F) : outcome F :=
  if n =? 0 then Returns q
  else
    match fuel with
    | O => Diverges
    | S fuel' =>
        let denom := denom * base in
        '(n, remainder) ← py_divmod n base;
        t ← py_div_ii remainder denom;
        corput_loop fuel' base n denom (fadd q t)
    end.

Definition corput_fuel (fuel : nat) (n base : Z) : outcome F :=
  q ← corput_loop fuel base n 1 (float_of_int 0);
  Returns (fsub q float_half).

(** Enough iterations for every run that ends
    ([corput_bound_adequate] below).  On [n >= 0], [base >= 2] the number
    of binary digits of [n] is enough; two more cover a base [<= -2],
    where each iteration halves the magnitude of [n], rounded up.  No
    other run ends: a base of 1 or -1 keeps the magnitude of [n], and a
    negative [n] stays negative under a base [>= 2]. *)
Definition corput_bound (n : Z) : nat :=
  S (S (S (Z.to_nat (Z.log2 (Z.abs n))))).

Definition corput (n base : Z) : outcome F :=
  corput_fuel (corput_bound n) n base.

(** *** The digit-reversal value, from the positional notation

    [digit n b k] is the base-[b] digit of [n] of weight [b^k];
    [num_digits n b] is the least [L] with [n < b^L].  The terms
    [d_k / b^(k+1)] are accumulated for increasing [k]. *)
Definition digit (n b : Z) (k : nat) : Z := (n / b ^ Z.of_nat k) mod b.

Fixpoint num_digits_from (fuel : nat) (n b p : Z) : nat :=
  if n <? p then O
  else match fuel with
       | O => O
       | S fuel' => S (num_digits_from fuel' n b (p * b))
       end.

Definition num_digits (n b : Z) : nat :=
  num_digits_from (corput_bound n) n b 1.

Definition reversed_term (n b : Z) (k : nat) : F :=
  int_truediv (digit n b k) (b ^ Z.of_nat (S k)).

Definition reversed_sum (n b : Z) (len : nat) : F :=
  fold_left (fun acc k => fadd acc (reversed_term n b k))
            (seq 0 len) (float_of_int 0).

Definition reversed_digits (n b : Z) : F :=
  reversed_sum n b (num_digits n b).
End Corput.

(** ** The two float instances *)

Module Binary64.
Definition prec : Z := 53.
Definition emax : Z := 1024.

Definition b64 : Type := spec_float.

(** [float(z)], rounded to nearest, ties to even. *)
Definition of_Z (z : Z) : b64 := binary_normalize prec emax z 0 false.

(** An integer as mantissa with exponent 0, of any length. *)
Definition Z_as_float (z : Z) : b64 :=
  match z with
  | Z0 => S754_zero false
  | Zpos p => S754_finite false p 0
  | Zneg p => S754_finite true p 0
  end.

(** [int / int]: the exact quotient of the two integers, rounded once,
    whatever their size ([SFdiv] aligns the mantissas itself). *)
Definition truediv (a b : Z) : b64 :=
  SFdiv prec emax (Z_as_float a) (Z_as_float b).

Definition is_zero (x : b64) : bool :=
  match x with S754_zero _ => true | _ => false end.

Definition trunc (x : b64) : outcome Z :=
  match x with
  | S754_zero _ => Returns 0
  | S754_finite s m e =>
      let a := if 0 <=? e then Z.shiftl (Zpos m) e
               else Z.shiftr (Zpos m) (- e) in
      Returns (if s then - a else a)
  | S754_infinity _ => Raises OverflowError
  | S754_nan => Raises ValueError
  end.

Definition half : b64 := S754_finite false 4503599627370496 (-53).
Definition minus_half : b64 := S754_finite true 4503599627370496 (-53).

#[global] Instance b64_float : PyFloat b64 := {
  float_of_int := of_Z;
  float_half := half;
  fadd := SFadd prec emax;
  fsub := SFsub prec emax;
  fmul := SFmul prec emax;
  fdiv := SFdiv prec emax;
  fneg := SFopp;
  fis_zero := is_zero;
  int_truediv := truediv;
  int_of_float := trunc
}.

(** The rational number a finite float stands for. *)
Definition to_Q (x : b64) : option Q :=
  match x with
  | S754_zero _ => Some 0%Q
  | S754_finite s m e =>
      let a := (inject_Z (Zpos m) * Qpower 2 e)%Q in
      Some (if s then Qopp a else a)
  | _ => None
  end.

(** The sign of a result that is a number. *)
Definition signed_as (s : bool) (x : b64) : Prop :=
  match x with
  | S754_zero s' | S754_infinity s' | S754_finite s' _ _ => s' = s
  | S754_nan => False
  end.

(** Zero of either sign, a positive number or plus infinity. *)
Definition nonneg (x : b64) : Prop :=
  match x with
  | S754_zero _ => True
  | S754_infinity s | S754_finite s _ _ => s = false
  | S754_nan => False
  end.

(** A canonical float of sign [s] and of magnitude at most 1/2: its
    exponent is below -53, or it is 2^52 * 2^-53. *)
Definition at_most_half (s : bool) (x : b64) : Prop :=
  match x with
  | S754_zero s' => s' = s
  | S754_finite s' m e =>
      s' = s /\ (e < -53 \/ (e = -53 /\ Zpos m = 2 ^ 52))
  | _ => False
  end.
End Binary64.

Module Exact.
Definition exact : Type := Q.

Definition trunc (x : Q) : outcome Z :=
  Returns (Z.quot (Qnum x) (Zpos (Qden x))).

#[global] Instance exact_float : PyFloat exact := {
  float_of_int := inject_Z;
  float_half := (1 # 2)%Q;
  fadd := Qplus;
  fsub := Qminus;
  fmul := Qmult;
  fdiv := Qdiv;
  fneg := Qopp;
  fis_zero := fun x => Qnum x =? 0;
  int_truediv := fun a b => (inject_Z a / inject_Z b)%Q;
  int_of_float := trunc
}.
End Exact.

(** ** The host application

    [mathutils.Vector] and [Euler], the objects and matrices a ray cast
    reports, and the three vector operations [render] calls. *)

Class Host (F : Type) : Type := {
  Vector : Type;
  Euler : Type;
  Object : Type;
  Matrix : Type;
  Vector_new : F -> F -> F -> Vector;          (* Vector((a, b, c)) *)
  Vector_rotate : Vector -> Euler -> Vector;   (* v.rotate(e) *)
  Vector_normalized : Vector -> Vector         (* v.normalized() *)
}.

Section Render.
Context {F : Type} {float_ops : PyFloat F} {host : Host F}.

(** What [scene.ray_cast] returns:
    (result, location, normal, index, object, matrix). *)
Record hit_result : Type := {
  has_hit : bool;
  hit_loc : Vector;
  hit_norm : Vector;
  hit_index : Z;
  hit_obj : option Object;
  hit_matrix : Matrix
}.

(** The parts of [depsgraph.scene] that [render] reads, for a scene that
    has a camera; [scene_ray_cast] is the method
    [scene.ray_cast(scene.view_layers[0].depsgraph, _, _)]. *)
Record scene : Type := {
  resolution_x : Z;
  resolution_y : Z;
  resolution_percentage : Z;
  camera_lens : F;
  camera_sensor_width : F;
  camera_location : Vector;
  camera_rotation_euler : Euler;
  scene_ray_cast : Vector -> Vector -> hit_result
}.

(** A pixel [[r, g, b, a]] of [rect], a list of four numbers. *)
Record pixel : Type := { red : F; green : F; blue : F; alpha : F }.

(** What [begin_result(x, y, w, h)] ... [end_result] hands to the host. *)
Record render_result : Type := {
  res_x : Z;
  res_y : Z;
  res_w : Z;
  res_h : Z;
  res_rect : list pixel
}.

(** The host-side effects of a run, in order: the rays given to
    [scene.ray_cast] as (origin, direction), and the results written. *)
Record world : Type := {
  ray_casts : list (Vector * Vector);
  results : list render_result
}.

Definition M (A : Type) : Type := world -> outcome A * world.

#[global] Instance M_ret : MRet M := fun A a w => (Returns a, w).
#[global] Instance M_bind : MBind M := fun A B f m w =>
  match m w with
  | (Returns a, w') => f a w'
  | (Raises e, w') => (Raises e, w')
  | (Diverges, w') => (Diverges, w')
  end.

Definition lift {A : Type} (o : outcome A) : M A := fun w => (o, w).

(** A [for] loop over [l] that threads the local variable [s]. *)
Fixpoint for_each {A S : Type} (l : list A) (body : S -> A -> M S) (s : S)
  : M S :=
  match l with
  | [] => mret s
  | a :: l' => s' ← body s a; for_each l' body s'
  end.

Definition ray_cast (sc : scene) (origin direction : Vector) : M hit_result :=
  fun w =>
    (Returns (scene_ray_cast sc origin direction),
     {| ray_casts := ray_casts w ++ [(origin, direction)];
        results := results w |}).

(** The colour [RT_trace_ray] computes once the ray cast has answered:
    [np.zeros(3)] on a miss, [np.array([1, 0.0, 0.0])] on a hit. *)
Definition trace_color (h : hit_result) : F * F * F :=
  let color := (float_of_int 0, float_of_int 0, float_of_int 0) in
  if negb (has_hit h) then color
  else (float_of_int 1, float_of_int 0, float_of_int 0).

Definition RT_trace_ray (sc : scene) (ray_orig ray_dir : Vector)
  : M (F * F * F) :=
  h ← ray_cast sc ray_orig ray_dir;
  mret (trace_color h).

(** Lines 96-97 of [render]: [r, g, b = color[0], color[1], color[2]] and the
    pixel [[r, g, b, 1.0]]. *)
Definition pixel_of_color (color : F * F * F) : pixel :=
  let '(r, g, b) := color in
  {| red := r; green := g; blue := b; alpha := float_of_int 1 |}.

(** The shading rule: from the answer of the ray cast to the pixel. *)
Definition shade (h : hit_result) : pixel := pixel_of_color (trace_color h).

(** [color = [0, 0, 0, 1.0]], the initial fill of [rect]; the three
    integers are carried as floats.  [[color] * pixel_count] makes every
    slot the same list object, which is never mutated: a slot is only ever
    replaced by a new list. *)
Definition initial_color : pixel :=
  {| red := float_of_int 0; green := float_of_int 0; blue := float_of_int 0;
     alpha := float_of_int 1 |}.

Definition write_result (x y w h : Z) (rect : list pixel) : M unit :=
  fun wd =>
    (Returns tt,
     {| ray_casts := ray_casts wd;
        results := results wd ++
          [{| res_x := x; res_y := y; res_w := w; res_h := h;
              res_rect := rect |}] |}).

(** [(p - (size / 2)) / size], the expression of [screen_x], and of
    [screen_y] before it is scaled by the aspect ratio. *)
Definition screen_coord (p size : Z) : outcome F :=
  half_size ← py_div_ii size 2;
  py_div_fi (fsub (float_of_int p) half_size) size.

(** The three nested loops of [render], innermost first.  The variables
    of the section are the locals of [render] that the loops read. *)
Section Loops.
Variable sc : scene.
Variables size_x size_y width height : Z.
Variables focal_length aspect_ratio : F.
Variables corput_x corput_y : list F.

(** Lines 87-97: one pixel. *)
Definition pixel_body (s y : Z) (screen_y : F) (rect : list pixel) (x : Z)
  : M (list pixel) :=
  screen_x ← lift (screen_coord x width);
  cx ← lift (list_getitem corput_x s);
  cy ← lift (list_getitem corput_y s);
  let ray_dir :=
    Vector_new (fadd screen_x cx) (fadd screen_y cy) (fneg focal_length) in
  let ray_dir := Vector_rotate ray_dir (camera_rotation_euler sc) in
  let ray_dir := Vector_normalized ray_dir in
  color ← RT_trace_ray sc (camera_location sc) ray_dir;
  lift (list_setitem rect (y * size_x + x) (pixel_of_color color)).

(** Lines 84-97: one row. *)
Definition row_body (s : Z) (rect : list pixel) (y : Z) : M (list pixel) :=
  screen_y ← lift (t ← screen_coord y height; mret (fmul t aspect_ratio));
  for_each (py_range size_x) (pixel_body s y screen_y) rect.

(** Lines 83-97: one pass over the image. *)
Definition pass_body (rect : list pixel) (s : Z) : M (list pixel) :=
  for_each (py_range size_y) (row_body s) rect.
End Loops.

(** Lines 65-103 of [render] as a function of the sample count, which
    line 61 sets to 1, and of the two sizes: [self.size_x] and [width] are
    the same expression, and so are [self.size_y] and [height].  This is
    the run on a machine whose lists have no length limit: line 77 always
    gets its list.  [render_sized_within] below has the limit. *)
Definition render_sized (sc : scene) (sample_count width height : Z)
  : M unit :=
  let size_x := width in
  let size_y := height in
  focal_length ← lift (py_div_ff (camera_lens sc) (camera_sensor_width sc));
  aspect_ratio ← lift (py_div_ii height width);
  dx ← lift (py_div_ii 1 width);
  dy ← lift (py_div_fi aspect_ratio height);
  corput_x ← lift (mapM (fun i => c ← corput i 2; mret (fmul c dx))
                        (py_range sample_count));
  corput_y ← lift (mapM (fun i => c ← corput i 3; mret (fmul c dy))
                        (py_range sample_count));
  let color := initial_color in
  let pixel_count := size_x * size_y in
  let rect := replicate (Z.to_nat pixel_count) color in
  rect ← for_each (py_range sample_count)
           (pass_body sc size_x size_y width height focal_length
                      aspect_ratio corput_x corput_y)
           rect;
  write_result 0 0 size_x size_y rect.

(** [CustomRenderEngine.render]. *)
Definition render (sc : scene) : M unit :=
  let scale :=
    fdiv (float_of_int (resolution_percentage sc)) (float_of_int 100) in
  width ← lift (int_of_float (fmul (float_of_int (resolution_x sc)) scale));
  height ← lift (int_of_float (fmul (float_of_int (resolution_y sc)) scale));
  let sample_count := 1 in
  render_sized sc sample_count width height.

(** Lines 65-103 with the allocation of line 77 as CPython performs it,
    on a machine that can hold lists of up to [capacity] elements: the
    statement [rect = [color] * pixel_count] can raise [OverflowError] or
    [MemoryError], after the divisions of lines 65-68 and before the
    loops. *)
Definition render_sized_within (capacity : Z) (sc : scene)
    (sample_count width height : Z) : M unit :=
  let size_x := width in
  let size_y := height in
  focal_length ← lift (py_div_ff (camera_lens sc) (camera_sensor_width sc));
  aspect_ratio ← lift (py_div_ii height width);
  dx ← lift (py_div_ii 1 width);
  dy ← lift (py_div_fi aspect_ratio height);
  corput_x ← lift (mapM (fun i => c ← corput i 2; mret (fmul c dx))
                        (py_range sample_count));
  corput_y ← lift (mapM (fun i => c ← corput i 3; mret (fmul c dy))
                        (py_range sample_count));
  let color := initial_color in
  let pixel_count := size_x * size_y in
  rect ← lift (py_list_repeat capacity color pixel_count);
  rect ← for_each (py_range sample_count)
           (pass_body sc size_x size_y width height focal_length
                      aspect_ratio corput_x corput_y)
           rect;
  write_result 0 0 size_x size_y rect.

(** [CustomRenderEngine.render] on such a machine. *)
Definition render_within (capacity : Z) (sc : scene) : M unit :=
  let scale :=
    fdiv (float_of_int (resolution_percentage sc)) (float_of_int 100) in
  width ← lift (int_of_float (fmul (float_of_int (resolution_x sc)) scale));
  height ← lift (int_of_float (fmul (float_of_int (resolution_y sc)) scale));
  let sample_count := 1 in
  render_sized_within capacity sc sample_count width height.

Definition empty_world : world := {| ray_casts := []; results := [] |}.

Definition opaque_black : pixel :=
  {| red := float_of_int 0; green := float_of_int 0; blue := float_of_int 0;
     alpha := float_of_int 1 |}.

Definition opaque_red : pixel :=
  {| red := float_of_int 1; green := float_of_int 0; blue := float_of_int 0;
     alpha := float_of_int 1 |}.

(** The same scene with another ray caster. *)
Definition with_ray_cast (sc : scene)
    (cast : Vector -> Vector -> hit_result) : scene :=
  {| resolution_x := resolution_x sc;
     resolution_y := resolution_y sc;
     resolution_percentage := resolution_percentage sc;
     camera_lens := camera_lens sc;
     camera_sensor_width := camera_sensor_width sc;
     camera_location := camera_location sc;
     camera_rotation_euler := camera_rotation_euler sc;
     scene_ray_cast := cast |}.

(** A computation that casts no ray. *)
Definition quiet {A : Type} (m : M A) : Prop :=
  forall wd, ray_casts (m wd).2 = ray_casts wd.


(** [wd] after the rays [rays] have been cast. *)
Definition cast_all (rays : list (Vector * Vector)) (wd : world) : world :=
  {| ray_casts := ray_casts wd ++ rays; results := results wd |}.
End Render.

(** ** What one pass over the image computes

    The values the statements of the loop take when no division fails,
    written as expressions of the pixel and the sample index. *)

Section Frame.
Context {F : Type} {float_ops : PyFloat F} {host : Host F}.
Variable sc : scene.
Variables width height : Z.

Definition focal_length_of : F :=
  fdiv (camera_lens sc) (camera_sensor_width sc).

Definition aspect_ratio_of : F := int_truediv height width.

Definition sample_offset_x (s : Z) : F :=
  fmul (fsub (reversed_digits s 2) float_half) (int_truediv 1 width).

Definition sample_offset_y (s : Z) : F :=
  fmul (fsub (reversed_digits s 3) float_half)
       (fdiv aspect_ratio_of (float_of_int height)).

Definition screen_value (p size : Z) : F :=
  fdiv (fsub (float_of_int p) (int_truediv size 2)) (float_of_int size).

Definition pixel_ray (s y x : Z) : Vector :=
  Vector_normalized
    (Vector_rotate
       (Vector_new
          (fadd (screen_value x width) (sample_offset_x s))
          (fadd (fmul (screen_value y height) aspect_ratio_of)
                (sample_offset_y s))
          (fneg focal_length_of))
       (camera_rotation_euler sc)).


Definition pixel_value (s y x : Z) : pixel :=
  shade (scene_ray_cast sc (camera_location sc) (pixel_ray s y x)).

Definition row_rays (s y : Z) : list (Vector * Vector) :=
  (fun x => (camera_location sc, pixel_ray s y x)) <$> py_range width.

Definition frame_rays (s : Z) : list (Vector * Vector) :=
  concat (row_rays s <$> py_range height).

Definition row (s y : Z) : list pixel := pixel_value s y <$> py_range width.

Definition frame (s : Z) : list pixel := concat (row s <$> py_range height).

(** The writes of one pixel, one row and one pass, as list updates. *)
Definition put_pixel (s y : Z) (rect : list pixel) (x : Z) : list pixel :=
  <[Z.to_nat (y * width + x) := pixel_value s y x]> rect.

Definition put_row (s : Z) (rect : list pixel) (y : Z) : list pixel :=
  foldl (put_pixel s y) rect (py_range width).

Definition put_frame (rect : list pixel) (s : Z) : list pixel :=
  foldl (put_row s) rect (py_range height).

(** The buffer after [sample_count] passes: each pass overwrites all of
    it, so it is the frame of the last sample. *)
Definition final_rect (sample_count : Z) : list pixel :=
  match last (py_range sample_count) with
  | Some s => frame s
  | None => replicate (Z.to_nat (width * height)) initial_color
  end.
End Frame.

(** ** A stand-in host

    Enough of a host to run the model on concrete scenes: vectors are
    triples of floats, the camera is not rotated, and [normalized] leaves
    the direction as it is ([render] never reads a component of it). *)

Module Stub.
Section Stub.
Context {F : Type} {float_ops : PyFloat F}.

Definition vec : Type := F * F * F.

Definition host : Host F := {|
  Vector := vec;
  Euler := unit;
  Object := unit;
  Matrix := unit;
  Vector_new := fun a b c => (a, b, c);
  Vector_rotate := fun v _ => v;
  Vector_normalized := fun v => v
|}.

#[local] Existing Instance host.

Definition origin : vec := (float_of_int 0, float_of_int 0, float_of_int 0).

(** The answer of a ray cast: a miss reports index -1 and no object. *)
Definition answer (hit : bool) (loc : vec) : hit_result := {|
  has_hit := hit;
  hit_loc := loc;
  hit_norm := origin;
  hit_index := if hit then 0 else -1;
  hit_obj := if hit then Some tt else None;
  hit_matrix := tt
|}.

(** A scene with a 50 mm lens on a 36 mm sensor at the origin. *)
Definition scene_of (res_x res_y percentage : Z)
    (cast : vec -> vec -> hit_result) : scene := {|
  resolution_x := res_x;
  resolution_y := res_y;
  resolution_percentage := percentage;
  camera_lens := float_of_int 50;
  camera_sensor_width := float_of_int 36;
  camera_location := origin;
  camera_rotation_euler := tt;
  scene_ray_cast := cast
|}.

Definition never_hits : vec -> vec -> hit_result :=
  fun _ _ => answer false origin.

(** A ray caster that never hits either, and reports another location. *)
Definition misses_elsewhere (o d : vec) : hit_result := answer false d.
End Stub.

(** In exact arithmetic: a ray caster that reports a hit for the direction
    of pixel (2, 2) of a 4 x 4 image, (-1/8, -1/8, _), and a miss for any
    other direction. *)
Definition hits_pixel_2_2 (o d : vec (F:=Exact.exact))
  : hit_result (host:=host) :=
  let '(dx, dy, _) := d in
  answer (Qeq_bool dx (-1 # 8) && Qeq_bool dy (-1 # 8)) d.

(** The same in binary64, where that direction is (-0.125, -0.125, _). *)
Definition hits_pixel_2_2_b64 (o d : vec (F:=Binary64.b64))
  : hit_result (host:=host) :=
  let '(dx, dy, _) := d in
  let minus_eighth := S754_finite true 4503599627370496 (-55) in
  answer (SFeqb dx minus_eighth && SFeqb dy minus_eighth) d.
End Stub.

(** ** The vector operations, as the specification has them

    [mathutils.Vector] and [mathutils.Euler] belong to the host and are not
    part of the repository.  The camera model of the specification forms a
    direction, applies the camera's orientation rotation and normalizes to
    unit length; below these operations are written over the real numbers,
    where the float operations are the field operations. *)

Module Ideal.
Import Reals.
Local Open Scope R_scope.

(** Modelled from the spec: [int(x)] on a real number, truncation towards
    zero; the float type of the source is replaced by the real numbers. *)
Definition trunc (x : R) : outcome Z :=
  Returns (if Rle_dec 0 x then Int_part x else (- Int_part (- x))%Z).

(** Modelled from the spec: the arithmetic of the camera model without
    rounding; the float operations of the source are replaced by the field
    operations of the real numbers. *)
Definition real_float : PyFloat R := {|
  float_of_int := IZR;
  float_half := / 2;
  fadd := Rplus;
  fsub := Rminus;
  fmul := Rmult;
  fdiv := Rdiv;
  fneg := Ropp;
  fis_zero := fun x => if Req_dec_T x 0 then true else false;
  int_truediv := fun a b => IZR a / IZR b;
  int_of_float := trunc
|}.

Definition vec : Type := R * R * R.

Definition norm2 (v : vec) : R :=
  let '(x, y, z) := v in x * x + y * y + z * z.

(** Modelled from the spec: the magnitude of a direction vector, the
    Euclidean length ([Vector.length] of mathutils, which is missing from
    the sources). *)
Definition magnitude (v : vec) : R := sqrt (norm2 v).

(** Modelled from the spec: the camera's orientation rotation
    ([Vector.rotate] with an Euler triple, of mathutils, which is missing
    from the sources) as the rotation about the X axis, then about the Y
    axis, then about the Z axis, the order XYZ of the host's default. *)
Definition rotate_x (a : R) (v : vec) : vec :=
  let '(x, y, z) := v in (x, y * cos a - z * sin a, y * sin a + z * cos a).

Definition rotate_y (a : R) (v : vec) : vec :=
  let '(x, y, z) := v in (x * cos a + z * sin a, y, z * cos a - x * sin a).

Definition rotate_z (a : R) (v : vec) : vec :=
  let '(x, y, z) := v in (x * cos a - y * sin a, x * sin a + y * cos a, z).

(** Modelled from the spec: [v.rotate(euler)] of mathutils, which is
    missing from the sources, as the three axis rotations in turn. *)
Definition rotate (v : vec) (e : R * R * R) : vec :=
  let '(ex, ey, ez) := e in rotate_z ez (rotate_y ey (rotate_x ex v)).

(** Modelled from the spec: normalization to unit length
    ([Vector.normalized] of mathutils, which is missing from the sources):
    the vector divided by its magnitude; the zero vector, which has no
    direction, is returned as it is. *)
Definition normalized (v : vec) : vec :=
  let '(x, y, z) := v in
  if Req_dec_T (magnitude v) 0 then v
  else (x / magnitude v, y / magnitude v, z / magnitude v).

(** Modelled from the spec: the host of the camera model, with the
    operations above for the three calls of lines 89-91. *)
Definition host : Host R := {|
  Vector := vec;
  Euler := R * R * R;
  Object := unit;
  Matrix := unit;
  Vector_new := fun a b c => (a, b, c);
  Vector_rotate := rotate;
  Vector_normalized := normalized
|}.

#[local] Existing Instance real_float.
#[local] Existing Instance host.

Definition origin : vec := (0, 0, 0).


End Ideal.

(** ** The panels of the host and their engine sets

    [bpy.types.Panel.__subclasses__()] is a list of panel classes.  A
    panel class may have the attribute [COMPAT_ENGINES], a set of engine
    names; several classes can refer to one and the same set object (a
    class inherits the attribute of its base), so the sets live in a store
    and a panel holds a reference.  [register_class] and
    [unregister_class] are recorded in call order.  The host refuses to
    register a class that is registered already (ValueError) and to
    unregister one that is not (RuntimeError): [register] and [unregister]
    below are the runs in which the host accepts the call, and
    [register_checked] and [unregister_checked] are the same lines on a
    host that makes the test. *)

Module Registry.
(** A reference to a set object. *)
Definition loc : Type := nat.

(** A panel class: its [__name__], and its attribute [COMPAT_ENGINES] when
    [hasattr(panel, 'COMPAT_ENGINES')]. *)
Record panel : Type := {
  panel_name : string;
  compat_engines : option loc
}.

(** What the attribute access, [set.remove] and the two class calls of
    the host can raise. *)
Inductive error : Set := AttributeError | KeyError | ValueError | RuntimeError.

Inductive class_call : Set :=
| register_class (bl_idname : string)
| unregister_class (bl_idname : string).

Record bpy_state : Type := {
  subclasses : list panel;
  engine_sets : gmap loc (gset string);
  class_calls : list class_call
}.

(** The set a reference stands for. *)
Definition engines (s : bpy_state) (l : loc) : gset string :=
  default ∅ (engine_sets s !! l).

Definition store (s : bpy_state) (l : loc) (v : gset string) : bpy_state :=
  {| subclasses := subclasses s;
     engine_sets := <[l := v]> (engine_sets s);
     class_calls := class_calls s |}.

Definition call (c : class_call) (s : bpy_state) : bpy_state :=
  {| subclasses := subclasses s;
     engine_sets := engine_sets s;
     class_calls := class_calls s ++ [c] |}.

(** [x in panel.COMPAT_ENGINES], [panel.COMPAT_ENGINES.add(x)] and
    [panel.COMPAT_ENGINES.remove(x)]: the set is updated in place, for
    every panel that refers to it. *)
Definition set_contains (x : string) (s : bpy_state) (p : panel)
  : error + bool :=
  match compat_engines p with
  | None => inl AttributeError
  | Some l => inr (bool_decide (x ∈ engines s l))
  end.

Definition set_add (x : string) (s : bpy_state) (p : panel)
  : error + bpy_state :=
  match compat_engines p with
  | None => inl AttributeError
  | Some l => inr (store s l (engines s l ∪ {[x]}))
  end.

Definition set_remove (x : string) (s : bpy_state) (p : panel)
  : error + bpy_state :=
  match compat_engines p with
  | None => inl AttributeError
  | Some l =>
      if bool_decide (x ∈ engines s l)
      then inr (store s l (engines s l ∖ {[x]}))
      else inl KeyError
  end.

(** [for panel in l: body], stopped by the first exception. *)
Fixpoint for_panels (l : list panel)
    (body : bpy_state -> panel -> error + bpy_state) (s : bpy_state)
  : error + bpy_state :=
  match l with
  | [] => inr s
  | p :: l' =>
      match body s p with
      | inl e => inl e
      | inr s' => for_panels l' body s'
      end
  end.

(** Lines 133-145. *)
Definition exclude_panels : gset string :=
  {[ "VIEWLAYER_PT_filter"; "VIEWLAYER_PT_layer_passes" ]}.

Definition get_panels (s : bpy_state) : list panel :=
  foldl (fun panels p =>
           match compat_engines p with
           | Some l =>
               if bool_decide ("BLENDER_RENDER" ∈ engines s l)
               then if bool_decide (panel_name p ∉ exclude_panels)
                    then panels ++ [p]
                    else panels
               else panels
           | None => panels
           end)
        [] (subclasses s).

(** Lines 148-153: the list of panels is built once, before the loop. *)
Definition register (s : bpy_state) : error + bpy_state :=
  let s := call (register_class "CUSTOM") s in
  for_panels (get_panels s) (set_add "CUSTOM") s.

(** Lines 156-161. *)
Definition unregister (s : bpy_state) : error + bpy_state :=
  let s := call (unregister_class "CUSTOM") s in
  for_panels (get_panels s)
    (fun s p =>
       match set_contains "CUSTOM" s p with
       | inl e => inl e
       | inr true => set_remove "CUSTOM" s p
       | inr false => inr s
       end)
    s.

(** The host with the names of the classes registered so far. *)
Record host_state : Type := {
  registered : gset string;
  bpy : bpy_state
}.

(** [bpy.utils.register_class(cls)]: ValueError when the class is
    registered already. *)
Definition host_register_class (n : string) (h : host_state)
  : error + host_state :=
  if bool_decide (n ∈ registered h) then inl ValueError
  else inr {| registered := registered h ∪ {[n]};
              bpy := call (register_class n) (bpy h) |}.

(** [bpy.utils.unregister_class(cls)]: RuntimeError when the class is not
    registered. *)
Definition host_unregister_class (n : string) (h : host_state)
  : error + host_state :=
  if bool_decide (n ∈ registered h)
  then inr {| registered := registered h ∖ {[n]};
              bpy := call (unregister_class n) (bpy h) |}
  else inl RuntimeError.

(** The loop over the panels, which touches the engine sets only. *)
Definition on_panels (h : host_state)
    (loop : bpy_state -> error + bpy_state) : error + host_state :=
  match loop (bpy h) with
  | inl e => inl e
  | inr s => inr {| registered := registered h; bpy := s |}
  end.

(** Lines 148-153 on a host that tests the class. *)
Definition register_checked (h : host_state) : error + host_state :=
  match host_register_class "CUSTOM" h with
  | inl e => inl e
  | inr h1 =>
      on_panels h1
        (fun s => for_panels (get_panels s) (set_add "CUSTOM") s)
  end.

(** Lines 156-161 on a host that tests the class. *)
Definition unregister_checked (h : host_state) : error + host_state :=
  match host_unregister_class "CUSTOM" h with
  | inl e => inl e
  | inr h1 =>
      on_panels h1
        (fun s =>
           for_panels (get_panels s)
             (fun s p =>
                match set_contains "CUSTOM" s p with
                | inl e => inl e
                | inr true => set_remove "CUSTOM" s p
                | inr false => inr s
                end)
             s)
  end.

(** The set objects the selected panels refer to, in selection order. *)
Definition selected_sets (s : bpy_state) : list loc :=
  omap compat_engines (get_panels s).

(** The test of lines 140-142 on one panel. *)
Definition selected (s : bpy_state) (p : panel) : bool :=
  match compat_engines p with
  | Some l => bool_decide ("BLENDER_RENDER" ∈ engines s l)
              && bool_decide (panel_name p ∉ exclude_panels)
  | None => false
  end.

(** A host with four panel classes: two refer to the same set object, one
    of them under an excluded name; one lists another engine only; one
    has no [COMPAT_ENGINES]. *)
Definition shared_sets : bpy_state := {|
  subclasses :=
    [ {| panel_name := "RENDER_PT_context"; compat_engines := Some 0%nat |};
      {| panel_name := "VIEWLAYER_PT_filter"; compat_engines := Some 0%nat |};
      {| panel_name := "CYCLES_PT_sampling"; compat_engines := Some 1%nat |};
      {| panel_name := "VIEW3D_PT_tools"; compat_engines := None |} ];
  engine_sets :=
    {[ 0%nat := {[ "BLENDER_RENDER"; "BLENDER_EEVEE" ]};
       1%nat := {[ "CYCLES" ]} ]};
  class_calls := []
|}.
End Registry.

(** ** The draw data

    [CustomDrawData.__init__] up to the two constructors of the host's
    [gpu] module, which are given what the model records. *)

Module DrawData.







End DrawData.

(** [1.0] in binary64, the value of [100 / 100.0]. *)
Definition b64_one : Binary64.b64 := S754_finite false 4503599627370496 (-52).

(** The integer whose base-[b] digits are the first [len] digits of [n]
    in reverse order: [corput(n, b) + 1/2] is [reversed_int n b len / b^len]
    when no operation rounds. *)
Fixpoint reversed_int (n b : Z) (len : nat) : Z :=
  match len with
  | O => 0
  | S len' => reversed_int n b len' * b + digit n b len'
  end.

(** The binary64 float nearest to [j / 2^len]. *)
Definition dyadic (j len : Z) : Binary64.b64 :=
  binary_normalize Binary64.prec Binary64.emax j (- len) false.

Import Binary64 Exact.

(** * Properties of [corput] *)

(** [a =? 0] is false when arithmetic refutes [a = 0]. *)
Ltac eqb_false a :=
  let E := fresh "E" in
  destruct (a =? 0) eqn:E; [apply Z.eqb_eq in E; first [lia | nia]|].

Section CorputFacts.
Context {F : Type} {float_ops : PyFloat F}.

Lemma corput_bound_spec (n : Z) :
  0 <= n -> n < 2 ^ Z.of_nat (corput_bound n).
Proof.
  intros Hn. unfold corput_bound.
  rewrite !Nat2Z.inj_succ, Z2Nat.id by apply Z.log2_nonneg.
  rewrite Z.abs_eq by lia.
  assert (Hlog := Z.log2_nonneg n).
  rewrite !Z.pow_succ_r by lia.
  destruct (Z.eq_dec n 0) as [->|Hne]; [reflexivity|].
  pose proof (Z.log2_spec n ltac:(lia)) as [_ Hlt].
  rewrite Z.pow_succ_r in Hlt by lia. lia.
Qed.

Lemma div_base_lt_pow2 (n b : Z) (f : nat) :
  2 <= b -> 0 <= n -> n < 2 ^ Z.of_nat (S f) -> n / b < 2 ^ Z.of_nat f.
Proof.
  intros Hb Hn Hlt.
  rewrite Nat2Z.inj_succ, Z.pow_succ_r in Hlt by lia.
  apply Z.div_lt_upper_bound; [lia|].
  assert (0 < 2 ^ Z.of_nat f) by (apply Z.pow_pos_nonneg; lia).
  nia.
Qed.

(** Each iteration strictly decreases the loop variable. *)
Lemma div_base_decreases (n b : Z) : 2 <= b -> 0 < n -> 0 <= n / b < n.
Proof.
  intros Hb Hn. split.
  - apply Z.div_pos; lia.
  - apply Z.div_lt; lia.
Qed.

(** *** The number of digits *)

Lemma ltb_mul_base (n b p : Z) :
  2 <= b -> (n <? p * b) = (n / b <? p).
Proof.
  intros Hb. apply eq_true_iff_eq. rewrite !Z.ltb_lt. split; intros Hlt.
  - apply Z.div_lt_upper_bound; lia.
  - destruct (Z.lt_ge_cases n (p * b)) as [|Hge]; [assumption|].
    assert (p <= n / b) by (apply Z.div_le_lower_bound; lia). lia.
Qed.

Lemma num_digits_from_shift (f : nat) (n b p : Z) :
  2 <= b -> 0 < p ->
  num_digits_from f n b (p * b) = num_digits_from f (n / b) b p.
Proof.
  intros Hb. revert p. induction f as [|f IH]; intros p Hp; simpl;
    rewrite ltb_mul_base by assumption; [reflexivity|].
  destruct (n / b <? p); [reflexivity|].
  f_equal. apply IH. nia.
Qed.

Lemma num_digits_from_enough (f g : nat) (n b p : Z) :
  2 <= b -> 0 < p ->
  n < p * 2 ^ Z.of_nat f -> n < p * 2 ^ Z.of_nat g ->
  num_digits_from f n b p = num_digits_from g n b p.
Proof.
  intros Hb. revert g p.
  induction f as [|f IH]; intros g p Hp Hf Hg.
  - simpl in Hf. destruct g; simpl;
      (destruct (n <? p) eqn:E; [reflexivity|apply Z.ltb_ge in E; lia]).
  - destruct g as [|g].
    + simpl in Hg. simpl.
      destruct (n <? p) eqn:E; [reflexivity|apply Z.ltb_ge in E; lia].
    + simpl. destruct (n <? p); [reflexivity|]. f_equal.
      rewrite Nat2Z.inj_succ, Z.pow_succ_r in Hf, Hg by lia.
      assert (0 < 2 ^ Z.of_nat f) by (apply Z.pow_pos_nonneg; lia).
      assert (0 < 2 ^ Z.of_nat g) by (apply Z.pow_pos_nonneg; lia).
      apply IH; nia.
Qed.

Lemma num_digits_0 (b : Z) : num_digits 0 b = O.
Proof. reflexivity. Qed.

Lemma num_digits_step (n b : Z) :
  2 <= b -> 0 < n -> num_digits n b = S (num_digits (n / b) b).
Proof.
  intros Hb Hn. unfold num_digits.
  assert (Hd := div_base_decreases n b Hb Hn).
  assert (Hbn := corput_bound_spec n ltac:(lia)).
  assert (Hbd := corput_bound_spec (n / b) ltac:(lia)).
  change (corput_bound n)
    with (S (S (S (Z.to_nat (Z.log2 (Z.abs n)))))) in *.
  set (f := S (S (Z.to_nat (Z.log2 (Z.abs n))))) in *.
  rewrite (num_digits_from_enough (corput_bound (n / b)) f (n / b) b 1);
    try lia.
  2:{ rewrite Z.mul_1_l. apply div_base_lt_pow2; lia. }
  cbn [num_digits_from].
  destruct (n <? 1) eqn:E; [apply Z.ltb_lt in E; lia|].
  f_equal. apply num_digits_from_shift; lia.
Qed.

(** [num_digits n b] is the least [L] with [n < b ^ L]. *)
Lemma num_digits_spec (n b : Z) :
  2 <= b -> 0 <= n ->
  n < b ^ Z.of_nat (num_digits n b) /\
  forall L : nat, n < b ^ Z.of_nat L -> (num_digits n b <= L)%nat.
Proof.
  intros Hb Hn. pattern n. apply Z_lt_induction; [|assumption].
  clear n Hn. intros n IH.
  destruct (Z_le_gt_dec n 0) as [Hle|Hgt].
  - assert (E : num_digits n b = O).
    { unfold num_digits. cbn [corput_bound num_digits_from].
      destruct (n <? 1) eqn:E; [reflexivity|apply Z.ltb_ge in E; lia]. }
    rewrite E. split; [simpl; lia|]. intros; lia.
  - rewrite num_digits_step by lia.
    destruct (IH (n / b)) as [Hup Hleast].
    { pose proof (div_base_decreases n b); lia. }
    split.
    + rewrite Nat2Z.inj_succ, Z.pow_succ_r by lia.
      pose proof (Z.mul_succ_div_gt n b ltac:(lia)). nia.
    + intros [|L] HL; [simpl in HL; lia|].
      apply le_n_S, Hleast.
      rewrite Nat2Z.inj_succ, Z.pow_succ_r in HL by lia.
      apply Z.div_lt_upper_bound; lia.
Qed.

Lemma digit_0 (n b : Z) : digit n b 0 = n mod b.
Proof. unfold digit. simpl. rewrite Z.div_1_r. reflexivity. Qed.

Lemma digit_S (n b : Z) (k : nat) :
  2 <= b -> 0 <= n -> digit n b (S k) = digit (n / b) b k.
Proof.
  intros Hb Hn. unfold digit.
  rewrite Nat2Z.inj_succ, Z.pow_succ_r by lia.
  rewrite Z.div_div by (try apply Z.pow_pos_nonneg; lia).
  reflexivity.
Qed.

Lemma digit_range (n b : Z) (k : nat) : 2 <= b -> 0 <= digit n b k < b.
Proof. intros Hb. apply Z.mod_pos_bound. lia. Qed.

(** *** The loop computes the accumulation over the digits *)

Lemma fold_left_seq_shift {A : Type} (f g : A -> nat -> A) (a : A)
      (start len : nat) :
  (forall x k, f x (S k) = g x k) ->
  fold_left f (seq (S start) len) a = fold_left g (seq start len) a.
Proof.
  intros E. revert a start. induction len as [|len IH]; intros a start.
  - reflexivity.
  - simpl. rewrite E. apply IH.
Qed.

Lemma fold_left_pointwise {A B : Type} (f g : A -> B -> A) (l : list B)
      (a : A) :
  (forall x k, f x k = g x k) -> fold_left f l a = fold_left g l a.
Proof.
  intros E. revert a. induction l as [|k l IH]; intros a; simpl.
  - reflexivity.
  - rewrite E. apply IH.
Qed.

Lemma corput_loop_spec (fuel : nat) (b n denom : Z) (q : F) :
  2 <= b -> 0 <= n -> n < 2 ^ Z.of_nat fuel -> denom <> 0 ->
  corput_loop fuel b n denom q =
  Returns (fold_left
             (fun acc k =>
                fadd acc (int_truediv (digit n b k)
                                      (denom * b ^ Z.of_nat (S k))))
             (seq 0 (num_digits n b)) q).
Proof.
  intros Hb. revert n denom q.
  induction fuel as [|fuel IH]; intros n denom q Hn Hlt Hd.
  - simpl in Hlt. assert (n = 0) as -> by lia. reflexivity.
  - destruct (Z.eq_dec n 0) as [->|Hne]; [reflexivity|].
    cbn [corput_loop].
    eqb_false n.
    unfold py_divmod, py_div_ii.
    eqb_false b.
    cbn [mbind outcome_bind].
    eqb_false (denom * b).
    cbn [mbind outcome_bind].
    rewrite IH; try (apply Z.div_pos; lia); try nia.
    2:{ apply div_base_lt_pow2; lia. }
    rewrite (num_digits_step n b) by lia.
    cbn [seq fold_left]. rewrite digit_0.
    change (Z.of_nat 1) with 1. rewrite Z.pow_1_r.
    f_equal. symmetry. apply fold_left_seq_shift.
    intros x k. rewrite digit_S by lia.
    do 2 f_equal.
    rewrite (Nat2Z.inj_succ (S k)), Z.pow_succ_r by lia. ring.
Qed.

Lemma corput_fuel_spec (fuel : nat) (n b : Z) :
  2 <= b -> 0 <= n -> n < 2 ^ Z.of_nat fuel ->
  corput_fuel fuel n b = Returns (fsub (reversed_digits n b) float_half).
Proof.
  intros Hb Hn Hlt. unfold corput_fuel.
  rewrite corput_loop_spec by lia.
  cbn [mbind outcome_bind]. unfold reversed_digits, reversed_sum, reversed_term.
  do 2 f_equal.
  apply fold_left_pointwise. intros acc k. rewrite Z.mul_1_l. reflexivity.
Qed.

Lemma corput_spec (n b : Z) :
  2 <= b -> 0 <= n ->
  corput n b = Returns (fsub (reversed_digits n b) float_half).
Proof.
  intros Hb Hn. apply corput_fuel_spec; try assumption.
  apply corput_bound_spec. assumption.
Qed.

(** With base 1 the loop variable never changes. *)
Lemma corput_loop_base_1 (fuel : nat) (n denom : Z) (q : F) :
  n <> 0 -> denom <> 0 -> corput_loop fuel 1 n denom q = Diverges.
Proof.
  revert denom q. induction fuel as [|fuel IH]; intros denom q Hn Hd.
  - simpl. destruct (n =? 0) eqn:E; [apply Z.eqb_eq in E; lia|reflexivity].
  - cbn [corput_loop].
    eqb_false n.
    unfold py_divmod, py_div_ii. cbn [Z.eqb mbind outcome_bind].
    rewrite Z.mul_1_r.
    eqb_false denom.
    cbn [mbind outcome_bind]. rewrite Z.div_1_r. apply IH; assumption.
Qed.

(** *** The default bound loses no run

    More iterations than a run needs change nothing; and a run that does
    not end within [corput_bound n] iterations never ends.  So [corput]
    is the function of the source on all integers, not only on the
    domain of the specification. *)

Lemma corput_loop_more_fuel (f g : nat) (b n denom : Z) (q : F) :
  (f <= g)%nat -> corput_loop f b n denom q <> Diverges ->
  corput_loop g b n denom q = corput_loop f b n denom q.
Proof.
  revert g n denom q. induction f as [|f IH]; intros g n denom q Hfg Hend.
  - simpl in *. destruct (n =? 0) eqn:E; [|congruence].
    destruct g; simpl; rewrite E; reflexivity.
  - destruct g as [|g]; [lia|]. cbn [corput_loop] in *.
    destruct (n =? 0); [reflexivity|].
    unfold py_divmod, py_div_ii in *.
    destruct (b =? 0); [reflexivity|]. cbn [mbind outcome_bind] in *.
    destruct (denom * b =? 0); [reflexivity|]. cbn [mbind outcome_bind] in *.
    apply IH; [lia|assumption].
Qed.

Lemma corput_loop_step (f : nat) (b n denom : Z) (q : F) :
  n <> 0 -> b <> 0 -> denom <> 0 ->
  corput_loop (S f) b n denom q
  = corput_loop f b (n / b) (denom * b)
                (fadd q (int_truediv (n mod b) (denom * b))).
Proof.
  intros Hn Hb Hd. cbn [corput_loop].
  eqb_false n.
  unfold py_divmod, py_div_ii.
  eqb_false b.
  cbn [mbind outcome_bind].
  eqb_false (denom * b).
  reflexivity.
Qed.

(** A negative [n] stays negative under a base [>= 2]. *)
Lemma corput_loop_negative (fuel : nat) (b n denom : Z) (q : F) :
  2 <= b -> n < 0 -> denom <> 0 -> corput_loop fuel b n denom q = Diverges.
Proof.
  intros Hb. revert n denom q.
  induction fuel as [|fuel IH]; intros n denom q Hn Hd.
  - simpl. destruct (n =? 0) eqn:E; [apply Z.eqb_eq in E; lia|reflexivity].
  - rewrite corput_loop_step by lia. apply IH; [|nia].
    apply Z.div_lt_upper_bound; lia.
Qed.

(** With base -1 the loop variable changes sign for ever. *)
Lemma corput_loop_base_m1 (fuel : nat) (n denom : Z) (q : F) :
  n <> 0 -> denom <> 0 -> corput_loop fuel (-1) n denom q = Diverges.
Proof.
  revert n denom q. induction fuel as [|fuel IH]; intros n denom q Hn Hd.
  - simpl. destruct (n =? 0) eqn:E; [apply Z.eqb_eq in E; lia|reflexivity].
  - rewrite corput_loop_step by lia. apply IH; [|lia].
    intros E. apply Hn.
    pose proof (Z.div_mod n (-1) ltac:(lia)) as Hdm.
    pose proof (Z.mod_neg_bound n (-1) ltac:(lia)). lia.
Qed.

(** With a base [<= -2] the magnitude of [n] is halved, rounded up. *)
Lemma div_negative_base (n b k : Z) :
  b <= -2 -> 0 <= k -> Z.abs n <= 2 ^ (k + 1) -> Z.abs (n / b) <= 2 ^ k.
Proof.
  intros Hb Hk Hn. rewrite Z.pow_add_r, Z.pow_1_r in Hn by lia.
  assert (0 < 2 ^ k) by (apply Z.pow_pos_nonneg; lia).
  pose proof (Z.div_mod n b ltac:(lia)) as Hdm.
  pose proof (Z.mod_neg_bound n b ltac:(lia)) as Hmod.
  nia.
Qed.

Lemma corput_loop_negative_base (k : nat) (b n denom : Z) (q : F) :
  b <= -2 -> denom <> 0 -> Z.abs n <= 2 ^ Z.of_nat k ->
  exists v, corput_loop (S (S k)) b n denom q = Returns v.
Proof.
  intros Hb. revert n denom q.
  induction k as [|k IH]; intros n denom q Hd Hn.
  - change (2 ^ Z.of_nat 0) with 1 in Hn.
    destruct (Z.eq_dec n 0) as [->|Hne]; [eexists; reflexivity|].
    rewrite corput_loop_step by lia.
    assert (Hcases : n = 1 \/ n = -1) by lia.
    assert (Hm1 : -1 / b = 0).
    { apply Z.div_small_iff; lia. }
    destruct Hcases as [->| ->].
    + assert (H1 : 1 / b = -1).
      { pose proof (Z.div_mod 1 b ltac:(lia)).
        pose proof (Z.mod_neg_bound 1 b ltac:(lia)). nia. }
      rewrite H1, corput_loop_step by nia.
      rewrite Hm1. eexists. reflexivity.
    + rewrite Hm1. eexists. reflexivity.
  - destruct (Z.eq_dec n 0) as [->|Hne]; [eexists; reflexivity|].
    rewrite corput_loop_step by lia. apply IH; [nia|].
    apply div_negative_base; [lia|lia|].
    rewrite Nat2Z.inj_succ in Hn. exact Hn.
Qed.

Lemma abs_lt_pow2_bound (n : Z) :
  Z.abs n <= 2 ^ Z.of_nat (S (Z.to_nat (Z.log2 (Z.abs n)))).
Proof.
  rewrite Nat2Z.inj_succ, Z2Nat.id by apply Z.log2_nonneg.
  destruct (Z.eq_dec n 0) as [->|Hne]; [simpl; lia|].
  pose proof (Z.log2_spec (Z.abs n) ltac:(lia)). lia.
Qed.

(** Within the bound, the loop has ended or it never will. *)
Lemma corput_loop_bound_or_never (b n denom : Z) (q : F) :
  corput_loop (corput_bound n) b n denom q <> Diverges \/
  forall fuel, corput_loop fuel b n denom q = Diverges.
Proof.
  destruct (Z.eq_dec n 0) as [->|Hn]; [left; discriminate|].
  destruct (Z.eq_dec b 0) as [->|Hb0].
  { left. unfold corput_bound. cbn [corput_loop].
    destruct (n =? 0); discriminate. }
  destruct (Z.eq_dec denom 0) as [->|Hd].
  { left. unfold corput_bound. cbn [corput_loop].
    destruct (n =? 0); [discriminate|].
    unfold py_divmod, py_div_ii.
    destruct (b =? 0); [discriminate|]. cbn [mbind outcome_bind Z.mul Z.eqb].
    discriminate. }
  destruct (Z_le_gt_dec 2 b) as [Hb2|Hb2].
  { destruct (Z_lt_le_dec n 0) as [Hneg|Hpos].
    - right. intros fuel. apply corput_loop_negative; assumption.
    - left. rewrite corput_loop_spec; try lia; [discriminate|].
      apply corput_bound_spec. lia. }
  destruct (Z.eq_dec b 1) as [->|Hb1].
  { right. intros fuel. apply corput_loop_base_1; assumption. }
  destruct (Z.eq_dec b (-1)) as [->|Hbm1].
  { right. intros fuel. apply corput_loop_base_m1; assumption. }
  left. unfold corput_bound.
  destruct (corput_loop_negative_base
              (S (Z.to_nat (Z.log2 (Z.abs n)))) b n denom q
              ltac:(lia) Hd (abs_lt_pow2_bound n)) as [v ->].
  discriminate.
Qed.

Lemma corput_bound_adequate (fuel : nat) (n b : Z) :
  corput_fuel fuel n b <> Diverges -> corput n b = corput_fuel fuel n b.
Proof.
  unfold corput, corput_fuel. intros Hend.
  assert (Hloop : corput_loop fuel b n 1 (float_of_int 0) <> Diverges).
  { intros E. rewrite E in Hend. apply Hend. reflexivity. }
  destruct (corput_loop_bound_or_never b n 1 (float_of_int 0))
    as [Hb|Hnever]; [|rewrite Hnever in Hloop; congruence].
  destruct (Nat.le_ge_cases fuel (corput_bound n)) as [Hle|Hge].
  - rewrite (corput_loop_more_fuel fuel (corput_bound n)) by assumption.
    reflexivity.
  - rewrite (corput_loop_more_fuel (corput_bound n) fuel) by assumption.
    reflexivity.
Qed.
End CorputFacts.

(** ** In exact arithmetic *)

Section ExactFacts.
Local Open Scope Q_scope.

Lemma reversed_sum_S {F : Type} {float_ops : PyFloat F} (n b : Z)
      (len : nat) :
  reversed_sum n b (S len) =
  fadd (reversed_sum n b len) (reversed_term n b len).
Proof.
  unfold reversed_sum. rewrite seq_S, fold_left_app. reflexivity.
Qed.

Lemma inject_Z_pos (z : Z) : (0 < z)%Z -> 0 < inject_Z z.
Proof. intros Hz. unfold Qlt. simpl. lia. Qed.

Lemma exact_term_bound (d b p : Z) :
  (2 <= b)%Z -> (0 < p)%Z -> (0 <= d < b)%Z ->
  0 <= inject_Z d / inject_Z (p * b) /\
  inject_Z d / inject_Z (p * b) + 1 / inject_Z (p * b) <= 1 / inject_Z p.
Proof.
  intros Hb Hp Hd.
  assert (Hpb : 0 < inject_Z (p * b)) by (apply inject_Z_pos; nia).
  assert (HP : 0 < inject_Z p) by (apply inject_Z_pos; lia).
  split.
  - apply Qle_shift_div_l; [assumption|].
    rewrite Qmult_0_l. unfold Qle. simpl. lia.
  - assert (E1 : inject_Z d / inject_Z (p * b) + 1 / inject_Z (p * b)
                 == inject_Z (d + 1) / inject_Z (p * b)).
    { rewrite inject_Z_plus. field. intros E. rewrite E in Hpb.
      apply (Qlt_irrefl 0). assumption. }
    rewrite E1.
    apply Qle_shift_div_r; [assumption|].
    rewrite inject_Z_mult.
    assert (E2 : 1 / inject_Z p * (inject_Z p * inject_Z b) == inject_Z b).
    { field. intros E. rewrite E in HP. apply (Qlt_irrefl 0). assumption. }
    rewrite E2. rewrite <- Zle_Qle. lia.
Qed.

(** The partial sums stay below [1 - 1 / b^len]. *)
Lemma exact_reversed_sum_bound (n b : Z) (len : nat) :
  (2 <= b)%Z ->
  0 <= reversed_sum (F:=exact) n b len /\
  reversed_sum (F:=exact) n b len + 1 / inject_Z (b ^ Z.of_nat len) <= 1.
Proof.
  intros Hb. induction len as [|len [IH0 IH1]].
  - unfold reversed_sum. simpl. split; [apply Qle_refl|]. apply Qle_refl.
  - rewrite reversed_sum_S. unfold reversed_term.
    cbn [fadd int_truediv exact_float].
    assert (Hp : (0 < b ^ Z.of_nat len)%Z) by (apply Z.pow_pos_nonneg; lia).
    assert (E : (b ^ Z.of_nat (S len) = b ^ Z.of_nat len * b)%Z).
    { rewrite Nat2Z.inj_succ, Z.pow_succ_r by lia. ring. }
    rewrite E.
    destruct (exact_term_bound (digit n b len) b (b ^ Z.of_nat len) Hb Hp
                (digit_range n b len Hb)) as [T0 T1].
    split.
    + apply (Qle_trans _ (0 + 0)); [apply Qle_refl|].
      apply Qplus_le_compat; assumption.
    + rewrite <- Qplus_assoc.
      apply (Qle_trans _ (reversed_sum (F:=exact) n b len
                          + 1 / inject_Z (b ^ Z.of_nat len)));
        [|assumption].
      apply Qplus_le_compat; [apply Qle_refl|assumption].
Qed.

Lemma exact_reversed_digits_range (n b : Z) :
  (2 <= b)%Z -> 0 <= reversed_digits (F:=exact) n b < 1.
Proof.
  intros Hb. unfold reversed_digits.
  destruct (exact_reversed_sum_bound n b (num_digits n b) Hb) as [H0 H1].
  split; [assumption|].
  assert (Hp : (0 < b ^ Z.of_nat (num_digits n b))%Z)
    by (apply Z.pow_pos_nonneg; lia).
  assert (0 < 1 / inject_Z (b ^ Z.of_nat (num_digits n b))).
  { apply Qlt_shift_div_l; [apply inject_Z_pos; assumption|].
    rewrite Qmult_0_l. reflexivity. }
  lra.
Qed.

(** Digits above the most significant one are zero and add nothing. *)
Lemma digit_above (n b : Z) (k : nat) :
  (2 <= b)%Z -> (0 <= n)%Z -> (num_digits n b <= k)%nat -> digit n b k = 0%Z.
Proof.
  intros Hb Hn Hk. unfold digit.
  destruct (num_digits_spec n b Hb Hn) as [Hlt _].
  rewrite Z.div_small; [reflexivity|].
  split; [assumption|].
  apply (Z.lt_le_trans _ _ _ Hlt).
  apply Z.pow_le_mono_r; lia.
Qed.

Lemma exact_reversed_sum_above (n b : Z) (len : nat) :
  (2 <= b)%Z -> (0 <= n)%Z -> (num_digits n b <= len)%nat ->
  reversed_sum (F:=exact) n b len == reversed_digits (F:=exact) n b.
Proof.
  intros Hb Hn. unfold reversed_digits.
  induction len as [|len IH]; intros Hle.
  - assert (num_digits n b = O) as -> by lia. reflexivity.
  - destruct (Nat.eq_dec (num_digits n b) (S len)) as [->|Hne];
      [reflexivity|].
    rewrite reversed_sum_S. unfold reversed_term.
    rewrite digit_above by lia.
    cbn [fadd int_truediv exact_float].
    rewrite IH by lia. unfold Qdiv. rewrite Qmult_0_l. apply Qplus_0_r.
Qed.
End ExactFacts.

(** ** In binary64

    The sign and the size of what [binary_round_aux] returns, from the
    definitions of [SpecFloat]; then: [corput] never returns less than
    -0.5. *)

Section Binary64Facts.

Lemma fexp_eq (e : Z) : fexp prec emax e = Z.max (e - 53) (-1074).
Proof. reflexivity. Qed.

Lemma digits2_pos_size (p : positive) : digits2_pos p = Pos.size p.
Proof. induction p as [p IH|p IH|]; simpl; congruence. Qed.

Lemma Zdigits2_log2 (p : positive) :
  Zdigits2 (Zpos p) = Z.log2 (Zpos p) + 1.
Proof.
  simpl. rewrite digits2_pos_size.
  destruct p as [p|p|]; simpl; try rewrite Pos2Z.inj_succ; lia.
Qed.

Lemma Zdigits2_nonneg (m : Z) : 0 <= Zdigits2 m.
Proof. destruct m; simpl; lia. Qed.

Lemma Zdigits2_le (m k : Z) : 0 <= k -> 0 <= m < 2 ^ k -> Zdigits2 m <= k.
Proof.
  intros Hk [H0 Hlt]. destruct m as [|p|p]; [simpl; lia| |lia].
  rewrite Zdigits2_log2.
  assert (Z.log2 (Zpos p) < k) by (apply Z.log2_lt_pow2; lia). lia.
Qed.

Lemma Zdigits2_pow2 (k : Z) : 0 <= k -> Zdigits2 (2 ^ k) = k + 1.
Proof.
  intros Hk. assert (0 < 2 ^ k) by (apply Z.pow_pos_nonneg; lia).
  destruct (2 ^ k) as [|p|p] eqn:E; try lia.
  rewrite Zdigits2_log2, <- E, Z.log2_pow2 by lia. reflexivity.
Qed.

Lemma Zdigits2_spec (p : positive) : Zpos p < 2 ^ Zdigits2 (Zpos p).
Proof.
  rewrite Zdigits2_log2.
  pose proof (Z.log2_spec (Zpos p) ltac:(lia)) as [_ Hlt].
  replace (Z.log2 (Zpos p) + 1) with (Z.succ (Z.log2 (Zpos p))) by lia.
  exact Hlt.
Qed.

Lemma shr_1_m (r : shr_record) : 0 <= shr_m r -> shr_m (shr_1 r) = shr_m r / 2.
Proof.
  destruct r as [m rb sb]. simpl. intros Hm.
  destruct m as [|[p|p|]|p]; simpl; try lia; try reflexivity.
  - rewrite Pos2Z.inj_xI. apply (Z.div_unique _ _ _ 1); lia.
  - rewrite Pos2Z.inj_xO. apply (Z.div_unique _ _ _ 0); lia.
Qed.

Lemma iter_pos_shr_m (p : positive) :
  forall r, 0 <= shr_m r ->
    shr_m (SpecFloat.iter_pos shr_1 p r) = shr_m r / 2 ^ Zpos p.
Proof.
  induction p as [p IH|p IH|]; intros r Hr; simpl SpecFloat.iter_pos.
  - assert (H1 : 0 <= shr_m (shr_1 r)).
    { rewrite shr_1_m by assumption. apply Z.div_pos; lia. }
    assert (H2 : 0 <= shr_m (SpecFloat.iter_pos shr_1 p (shr_1 r))).
    { rewrite IH by assumption. apply Z.div_pos; [assumption|].
      apply Z.pow_pos_nonneg; lia. }
    rewrite IH, IH, shr_1_m by assumption.
    rewrite !Z.div_div by (try apply Z.pow_pos_nonneg; lia).
    f_equal. rewrite <- Z.pow_add_r by lia.
    change 2 with (2 ^ 1) at 1. rewrite <- Z.pow_add_r by lia.
    f_equal. lia.
  - assert (H2 : 0 <= shr_m (SpecFloat.iter_pos shr_1 p r)).
    { rewrite IH by assumption. apply Z.div_pos; [assumption|].
      apply Z.pow_pos_nonneg; lia. }
    rewrite IH, IH by assumption.
    rewrite !Z.div_div by (try apply Z.pow_pos_nonneg; lia).
    f_equal. rewrite <- Z.pow_add_r by lia. f_equal. lia.
  - rewrite shr_1_m by assumption. reflexivity.
Qed.

Lemma shr_record_of_loc_m (m : Z) (l : location) :
  shr_m (shr_record_of_loc m l) = m.
Proof. destruct l as [|[]]; reflexivity. Qed.

(** [shr_fexp] on a non-negative mantissa: the new mantissa and exponent. *)
Lemma shr_fexp_spec (m e : Z) (l : location) :
  0 <= m ->
  let n := fexp prec emax (Zdigits2 m + e) - e in
  let '(r, e') := shr_fexp prec emax m e l in
  (0 < n -> shr_m r = m / 2 ^ n /\ e' = e + n) /\
  (n <= 0 -> shr_m r = m /\ e' = e).
Proof.
  intros Hm n. unfold shr_fexp, shr. fold n.
  destruct n as [|p|p] eqn:En.
  - split; [lia|]. intros _. rewrite shr_record_of_loc_m. auto.
  - split; [|lia]. intros _.
    rewrite iter_pos_shr_m by (rewrite shr_record_of_loc_m; assumption).
    rewrite shr_record_of_loc_m. auto.
  - split; [lia|]. intros _. rewrite shr_record_of_loc_m. auto.
Qed.

Lemma round_nearest_even_range (m : Z) (l : location) :
  m <= round_nearest_even m l <= m + 1.
Proof.
  unfold round_nearest_even. destruct l as [|[]]; try lia.
  destruct (Z.even m); lia.
Qed.

Lemma iter_xO_spec (m d : positive) :
  Zpos (Pos.iter xO m d) = Zpos m * 2 ^ Zpos d.
Proof.
  change (Pos.iter xO m d) with (shift_pos d m).
  rewrite shift_pos_correct. change (Z.pow_pos 2 d) with (2 ^ Zpos d). ring.
Qed.

Lemma shr_fexp_nonneg (m e : Z) (l : location) :
  0 <= m -> 0 <= shr_m (fst (shr_fexp prec emax m e l)).
Proof.
  intros Hm. pose proof (shr_fexp_spec m e l Hm) as Hs.
  cbv zeta in Hs. destruct (shr_fexp prec emax m e l) as [r e'].
  destruct Hs as [Hpos Hneg]. simpl.
  destruct (Z.lt_ge_cases 0 (fexp prec emax (Zdigits2 m + e) - e)) as [Hn|Hn].
  - destruct (Hpos Hn) as [-> _]. apply Z.div_pos; [assumption|].
    apply Z.pow_pos_nonneg; lia.
  - destruct (Hneg Hn) as [-> _]. assumption.
Qed.

Lemma binary_round_aux_sign (s : bool) (m e : Z) (l : location) :
  0 <= m -> signed_as s (binary_round_aux prec emax s m e l).
Proof.
  intros Hm. unfold binary_round_aux.
  pose proof (shr_fexp_nonneg m e l Hm) as H1.
  destruct (shr_fexp prec emax m e l) as [r1 e1]. simpl in H1.
  pose proof (round_nearest_even_range (shr_m r1) (loc_of_shr_record r1)) as Hr.
  pose proof (shr_fexp_nonneg
                (round_nearest_even (shr_m r1) (loc_of_shr_record r1))
                e1 loc_Exact ltac:(lia)) as H2.
  destruct (shr_fexp prec emax _ e1 loc_Exact) as [r2 e2]. simpl in H2.
  destruct (shr_m r2) as [|p|p]; [reflexivity| |lia].
  destruct (e2 <=? emax - prec); reflexivity.
Qed.

Lemma binary_round_aux_small (s : bool) (m e : Z) :
  0 < m -> Zdigits2 m + e <= -1 -> e <= fexp prec emax (Zdigits2 m + e) ->
  at_most_half s (binary_round_aux prec emax s m e loc_Exact).
Proof.
  intros Hm HD He. unfold binary_round_aux.
  pose proof (shr_fexp_spec m e loc_Exact ltac:(lia)) as H1. cbv zeta in H1.
  destruct (shr_fexp prec emax m e loc_Exact) as [r1 e1].
  destruct H1 as [H1p H1n].
  set (D := Zdigits2 m + e) in *.
  set (et := fexp prec emax D) in *.
  assert (Het : et = Z.max (D - 53) (-1074)) by reflexivity.
  set (n := et - e) in *.
  set (K := Z.max 0 (Zdigits2 m - n)).
  assert (HK : 0 <= K <= 53) by lia.
  assert (Hdig : m < 2 ^ Zdigits2 m).
  { destruct m as [|p|p]; try lia. apply Zdigits2_spec. }
  assert (Hm1 : e1 = et /\ 0 <= shr_m r1 < 2 ^ K).
  { destruct (Z.lt_ge_cases 0 n) as [Hn|Hn].
    - destruct (H1p Hn) as [-> ->]. split; [lia|].
      assert (0 < 2 ^ n) by (apply Z.pow_pos_nonneg; lia).
      split; [apply Z.div_pos; lia|].
      apply Z.div_lt_upper_bound; [assumption|].
      rewrite <- Z.pow_add_r by lia.
      apply (Z.lt_le_trans _ _ _ Hdig).
      apply Z.pow_le_mono_r; lia.
    - destruct (H1n Hn) as [-> ->]. split; [lia|]. split; [lia|].
      apply (Z.lt_le_trans _ _ _ Hdig).
      apply Z.pow_le_mono_r; lia. }
  destruct Hm1 as [-> Hm1].
  pose proof (round_nearest_even_range (shr_m r1) (loc_of_shr_record r1)) as Hr.
  set (m2 := round_nearest_even (shr_m r1) (loc_of_shr_record r1)) in *.
  pose proof (shr_fexp_spec m2 et loc_Exact ltac:(lia)) as H2. cbv zeta in H2.
  destruct (shr_fexp prec emax m2 et loc_Exact) as [r2 e2].
  destruct H2 as [H2p H2n].
  rewrite fexp_eq in H2p, H2n.
  destruct (Z.eq_dec m2 (2 ^ K)) as [E2|N2].
  - assert (Hd2 : Zdigits2 m2 = K + 1) by (rewrite E2; apply Zdigits2_pow2; lia).
    rewrite Hd2 in H2p, H2n.
    destruct (Z.eq_dec K 53) as [EK|NK].
    + destruct H2p as [Hm3 He3]; [lia|].
      replace (Z.max (K + 1 + et - 53) (-1074) - et) with 1 in Hm3, He3 by lia.
      rewrite E2, EK in Hm3. change (2 ^ 53 / 2 ^ 1) with (2 ^ 52) in Hm3.
      rewrite Hm3. change (2 ^ 52) with (Zpos 4503599627370496).
      cbv iota beta.
      destruct (e2 <=? emax - prec) eqn:Ee;
        [|apply Z.leb_gt in Ee; unfold emax, prec in Ee; lia].
      simpl. split; [reflexivity|].
      change (Zpos 4503599627370496) with (2 ^ 52). lia.
    + destruct H2n as [Hm3 He3]; [lia|].
      rewrite Hm3, E2.
      assert (0 < 2 ^ K) by (apply Z.pow_pos_nonneg; lia).
      destruct (2 ^ K) as [|p|p]; try lia.
      destruct (e2 <=? emax - prec) eqn:Ee;
        [|apply Z.leb_gt in Ee; unfold emax, prec in Ee; lia].
      simpl. split; [reflexivity|]. lia.
  - assert (Hd2 : Zdigits2 m2 <= K) by (apply Zdigits2_le; lia).
    destruct H2n as [Hm3 He3]; [lia|].
    rewrite Hm3.
    destruct m2 as [|p|p]; try lia; [reflexivity|].
    destruct (e2 <=? emax - prec) eqn:Ee;
      [|apply Z.leb_gt in Ee; unfold emax, prec in Ee; lia].
    simpl. split; [reflexivity|]. lia.
Qed.

Lemma binary_round_small (s : bool) (mx : positive) (ex : Z) :
  Zdigits2 (Zpos mx) + ex <= -1 ->
  at_most_half s (binary_round prec emax s mx ex).
Proof.
  intros HD. unfold binary_round, shl_align.
  change (Zpos (digits2_pos mx)) with (Zdigits2 (Zpos mx)).
  set (et := fexp prec emax (Zdigits2 (Zpos mx) + ex)).
  destruct (et - ex) as [|d|d] eqn:Ed.
  - apply binary_round_aux_small; fold et; lia.
  - apply binary_round_aux_small; fold et; lia.
  - assert (Hdig : Zdigits2 (Zpos (Pos.iter xO mx d)) + et
                   = Zdigits2 (Zpos mx) + ex).
    { rewrite !Zdigits2_log2, iter_xO_spec, Z.log2_mul_pow2 by lia. lia. }
    apply binary_round_aux_small; rewrite ?Hdig; fold et; lia.
Qed.

Lemma signed_as_nonneg (x : b64) : signed_as false x -> nonneg x.
Proof. destruct x; simpl; auto. Qed.

Lemma binary_round_sign (s : bool) (m : positive) (e : Z) :
  signed_as s (binary_round prec emax s m e).
Proof.
  unfold binary_round. destruct (shl_align _ _ _) as [mz ez].
  apply binary_round_aux_sign. lia.
Qed.

Lemma truediv_nonneg (a b : Z) : 0 <= a -> 0 < b -> nonneg (truediv a b).
Proof.
  intros Ha Hb. unfold truediv.
  destruct b as [|q|q]; try lia.
  destruct a as [|p|p]; try lia; [exact I|].
  apply signed_as_nonneg. cbn [Z_as_float SFdiv xorb].
  unfold SFdiv_core_binary.
  set (m' := match _ - _ with Z0 => Zpos p | Zpos _ => _ | Zneg _ => 0 end).
  assert (Hm' : 0 <= m').
  { subst m'. destruct (_ - _); [lia| |lia]. apply Z.shiftl_nonneg. lia. }
  destruct (Z.div_eucl m' (Zpos q)) as [d r] eqn:E.
  assert (Hd : d = m' / Zpos q) by (unfold Z.div; rewrite E; reflexivity).
  apply binary_round_aux_sign. rewrite Hd. apply Z.div_pos; lia.
Qed.

Lemma SFadd_nonneg (x y : b64) :
  nonneg x -> nonneg y -> nonneg (SFadd prec emax x y).
Proof.
  destruct x as [sx|sx| |sx mx ex], y as [sy|sy| |sy my ey];
    simpl; try tauto; try congruence.
  - intros _ _. destruct sx, sy; exact I.
  - intros -> ->. reflexivity.
  - intros -> ->. apply signed_as_nonneg.
    cbn [cond_Zopp Z.add binary_normalize]. apply binary_round_sign.
Qed.

Lemma shl_align_half (ez : Z) :
  ez <= -53 ->
  Zpos (fst (shl_align 4503599627370496 (-53) ez)) = 2 ^ (-1 - ez).
Proof.
  intros Hez. unfold shl_align.
  destruct (ez - -53) as [|d|d] eqn:Ed; try lia.
  - assert (ez = -53) as -> by lia. reflexivity.
  - cbn [fst]. rewrite iter_xO_spec.
    change (Zpos 4503599627370496) with (2 ^ 52).
    rewrite <- Z.pow_add_r by lia. f_equal. lia.
Qed.

Lemma SFleb_minus_half_signed (x : b64) :
  signed_as false x -> SFleb minus_half x = true.
Proof. destruct x as [s|s| |s m e]; simpl; try tauto; intros ->; reflexivity. Qed.

Lemma SFleb_minus_half_small (x : b64) :
  at_most_half true x -> SFleb minus_half x = true.
Proof.
  destruct x as [s|s| |s m e]; simpl; try tauto.
  intros [-> [Hlt|[-> Hm]]].
  - unfold SFleb, SFcompare, minus_half.
    destruct (Z.compare_spec (-53) e); first [lia | reflexivity].
  - injection Hm as ->. reflexivity.
Qed.

Lemma SFsub_half_lower (q : b64) :
  nonneg q -> SFleb minus_half (SFsub prec emax q half) = true.
Proof.
  destruct q as [s|s| |s m e]; simpl; try tauto.
  - intros ->. reflexivity.
  - intros ->. cbn [cond_Zopp].
    set (ez := Z.min e (-53)).
    rewrite (shl_align_half ez) by lia.
    set (A := Zpos (fst (shl_align m e ez))).
    assert (HA : 0 < A) by (subst A; lia).
    destruct (A - 2 ^ (-1 - ez)) as [|p|p] eqn:Ed.
    + reflexivity.
    + apply SFleb_minus_half_signed. apply binary_round_sign.
    + apply SFleb_minus_half_small. apply binary_round_small.
      assert (Zdigits2 (Zpos p) <= -1 - ez); [|lia].
      apply Zdigits2_le; lia.
Qed.

Lemma b64_reversed_sum_nonneg (n b : Z) (len : nat) :
  0 <= n -> 2 <= b -> nonneg (reversed_sum (F:=b64) n b len).
Proof.
  intros Hn Hb. induction len as [|len IH]; [exact I|].
  rewrite reversed_sum_S. apply SFadd_nonneg; [assumption|].
  apply truediv_nonneg.
  - apply digit_range. assumption.
  - apply Z.pow_pos_nonneg; lia.
Qed.
End Binary64Facts.

(** ** Termination *)

Section Termination.
Context {F : Type} {float_ops : PyFloat F}.

Lemma pow2_fuel_mono (n : Z) (f g : nat) :
  (f <= g)%nat -> n < 2 ^ Z.of_nat f -> n < 2 ^ Z.of_nat g.
Proof.
  intros Hfg Hlt. apply (Z.lt_le_trans _ _ _ Hlt).
  apply Z.pow_le_mono_r; lia.
Qed.

(** C10. For n >= 0 and base >= 2 the loop of corput ends: the run with
    the default bound returns a value, every run with at least that many
    iterations allowed returns the same value, and while n > 0 each
    iteration replaces n by n // base, which is non-negative and strictly
    smaller.  With base = 1 and n > 0 no number of iterations suffices. *)
Theorem corput_terminates (n b : Z) :
  0 <= n -> 2 <= b ->
  (exists v : F,
      corput n b = Returns v /\
      forall fuel, (corput_bound n <= fuel)%nat ->
                   corput_fuel fuel n b = Returns v) /\
  (0 < n -> 0 <= n / b < n) /\
  (0 < n -> forall fuel, corput_fuel (F:=F) fuel n 1 = Diverges).
Proof.
  intros Hn Hb. split; [|split].
  - exists (fsub (reversed_digits n b) float_half). split.
    + apply corput_spec; assumption.
    + intros fuel Hfuel. apply corput_fuel_spec; try assumption.
      apply (pow2_fuel_mono n (corput_bound n)); [assumption|].
      apply corput_bound_spec. assumption.
  - intros Hpos. apply div_base_decreases; assumption.
  - intros Hpos fuel. unfold corput_fuel.
    rewrite corput_loop_base_1 by lia. reflexivity.
Qed.
End Termination.

Lemma corput_terminates_witness :
  0 <= 5 /\ 2 <= 3 /\
  (exists v : b64,
      corput 5 3 = Returns v /\
      forall fuel, (corput_bound 5 <= fuel)%nat ->
                   corput_fuel fuel 5 3 = Returns v) /\
  (0 < 5 -> 0 <= 5 / 3 < 5) /\
  (0 < 5 -> forall fuel, corput_fuel (F:=b64) fuel 5 1 = Diverges).
Proof.
  split; [lia|]. split; [lia|].
  apply (corput_terminates (F:=b64) 5 3); lia.
Defined.

(** ** The value at index 0 *)

(** C3. corput(0, b) is exactly -0.5, for every base b (so in particular
    for b >= 2) and whatever number of iterations is allowed: the loop
    body never runs.  The binary64 result is the float -(2^52) * 2^-53,
    which stands for -1/2, and the result in exact arithmetic is the
    rational -1/2. *)
Theorem corput_0_is_minus_half (b : Z) :
  corput (F:=b64) 0 b = Returns Binary64.minus_half /\
  (forall fuel, corput_fuel (F:=b64) fuel 0 b = Returns Binary64.minus_half) /\
  (exists x : Q,
      Binary64.to_Q Binary64.minus_half = Some x /\ (x == - (1 # 2))%Q) /\
  corput (F:=exact) 0 b = Returns (-1 # 2)%Q.
Proof.
  split; [reflexivity|]. split; [intros [|fuel]; reflexivity|].
  split; [|reflexivity].
  eexists. split; [reflexivity|]. vm_compute. reflexivity.
Qed.

(** * Properties of the render loop *)

Section RenderFacts.
Context {F : Type} {float_ops : PyFloat F} {host : Host F}.

Lemma cast_all_nil (wd : world) : cast_all [] wd = wd.
Proof. destruct wd. unfold cast_all. simpl. rewrite app_nil_r. reflexivity. Qed.

Lemma cast_all_app (r1 r2 : list (Vector * Vector)) (wd : world) :
  cast_all r2 (cast_all r1 wd) = cast_all (r1 ++ r2) wd.
Proof. unfold cast_all. simpl. rewrite app_assoc. reflexivity. Qed.

Lemma bind_returns {A B : Type} (m : M A) (f : A -> M B) (a : A)
      (wd wd' : world) :
  m wd = (Returns a, wd') -> (m ≫= f) wd = f a wd'.
Proof. intros E. unfold mbind, M_bind. rewrite E. reflexivity. Qed.

Lemma bind_raises {A B : Type} (m : M A) (f : A -> M B) (e : exn)
      (wd wd' : world) :
  m wd = (Raises e, wd') -> (m ≫= f) wd = (Raises e, wd').
Proof. intros E. unfold mbind, M_bind. rewrite E. reflexivity. Qed.

Lemma bind_lift_returns {A B : Type} (o : outcome A) (f : A -> M B) (a : A)
      (wd : world) :
  o = Returns a -> (lift o ≫= f) wd = f a wd.
Proof. intros ->. reflexivity. Qed.

Lemma bind_lift_raises {A B : Type} (o : outcome A) (f : A -> M B) (e : exn)
      (wd : world) :
  o = Raises e -> (lift o ≫= f) wd = (Raises e, wd).
Proof. intros ->. reflexivity. Qed.

(** A loop whose body always returns is a fold; the rays of the
    iterations are cast in order. *)
Lemma for_each_run {A S : Type} (P : S -> Prop) (l : list A)
      (body : S -> A -> M S) (g : S -> A -> S)
      (r : A -> list (Vector * Vector)) :
  (forall s a wd, a ∈ l -> P s ->
     body s a wd = (Returns (g s a), cast_all (r a) wd) /\ P (g s a)) ->
  forall s wd, P s ->
    for_each l body s wd
    = (Returns (foldl g s l), cast_all (concat (r <$> l)) wd)
    /\ P (foldl g s l).
Proof.
  induction l as [|a l IH]; intros Hbody s wd Hs.
  - simpl. rewrite cast_all_nil. split; [reflexivity|assumption].
  - destruct (Hbody s a wd) as [E HP]; [left|assumption|].
    cbn [for_each]. rewrite (bind_returns _ _ _ _ _ E).
    destruct (IH (fun s a wd Ha => Hbody s a wd (list_elem_of_further _ _ _ Ha))
                 (g s a) (cast_all (r a) wd) HP) as [E' HP'].
    rewrite E', cast_all_app. split; [reflexivity|exact HP'].
Qed.

Lemma py_range_elem (k i : Z) : i ∈ py_range k <-> 0 <= i < k.
Proof. unfold py_range. rewrite elem_of_seqZ. lia. Qed.

Lemma py_index_in_range {A : Type} (l : list A) (i : Z) :
  0 <= i < Z.of_nat (length l) -> py_index l i = Returns (Z.to_nat i).
Proof.
  intros Hi. unfold py_index.
  destruct (0 <=? i) eqn:E1; [|apply Z.leb_gt in E1; lia].
  destruct (i <? Z.of_nat (length l)) eqn:E2; [|apply Z.ltb_ge in E2; lia].
  reflexivity.
Qed.

Lemma list_setitem_in_range {A : Type} (l : list A) (i : Z) (v : A) :
  0 <= i < Z.of_nat (length l) ->
  list_setitem l i v = Returns (<[Z.to_nat i := v]> l).
Proof.
  intros Hi. unfold list_setitem. rewrite py_index_in_range by assumption.
  reflexivity.
Qed.

Lemma list_getitem_fmap_range {A : Type} (f : Z -> A) (k i : Z) :
  0 <= i < k -> list_getitem (f <$> py_range k) i = Returns (f i).
Proof.
  intros Hi. unfold list_getitem.
  rewrite py_index_in_range.
  2:{ unfold py_range. rewrite length_fmap, length_seqZ. lia. }
  cbn [mbind outcome_bind].
  rewrite list_lookup_fmap. unfold py_range.
  rewrite lookup_seqZ_lt by lia. simpl.
  rewrite Z2Nat.id by lia. reflexivity.
Qed.

Lemma screen_coord_returns (p size : Z) :
  size <> 0 -> screen_coord p size = Returns (screen_value p size).
Proof.
  intros Hs. unfold screen_coord, py_div_ii, py_div_fi.
  cbn [Z.eqb mbind outcome_bind].
  eqb_false size. reflexivity.
Qed.

Lemma RT_trace_ray_run (sc : scene) (o d : Vector) (wd : world) :
  RT_trace_ray sc o d wd
  = (Returns (trace_color (scene_ray_cast sc o d)), cast_all [(o, d)] wd).
Proof. reflexivity. Qed.

(** The sample offsets: one per sample index, from [corput]. *)
Lemma sample_offsets_return (b : Z) (scale : F) (cnt : Z) :
  2 <= b ->
  mapM (fun i => c ← corput i b; mret (fmul c scale)) (py_range cnt)
  = Returns ((fun i => fmul (fsub (reversed_digits i b) float_half) scale)
               <$> py_range cnt).
Proof.
  intros Hb.
  assert (Hall : Forall (fun i => 0 <= i) (py_range cnt)).
  { apply Forall_forall. intros i Hi. apply py_range_elem in Hi. lia. }
  induction Hall as [|i l Hi _ IH]; [reflexivity|].
  cbn [mapM fmap list_fmap].
  rewrite corput_spec by assumption.
  cbn [mbind outcome_bind mret outcome_ret].
  rewrite IH. reflexivity.
Qed.

(** *** The writes of a pass fill the buffer row by row *)

Section Fill.
Variable sc : scene.
Variables w h : Z.
Hypothesis w_nonneg : 0 <= w.

Lemma put_pixels_fill (s y : Z) (k : nat) :
  0 <= y ->
  forall (a : nat) (pre old post : list pixel),
    length pre = (Z.to_nat (y * w) + a)%nat -> length old = k ->
    foldl (put_pixel sc w h s y) (pre ++ old ++ post)
          (seqZ (Z.of_nat a) (Z.of_nat k))
    = pre ++ (pixel_value sc w h s y <$> seqZ (Z.of_nat a) (Z.of_nat k))
          ++ post.
Proof.
  intros Hy. induction k as [|k IH]; intros a pre old post Hpre Hold.
  - destruct old; [|discriminate]. reflexivity.
  - destruct old as [|o old]; [discriminate|].
    rewrite seqZ_cons by lia.
    replace (Z.succ (Z.of_nat a)) with (Z.of_nat (S a)) by lia.
    replace (Z.pred (Z.of_nat (S k))) with (Z.of_nat k) by lia.
    cbn [foldl fmap list_fmap]. unfold put_pixel at 2.
    replace (Z.to_nat (y * w + Z.of_nat a)) with (length pre) by nia.
    rewrite insert_app_r_alt by lia. rewrite Nat.sub_diag.
    cbn [app insert list_insert].
    rewrite (cons_middle _ pre), app_assoc.
    rewrite IH.
    + rewrite <- app_assoc. reflexivity.
    + rewrite length_app. simpl. lia.
    + simpl in Hold. lia.
Qed.

Lemma put_row_fill (s y : Z) (pre old post : list pixel) :
  0 <= y -> length pre = Z.to_nat (y * w) -> length old = Z.to_nat w ->
  put_row sc w h s (pre ++ old ++ post) y = pre ++ row sc w h s y ++ post.
Proof.
  intros Hy Hpre Hold. unfold put_row, row, py_range.
  rewrite <- (Z2Nat.id w) at 2 4 by assumption.
  apply (put_pixels_fill s y (Z.to_nat w) Hy 0%nat); lia.
Qed.

Lemma length_row (s y : Z) : length (row sc w h s y) = Z.to_nat w.
Proof. unfold row, py_range. rewrite length_fmap, length_seqZ. reflexivity. Qed.

Lemma put_rows_fill (s : Z) (k : nat) :
  forall (a : nat) (pre old post : list pixel),
    length pre = (a * Z.to_nat w)%nat -> length old = (k * Z.to_nat w)%nat ->
    foldl (put_row sc w h s) (pre ++ old ++ post)
          (seqZ (Z.of_nat a) (Z.of_nat k))
    = pre ++ concat (row sc w h s <$> seqZ (Z.of_nat a) (Z.of_nat k))
          ++ post.
Proof.
  induction k as [|k IH]; intros a pre old post Hpre Hold.
  - destruct old; [|discriminate]. reflexivity.
  - rewrite seqZ_cons by lia.
    replace (Z.succ (Z.of_nat a)) with (Z.of_nat (S a)) by lia.
    replace (Z.pred (Z.of_nat (S k))) with (Z.of_nat k) by lia.
    cbn [foldl fmap list_fmap concat].
    rewrite <- (take_drop (Z.to_nat w) old), <- (app_assoc (take _ old)).
    rewrite put_row_fill; try lia.
    2:{ rewrite length_take. simpl in Hold. lia. }
    rewrite (app_assoc pre), IH.
    + rewrite <- !app_assoc. reflexivity.
    + rewrite length_app, length_row. lia.
    + rewrite length_drop. simpl in Hold. lia.
Qed.

Lemma put_frame_fill (s : Z) (rect : list pixel) :
  0 <= h -> length rect = Z.to_nat (w * h) ->
  put_frame sc w h rect s = frame sc w h s.
Proof.
  intros Hh Hlen. unfold put_frame, frame, py_range.
  rewrite <- (Z2Nat.id h) at 2 4 by assumption.
  pose proof (put_rows_fill s (Z.to_nat h) 0%nat [] rect []) as E.
  rewrite !app_nil_r in E. apply E; [reflexivity|].
  rewrite Hlen. rewrite Z2Nat.inj_mul by lia. lia.
Qed.

Lemma length_rows (s : Z) (l : list Z) :
  length (concat (row sc w h s <$> l)) = (length l * Z.to_nat w)%nat.
Proof.
  induction l as [|y l IH]; [reflexivity|].
  cbn [fmap list_fmap concat]. rewrite length_app, length_row, IH.
  simpl. lia.
Qed.

Lemma length_frame (s : Z) :
  0 <= h -> length (frame sc w h s) = Z.to_nat (w * h).
Proof.
  intros Hh. unfold frame, py_range.
  rewrite length_rows, length_seqZ, Z2Nat.inj_mul by lia. lia.
Qed.
End Fill.

(** *** The three loops on a valid resolution *)

Section Runs.
Variable sc : scene.
Variables w h cnt : Z.
Hypothesis w_pos : 0 < w.
Hypothesis h_pos : 0 < h.

Lemma pixel_body_run (s y x : Z) (rect : list pixel) (wd : world) :
  0 <= s < cnt -> 0 <= y < h -> 0 <= x < w ->
  length rect = Z.to_nat (w * h) ->
  pixel_body sc w w (focal_length_of sc)
             (sample_offset_x w <$> py_range cnt)
             (sample_offset_y w h <$> py_range cnt)
             s y (fmul (screen_value y h) (aspect_ratio_of w h)) rect x wd
  = (Returns (put_pixel sc w h s y rect x),
     cast_all [(camera_location sc, pixel_ray sc w h s y x)] wd).
Proof.
  intros Hs Hy Hx Hlen. unfold pixel_body.
  rewrite (bind_lift_returns _ _ _ _ (screen_coord_returns x w ltac:(lia))).
  rewrite (bind_lift_returns _ _ _ _
             (list_getitem_fmap_range (sample_offset_x w) cnt s Hs)).
  rewrite (bind_lift_returns _ _ _ _
             (list_getitem_fmap_range (sample_offset_y w h) cnt s Hs)).
  rewrite (bind_returns _ _ _ _ _ (RT_trace_ray_run _ _ _ _)).
  unfold lift. rewrite list_setitem_in_range by nia. reflexivity.
Qed.

Lemma concat_singletons {A B : Type} (f : A -> B) (l : list A) :
  concat ((fun a => [f a]) <$> l) = f <$> l.
Proof. induction l as [|a l IH]; [reflexivity|]. simpl. f_equal. exact IH. Qed.

Lemma length_put_pixel (s y x : Z) (rect : list pixel) :
  length (put_pixel sc w h s y rect x) = length rect.
Proof. apply length_insert. Qed.

Lemma row_body_run (s y : Z) (rect : list pixel) (wd : world) :
  0 <= s < cnt -> 0 <= y < h -> length rect = Z.to_nat (w * h) ->
  row_body sc w w h (focal_length_of sc) (aspect_ratio_of w h)
           (sample_offset_x w <$> py_range cnt)
           (sample_offset_y w h <$> py_range cnt) s rect y wd
  = (Returns (put_row sc w h s rect y), cast_all (row_rays sc w h s y) wd)
  /\ length (put_row sc w h s rect y) = Z.to_nat (w * h).
Proof.
  intros Hs Hy Hlen. unfold row_body.
  rewrite (bind_lift_returns _ _ (fmul (screen_value y h) (aspect_ratio_of w h))).
  2:{ rewrite screen_coord_returns by lia. reflexivity. }
  unfold put_row, row_rays.
  rewrite <- (concat_singletons
                (fun x => (camera_location sc, pixel_ray sc w h s y x))).
  apply (for_each_run (fun rect => length rect = Z.to_nat (w * h)));
    [|assumption].
  intros rect' x wd' Hx Hlen'. apply py_range_elem in Hx. split.
  - apply pixel_body_run; assumption.
  - rewrite length_put_pixel. assumption.
Qed.

Lemma pass_body_run (s : Z) (rect : list pixel) (wd : world) :
  0 <= s < cnt -> length rect = Z.to_nat (w * h) ->
  pass_body sc w h w h (focal_length_of sc) (aspect_ratio_of w h)
            (sample_offset_x w <$> py_range cnt)
            (sample_offset_y w h <$> py_range cnt) rect s wd
  = (Returns (frame sc w h s), cast_all (frame_rays sc w h s) wd).
Proof.
  intros Hs Hlen. unfold pass_body.
  destruct (for_each_run (fun rect => length rect = Z.to_nat (w * h))
              (py_range h)
              (row_body sc w w h (focal_length_of sc) (aspect_ratio_of w h)
                 (sample_offset_x w <$> py_range cnt)
                 (sample_offset_y w h <$> py_range cnt) s)
              (put_row sc w h s) (row_rays sc w h s)) with (s := rect) (wd := wd)
    as [E _]; [|assumption|].
  - intros rect' y wd' Hy Hlen'. apply py_range_elem in Hy.
    apply row_body_run; assumption.
  - rewrite E. f_equal. f_equal.
    apply (put_frame_fill sc w h ltac:(lia) s rect); [lia|assumption].
Qed.

Lemma foldl_frames (l : list Z) (rect : list pixel) :
  foldl (fun _ s => frame sc w h s) rect l
  = match last l with Some s => frame sc w h s | None => rect end.
Proof.
  revert rect. induction l as [|s l IH]; intros rect; [reflexivity|].
  cbn [foldl]. rewrite IH. destruct l as [|z l]; [reflexivity|].
  change (last (s :: z :: l)) with (last (z :: l)).
  destruct (last (z :: l)) eqn:E; [reflexivity|].
  apply last_None in E. discriminate.
Qed.

Lemma passes_run (rect : list pixel) (wd : world) :
  length rect = Z.to_nat (w * h) ->
  for_each (py_range cnt)
           (pass_body sc w h w h (focal_length_of sc) (aspect_ratio_of w h)
              (sample_offset_x w <$> py_range cnt)
              (sample_offset_y w h <$> py_range cnt)) rect wd
  = (Returns (match last (py_range cnt) with
              | Some s => frame sc w h s
              | None => rect
              end),
     cast_all (concat (frame_rays sc w h <$> py_range cnt)) wd).
Proof.
  intros Hlen. rewrite <- foldl_frames.
  refine (proj1 (for_each_run (fun rect => length rect = Z.to_nat (w * h))
                   _ _ (fun _ s => frame sc w h s) _ _ rect wd Hlen)).
  intros rect' s wd' Hs Hlen'. apply py_range_elem in Hs. split.
  - apply pass_body_run; assumption.
  - apply length_frame; lia.
Qed.

(** The run of [render_sized] on a valid resolution and a camera whose
    sensor width is not zero. *)
Lemma render_sized_run (wd : world) :
  fis_zero (camera_sensor_width sc) = false ->
  render_sized sc cnt w h wd
  = (Returns tt,
     {| ray_casts :=
          ray_casts wd ++ concat (frame_rays sc w h <$> py_range cnt);
        results :=
          results wd ++
          [{| res_x := 0; res_y := 0; res_w := w; res_h := h;
              res_rect := final_rect sc w h cnt |}] |}).
Proof.
  intros Hsw. unfold render_sized.
  rewrite (bind_lift_returns _ _ (focal_length_of sc)).
  2:{ unfold py_div_ff. rewrite Hsw. reflexivity. }
  rewrite (bind_lift_returns _ _ (aspect_ratio_of w h)).
  2:{ unfold py_div_ii. eqb_false w. reflexivity. }
  rewrite (bind_lift_returns _ _ (int_truediv 1 w)).
  2:{ unfold py_div_ii. eqb_false w. reflexivity. }
  rewrite (bind_lift_returns _ _ (fdiv (aspect_ratio_of w h) (float_of_int h))).
  2:{ unfold py_div_fi. eqb_false h. reflexivity. }
  rewrite (bind_lift_returns _ _ (sample_offset_x w <$> py_range cnt)).
  2:{ apply sample_offsets_return. lia. }
  rewrite (bind_lift_returns _ _ (sample_offset_y w h <$> py_range cnt)).
  2:{ apply sample_offsets_return. lia. }
  rewrite (bind_returns _ _ _ _ _
             (passes_run _ wd (length_replicate _ _))).
  reflexivity.
Qed.
End Runs.

(** *** Row-major placement *)

Lemma lookup_concat_rows {A : Type} (W : nat) (rows : list (list A))
      (i j : nat) :
  Forall (fun r => length r = W) rows -> (j < W)%nat ->
  concat rows !! (i * W + j)%nat = rows !! i ≫= (.!! j).
Proof.
  intros Hrows Hj. revert i.
  induction Hrows as [|r rows Hr _ IH]; intros i.
  - destruct i; reflexivity.
  - destruct i as [|i]; cbn [concat].
    + rewrite lookup_app_l by lia. reflexivity.
    + replace (S i * W + j)%nat with (length r + (i * W + j))%nat by lia.
      rewrite lookup_app_r by lia.
      replace (length r + (i * W + j) - length r)%nat with (i * W + j)%nat
        by lia.
      apply IH.
Qed.

Lemma frame_lookup (sc : scene) (w h s y x : Z) :
  0 <= x < w -> 0 <= y < h ->
  frame sc w h s !! Z.to_nat (y * w + x) = Some (pixel_value sc w h s y x).
Proof.
  intros Hx Hy. unfold frame.
  replace (Z.to_nat (y * w + x))
    with (Z.to_nat y * Z.to_nat w + Z.to_nat x)%nat by nia.
  rewrite (lookup_concat_rows (Z.to_nat w)).
  - rewrite list_lookup_fmap. unfold py_range at 1.
    rewrite lookup_seqZ_lt by lia. cbn [fmap option_fmap option_map mbind option_bind].
    unfold row. rewrite list_lookup_fmap. unfold py_range.
    rewrite lookup_seqZ_lt by lia. simpl.
    rewrite !Z2Nat.id by lia. reflexivity.
  - apply Forall_fmap, Forall_forall. intros y' _. apply length_row.
  - lia.
Qed.

(** *** Every pixel is opaque *)

Lemma shade_cases (hr : hit_result) :
  shade hr = if has_hit hr then opaque_red else opaque_black.
Proof. unfold shade, trace_color. destruct (has_hit hr); reflexivity. Qed.

Lemma alpha_shade (hr : hit_result) : alpha (shade hr) = float_of_int 1.
Proof. rewrite shade_cases. destruct (has_hit hr); reflexivity. Qed.

Lemma alpha_frame (sc : scene) (w h s : Z) :
  Forall (fun p => alpha p = float_of_int 1) (frame sc w h s).
Proof.
  unfold frame. induction (py_range h) as [|y l IH]; [constructor|].
  cbn [fmap list_fmap concat]. apply Forall_app. split; [|exact IH].
  unfold row. apply Forall_fmap, Forall_forall. intros x _.
  apply alpha_shade.
Qed.

Lemma final_rect_invariants (sc : scene) (w h cnt : Z) :
  0 <= w -> 0 <= h ->
  Z.of_nat (length (final_rect sc w h cnt)) = w * h /\
  Forall (fun p => alpha p = float_of_int 1) (final_rect sc w h cnt).
Proof.
  intros Hw Hh. unfold final_rect. destruct (last (py_range cnt)).
  - split; [|apply alpha_frame].
    rewrite length_frame by lia. rewrite Z2Nat.id; nia.
  - split; [|apply Forall_replicate; reflexivity].
    rewrite length_replicate. rewrite Z2Nat.id; nia.
Qed.

(** *** Every ray handed to the ray caster comes out of [normalized] *)

Lemma frame_rays_normalized (sc : scene) (w h s : Z) :
  Forall (fun ray => exists v,
              ray = (camera_location sc, Vector_normalized v))
         (frame_rays sc w h s).
Proof.
  unfold frame_rays. induction (py_range h) as [|y l IH]; [constructor|].
  cbn [fmap list_fmap concat]. apply Forall_app. split; [|exact IH].
  unfold row_rays. apply Forall_fmap, Forall_forall. intros x _.
  unfold pixel_ray. eexists. reflexivity.
Qed.

Lemma render_casts_normalized (sc : scene) (w h cnt : Z) :
  Forall (fun ray => exists v,
              ray = (camera_location sc, Vector_normalized v))
         (concat (frame_rays sc w h <$> py_range cnt)).
Proof.
  induction (py_range cnt) as [|s l IH]; [constructor|].
  cbn [fmap list_fmap concat]. apply Forall_app. split; [|exact IH].
  apply frame_rays_normalized.
Qed.

(** *** [render] is [render_sized] at the scaled resolution, one sample *)

Lemma render_unfold (sc : scene) (w h : Z) (wd : world) :
  let scale :=
    fdiv (float_of_int (resolution_percentage sc)) (float_of_int 100) in
  int_of_float (fmul (float_of_int (resolution_x sc)) scale) = Returns w ->
  int_of_float (fmul (float_of_int (resolution_y sc)) scale) = Returns h ->
  render sc wd = render_sized sc 1 w h wd.
Proof.
  intros scale Hw Hh. unfold render. fold scale.
  rewrite (bind_lift_returns _ _ _ _ Hw), (bind_lift_returns _ _ _ _ Hh).
  reflexivity.
Qed.

(** *** Computations that cast no ray *)

Lemma quiet_lift {A : Type} (o : outcome A) : quiet (lift o).
Proof. intros wd. reflexivity. Qed.

Lemma quiet_ret {A : Type} (a : A) : quiet (mret a : M A).
Proof. intros wd. reflexivity. Qed.

Lemma quiet_bind {A B : Type} (m : M A) (f : A -> M B) :
  quiet m -> (forall a, quiet (f a)) -> quiet (m ≫= f).
Proof.
  intros Hm Hf wd. unfold mbind, M_bind.
  specialize (Hm wd). destruct (m wd) as [[a|e|] wd']; simpl in *.
  - rewrite Hf. assumption.
  - assumption.
  - assumption.
Qed.

Lemma quiet_write_result (x y w h : Z) (rect : list pixel) :
  quiet (write_result x y w h rect).
Proof. intros wd. reflexivity. Qed.

Lemma quiet_for_each {A S : Type} (l : list A) (body : S -> A -> M S) (s : S) :
  (forall s a, a ∈ l -> quiet (body s a)) -> quiet (for_each l body s).
Proof.
  revert s. induction l as [|a l IH]; intros s Hbody.
  - apply quiet_ret.
  - cbn [for_each]. apply quiet_bind.
    + apply Hbody. left.
    + intros s'. apply IH. intros s'' a' Ha'. apply Hbody. right. assumption.
Qed.

Lemma py_range_nonpos (k : Z) : k <= 0 -> py_range k = [].
Proof. apply seqZ_nil. Qed.

Lemma quiet_render_sized (sc : scene) (cnt w h : Z) :
  w <= 0 \/ h <= 0 -> quiet (render_sized sc cnt w h).
Proof.
  intros Hwh. unfold render_sized.
  repeat (apply quiet_bind; [apply quiet_lift|intros ?]).
  apply quiet_bind; [|intros; apply quiet_write_result].
  apply quiet_for_each. intros rect s _. unfold pass_body.
  apply quiet_for_each. intros rect' y Hy. apply py_range_elem in Hy.
  unfold row_body. apply quiet_bind; [apply quiet_lift|intros screen_y].
  destruct Hwh as [Hw|Hh]; [|lia].
  rewrite py_range_nonpos by assumption. apply quiet_ret.
Qed.

(** *** Runs that differ only in what the ray caster reports besides the
    hit flag *)

Lemma bind_ext {A B : Type} (m1 m2 : M A) (f g : A -> M B) (wd : world) :
  m1 wd = m2 wd -> (forall a wd', f a wd' = g a wd') ->
  (m1 ≫= f) wd = (m2 ≫= g) wd.
Proof.
  intros Em Ef. unfold mbind, M_bind. rewrite Em.
  destruct (m2 wd) as [[a|e|] wd']; [apply Ef|reflexivity|reflexivity].
Qed.

Lemma for_each_ext {A S : Type} (l : list A) (b1 b2 : S -> A -> M S) :
  (forall s a wd, b1 s a wd = b2 s a wd) ->
  forall s wd, for_each l b1 s wd = for_each l b2 s wd.
Proof.
  intros E. induction l as [|a l IH]; intros s wd; [reflexivity|].
  cbn [for_each]. apply bind_ext; [apply E|]. intros s' wd'. apply IH.
Qed.

Section SameFlags.
Variable sc : scene.
Variable cast : Vector -> Vector -> hit_result.
Hypothesis same_flag :
  forall o d, has_hit (cast o d) = has_hit (scene_ray_cast sc o d).

Lemma RT_trace_ray_same (o d : Vector) (wd : world) :
  RT_trace_ray (with_ray_cast sc cast) o d wd = RT_trace_ray sc o d wd.
Proof.
  rewrite !RT_trace_ray_run. cbn [scene_ray_cast with_ray_cast].
  unfold trace_color. rewrite same_flag. reflexivity.
Qed.

Lemma render_sized_same (cnt w h : Z) (wd : world) :
  render_sized (with_ray_cast sc cast) cnt w h wd = render_sized sc cnt w h wd.
Proof.
  unfold render_sized.
  cbn [camera_lens camera_sensor_width with_ray_cast].
  repeat (apply bind_ext; [reflexivity|intros ? ?]).
  apply bind_ext; [|reflexivity].
  apply for_each_ext. intros rect s wd1. unfold pass_body.
  apply for_each_ext. intros rect' y wd2. unfold row_body.
  apply bind_ext; [reflexivity|]. intros screen_y wd3.
  apply for_each_ext. intros rect'' x wd4. unfold pixel_body.
  cbn [camera_location camera_rotation_euler with_ray_cast].
  repeat (apply bind_ext; [reflexivity|intros ? ?]).
  apply bind_ext; [apply RT_trace_ray_same|reflexivity].
Qed.

Lemma render_same (wd : world) :
  render (with_ray_cast sc cast) wd = render sc wd.
Proof.
  unfold render.
  cbn [resolution_x resolution_y resolution_percentage with_ray_cast].
  do 2 (apply bind_ext; [reflexivity|intros ? ?]).
  apply render_sized_same.
Qed.
End SameFlags.
End RenderFacts.

(** * The claims about shading and the render loop *)

Section RenderClaims.
Context {F : Type} {float_ops : PyFloat F} {host : Host F}.

(** C4. The shading rule maps every answer of the ray cast to a pixel
    fixed by the hit flag alone: opaque pure red (1,0,0,1) on a hit,
    opaque black (0,0,0,1) on a miss.  This is what [RT_trace_ray] followed
    by lines 96-97 of [render] computes from the answer of the host. *)
Theorem shade_by_hit_flag (hr : hit_result) (sc : scene) (o d : Vector)
        (wd : world) :
  shade hr = (if has_hit hr then opaque_red else opaque_black) /\
  (RT_trace_ray sc o d ≫= fun color => mret (pixel_of_color color)) wd
  = (Returns (if has_hit (scene_ray_cast sc o d)
              then opaque_red else opaque_black),
     cast_all [(o, d)] wd).
Proof.
  split; [apply shade_cases|].
  rewrite (bind_returns _ _ _ _ _ (RT_trace_ray_run _ _ _ _)).
  change (pixel_of_color (trace_color (scene_ray_cast sc o d)))
    with (shade (scene_ray_cast sc o d)).
  rewrite shade_cases. reflexivity.
Qed.


(** C7. Resolution (4,4), one sample, and a ray caster that reports a hit
    for the ray of pixel (x=2, y=2) and a miss for the ray of every other
    pixel: the buffer handed to the host has 16 pixels, the one at index
    10 = 2*4+2 is (1,0,0,1) and the fifteen others are (0,0,0,1); the pixel
    of (x, y) is at index y*4 + x. *)
Theorem render_4x4_single_hit (sc : scene) (wd : world) :
  fis_zero (camera_sensor_width sc) = false ->
  (forall x y, 0 <= x < 4 -> 0 <= y < 4 ->
     has_hit (scene_ray_cast sc (camera_location sc) (pixel_ray sc 4 4 0 y x))
     = (x =? 2) && (y =? 2)) ->
  exists rect,
    render_sized sc 1 4 4 wd
    = (Returns tt,
       {| ray_casts := ray_casts wd ++ frame_rays sc 4 4 0;
          results :=
            results wd ++
            [{| res_x := 0; res_y := 0; res_w := 4; res_h := 4;
                res_rect := rect |}] |}) /\
    rect = replicate 10 opaque_black ++ [opaque_red]
           ++ replicate 5 opaque_black /\
    length rect = 16%nat /\
    forall x y, 0 <= x < 4 -> 0 <= y < 4 ->
      rect !! Z.to_nat (y * 4 + x)
      = Some (shade (scene_ray_cast sc (camera_location sc)
                                    (pixel_ray sc 4 4 0 y x))).
Proof.
  intros Hsw Hstub. exists (frame sc 4 4 0).
  assert (Hpix : forall x y, 0 <= x < 4 -> 0 <= y < 4 ->
            pixel_value sc 4 4 0 y x
            = if (x =? 2) && (y =? 2) then opaque_red else opaque_black).
  { intros x y Hx Hy. unfold pixel_value.
    rewrite shade_cases, Hstub by assumption. reflexivity. }
  split; [|split; [|split]].
  - rewrite (render_sized_run sc 4 4 1) by (lia || assumption).
    unfold final_rect. change (py_range 1) with [0].
    cbn [last fmap list_fmap concat]. rewrite app_nil_r. reflexivity.
  - unfold frame, row. change (py_range 4) with [0; 1; 2; 3].
    cbn [fmap list_fmap concat app].
    rewrite !Hpix by lia. reflexivity.
  - rewrite length_frame by lia. reflexivity.
  - intros x y Hx Hy. apply frame_lookup; assumption.
Qed.

(** C9. Two answers of the ray cast that agree on the hit flag, whatever
    their location, normal, index, object and matrix, are shaded alike;
    and replacing the ray caster of a scene by one that reports the same
    hit flag for every ray changes nothing in a run of [render]: the same
    outcome, the same rays cast, the same result written. *)
Theorem shading_reads_only_the_hit_flag (h1 h2 : hit_result) (sc : scene)
        (cast : Vector -> Vector -> hit_result) :
  has_hit h1 = has_hit h2 ->
  (forall o d, has_hit (cast o d) = has_hit (scene_ray_cast sc o d)) ->
  trace_color h1 = trace_color h2 /\
  shade h1 = shade h2 /\
  forall wd, render (with_ray_cast sc cast) wd = render sc wd.
Proof.
  intros Hflag Hcast. split; [|split].
  - unfold trace_color. rewrite Hflag. reflexivity.
  - rewrite !shade_cases, Hflag. reflexivity.
  - intros wd. apply render_same. assumption.
Qed.
End RenderClaims.

(** * The claims about the values of [corput] *)

(** C1 (as amended). For n >= 0 and base b >= 2, [corput] returns
    V - 0.5 where V accumulates, for k = 0, 1, ... up to the most
    significant digit, the quotients d_k / b^(k+1) of the base-b digits
    of n, each operation being one float operation.  In exact arithmetic
    corput(n, b) + 1/2 is the sum of d_k / b^(k+1) over the digits of n
    (over any number of digit positions that covers n). *)
Theorem corput_is_reversed_digits {F : Type} {float_ops : PyFloat F}
        (n b : Z) :
  0 <= n -> 2 <= b ->
  corput n b = Returns (fsub (reversed_digits n b) float_half) /\
  exists v : Q,
    corput (F:=exact) n b = Returns v /\
    forall len : nat, n < b ^ Z.of_nat len ->
      (v + (1 # 2) == reversed_sum (F:=exact) n b len)%Q.
Proof.
  intros Hn Hb. split; [apply corput_spec; assumption|].
  exists (fsub (reversed_digits (F:=exact) n b) float_half). split.
  - apply (corput_spec (F:=exact)); assumption.
  - intros len Hlen. cbn [fsub float_half exact_float].
    rewrite exact_reversed_sum_above; try assumption.
    + ring.
    + apply num_digits_spec; assumption.
Qed.

Lemma corput_is_reversed_digits_witness :
  0 <= 5 /\ 2 <= 3 /\
  corput (F:=b64) 5 3
  = Returns (fsub (reversed_digits (F:=b64) 5 3) float_half) /\
  exists v : Q,
    corput (F:=exact) 5 3 = Returns v /\
    forall len : nat, 5 < 3 ^ Z.of_nat len ->
      (v + (1 # 2) == reversed_sum (F:=exact) 5 3 len)%Q.
Proof.
  split; [lia|]. split; [lia|].
  apply (corput_is_reversed_digits (F:=b64) 5 3); lia.
Defined.

(** C1 as stated fails in binary64.  At n = 2^54, b = 2 the only non-zero
    digit is d_54 = 1, so the digit-reversal value is 2^-55; the float
    2^-55 - 0.5 rounds to -0.5, which is also corput(0, 2), and adding 0.5
    back gives 0, not 2^-55. *)
Lemma corput_plus_half_at_2p54 :
  corput (F:=b64) (2 ^ 54) 2 = Returns Binary64.minus_half /\
  fadd Binary64.minus_half float_half = S754_zero false /\
  reversed_digits (F:=b64) (2 ^ 54) 2
  = S754_finite false 4503599627370496 (-107) /\
  (reversed_digits (F:=exact) (2 ^ 54) 2 == 1 # 36028797018963968)%Q /\
  ~ (- (1 # 2) + (1 # 2) == reversed_digits (F:=exact) (2 ^ 54) 2)%Q.
Proof.
  split; [vm_compute; reflexivity|].
  split; [vm_compute; reflexivity|].
  split; [vm_compute; reflexivity|].
  split; [vm_compute; reflexivity|].
  intros E. vm_compute in E. discriminate E.
Qed.

(** In binary64 the result reaches 0.5.  At n = 2^54 - 1, b = 2 all 54
    digits are 1: after 53 additions q = 1 - 2^-53, the 54th addition of
    2^-54 is a tie that rounds to the even neighbour 1.0, and
    1.0 - 0.5 = 0.5, which is not strictly below 0.5. *)
Lemma corput_reaches_half :
  corput (F:=b64) (2 ^ 54 - 1) 2 = Returns Binary64.half /\
  SFltb Binary64.half Binary64.half = false.
Proof. split; vm_compute; reflexivity. Qed.

(** C2.  The code leaves the interval: all 34 digits of 5^34 - 1 in base
    5 are 4, and in binary64 corput(5^34 - 1, 5) is
    4503599627370500 * 2^-53 = 0.5 + 2^-51, above the 0.5 that the claim
    excludes and that the comment of line 9 gives as the upper end.
    Computed without rounding the value at the same input is
    1/2 - 5^-34, inside the interval. *)
Theorem corput_exceeds_half :
  corput (F:=b64) (5 ^ 34 - 1) 5
  = Returns (S754_finite false 4503599627370500 (-53)) /\
  SFltb Binary64.half (S754_finite false 4503599627370500 (-53)) = true /\
  (exists q : Q,
      to_Q (S754_finite false 4503599627370500 (-53)) = Some q /\
      (q == (1 # 2) + (1 # 2 ^ 51))%Q) /\
  exists v : Q,
    corput (F:=exact) (5 ^ 34 - 1) 5 = Returns v /\
    (v == (1 # 2) - (1 # 5 ^ 34))%Q /\ (- (1 # 2) <= v < 1 # 2)%Q.
Proof.
  split; [vm_compute; reflexivity|].
  split; [vm_compute; reflexivity|].
  split; [eexists; split; vm_compute; reflexivity|].
  eexists. split; [vm_compute; reflexivity|].
  split; [vm_compute; reflexivity|].
  split; [intros E; vm_compute in E; discriminate E|vm_compute; reflexivity].
Qed.

(** What does hold of the range, for n >= 0 and base b >= 2: computed
    without rounding, corput(n, b) lies in [-1/2, 1/2); the binary64 value
    that the code returns is never below -0.5. *)
Lemma corput_range (n b : Z) :
  0 <= n -> 2 <= b ->
  (exists v : Q,
      corput (F:=exact) n b = Returns v /\ (- (1 # 2) <= v < 1 # 2)%Q) /\
  (exists x : b64,
      corput (F:=b64) n b = Returns x /\ SFleb Binary64.minus_half x = true).
Proof.
  intros Hn Hb. split.
  - exists (fsub (reversed_digits (F:=exact) n b) float_half). split.
    + apply (corput_spec (F:=exact)); assumption.
    + cbn [fsub float_half exact_float].
      pose proof (exact_reversed_digits_range n b Hb). lra.
  - exists (fsub (reversed_digits (F:=b64) n b) float_half). split.
    + apply (corput_spec (F:=b64)); assumption.
    + apply SFsub_half_lower. apply b64_reversed_sum_nonneg; assumption.
Qed.

(** * The render theorems on the stand-in host *)

Section OnTheStub.
#[local] Existing Instance Stub.host.


Lemma render_4x4_single_hit_witness :
  fis_zero (camera_sensor_width (Stub.scene_of 4 4 100 Stub.hits_pixel_2_2))
  = false /\
  exists rect,
    render_sized (Stub.scene_of 4 4 100 Stub.hits_pixel_2_2) 1 4 4 empty_world
    = (Returns tt,
       {| ray_casts :=
            ray_casts empty_world
            ++ frame_rays (Stub.scene_of 4 4 100 Stub.hits_pixel_2_2) 4 4 0;
          results :=
            results empty_world ++
            [{| res_x := 0; res_y := 0; res_w := 4; res_h := 4;
                res_rect := rect |}] |}) /\
    rect = replicate 10 opaque_black ++ [opaque_red]
           ++ replicate 5 opaque_black /\
    length rect = 16%nat /\
    forall x y, 0 <= x < 4 -> 0 <= y < 4 ->
      rect !! Z.to_nat (y * 4 + x)
      = Some (shade (scene_ray_cast (Stub.scene_of 4 4 100 Stub.hits_pixel_2_2)
                       (camera_location
                          (Stub.scene_of 4 4 100 Stub.hits_pixel_2_2))
                       (pixel_ray (Stub.scene_of 4 4 100 Stub.hits_pixel_2_2)
                                  4 4 0 y x))).
Proof.
  split; [reflexivity|].
  apply (render_4x4_single_hit (Stub.scene_of 4 4 100 Stub.hits_pixel_2_2)
                               empty_world).
  - reflexivity.
  - intros x y Hx Hy.
    assert (Ex : x = 0 \/ x = 1 \/ x = 2 \/ x = 3) by lia.
    assert (Ey : y = 0 \/ y = 1 \/ y = 2 \/ y = 3) by lia.
    destruct Ex as [->|[->|[->| ->]]], Ey as [->|[->|[->| ->]]];
      vm_compute; reflexivity.
Defined.

(** C8 as stated fails.  A 4 x 400 image rendered at 1 percent has
    width int(4 * 0.01) = 0 and height int(400 * 0.01) = 4: [render] raises
    ZeroDivisionError at [aspect_ratio = height / width], not an
    InvalidResolution error; it casts no ray. *)
Lemma render_zero_width_raises_ZeroDivisionError :
  render (F:=b64) (Stub.scene_of 4 400 1 Stub.never_hits) empty_world
  = (Raises ZeroDivisionError, empty_world) /\
  render_sized (F:=b64) (Stub.scene_of 4 400 1 Stub.never_hits) 1 0 4
               empty_world
  = (Raises ZeroDivisionError, empty_world) /\
  (render (F:=b64) (Stub.scene_of 4 400 1 Stub.never_hits) empty_world).1
  <> Raises InvalidResolution.
Proof.
  split; [vm_compute; reflexivity|].
  split; [vm_compute; reflexivity|].
  vm_compute. discriminate.
Qed.

Lemma shading_reads_only_the_hit_flag_witness :
  has_hit (Stub.answer (F:=exact) true Stub.origin)
  = has_hit (Stub.answer (F:=exact) true (1, 2, 3)%Q) /\
  (forall o d, has_hit (Stub.misses_elsewhere o d)
               = has_hit (scene_ray_cast
                            (Stub.scene_of 2 2 100 Stub.never_hits) o d)) /\
  trace_color (Stub.answer (F:=exact) true Stub.origin)
  = trace_color (Stub.answer (F:=exact) true (1, 2, 3)%Q) /\
  shade (Stub.answer (F:=exact) true Stub.origin)
  = shade (Stub.answer (F:=exact) true (1, 2, 3)%Q) /\
  forall wd,
    render (with_ray_cast (Stub.scene_of 2 2 100 Stub.never_hits)
                          Stub.misses_elsewhere) wd
    = render (Stub.scene_of 2 2 100 Stub.never_hits) wd.
Proof.
  split; [reflexivity|]. split; [reflexivity|].
  apply (shading_reads_only_the_hit_flag
           (Stub.answer (F:=exact) true Stub.origin)
           (Stub.answer (F:=exact) true (1, 2, 3)%Q)
           (Stub.scene_of 2 2 100 Stub.never_hits) Stub.misses_elsewhere);
    reflexivity.
Defined.

(** The two pixel values differ, in binary64 and in exact arithmetic. *)
Lemma red_is_not_black :
  opaque_red (F:=b64) <> opaque_black /\ opaque_red (F:=exact) <> opaque_black.
Proof. split; intros E; discriminate E. Qed.

(** [render] itself, in binary64, on a 4 x 4 scene at 100 percent with the
    single hit at pixel (2, 2): sixteen rays are cast and the result has
    the red pixel at index 10. *)
Lemma render_4x4_binary64 :
  let run := render (F:=b64) (Stub.scene_of 4 4 100 Stub.hits_pixel_2_2_b64)
                    empty_world in
  run.1 = Returns tt /\
  length (ray_casts run.2) = 16%nat /\
  results run.2
  = [{| res_x := 0; res_y := 0; res_w := 4; res_h := 4;
        res_rect := replicate 10 opaque_black ++ [opaque_red]
                    ++ replicate 5 opaque_black |}].
Proof. vm_compute. repeat split. Qed.

(** With a ray caster that never hits, all sixteen pixels are black. *)
Lemma render_4x4_all_miss :
  let run := render (F:=b64) (Stub.scene_of 4 4 100 Stub.never_hits)
                    empty_world in
  run.1 = Returns tt /\
  length (ray_casts run.2) = 16%nat /\
  results run.2
  = [{| res_x := 0; res_y := 0; res_w := 4; res_h := 4;
        res_rect := replicate 16 opaque_black |}].
Proof. vm_compute. repeat split. Qed.
End OnTheStub.

(** * Beyond the claims: every call of [corput] *)

Section CorputOutcome.
Context {F : Type} {float_ops : PyFloat F}.

(** X1. Every call of [corput] on integers falls in exactly one of three
    classes.  It returns when n = 0, or n > 0 and base >= 2, or
    base <= -2; it raises ZeroDivisionError when n is not 0 and base = 0;
    in every other case, a base of 1 or -1 with n not 0 or a negative n
    with base >= 2, the loop does not end, however many iterations are
    allowed. *)
Theorem corput_outcome (n b : Z) :
  match corput n b with
  | Returns _ => n = 0 \/ (0 < n /\ 2 <= b) \/ b <= -2
  | Raises e => e = ZeroDivisionError /\ n <> 0 /\ b = 0
  | Diverges =>
      n <> 0 /\ (b = 1 \/ b = -1 \/ (n < 0 /\ 2 <= b)) /\
      forall fuel, corput_fuel fuel n b = Diverges
  end.
Proof.
  destruct (Z.eq_dec n 0) as [->|Hn]; [left; reflexivity|].
  destruct (Z.eq_dec b 0) as [->|Hb0].
  { unfold corput, corput_fuel, corput_bound. cbn [corput_loop].
    eqb_false n. cbn. auto. }
  destruct (Z_le_gt_dec 2 b) as [Hb2|Hb2].
  { destruct (Z_lt_le_dec n 0) as [Hneg|Hpos].
    - unfold corput, corput_fuel.
      rewrite corput_loop_negative by lia. cbn.
      repeat split; auto. intros fuel.
      rewrite corput_loop_negative by lia. reflexivity.
    - rewrite corput_spec by lia. right; left; lia. }
  destruct (Z.eq_dec b 1) as [->|Hb1].
  { unfold corput, corput_fuel.
    rewrite corput_loop_base_1 by lia. cbn.
    repeat split; auto. intros fuel.
    rewrite corput_loop_base_1 by lia. reflexivity. }
  destruct (Z.eq_dec b (-1)) as [->|Hbm1].
  { unfold corput, corput_fuel.
    rewrite corput_loop_base_m1 by lia. cbn.
    repeat split; auto. intros fuel.
    rewrite corput_loop_base_m1 by lia. reflexivity. }
  unfold corput, corput_fuel, corput_bound.
  destruct (corput_loop_negative_base
              (S (Z.to_nat (Z.log2 (Z.abs n)))) b n 1 (float_of_int 0)
              ltac:(lia) ltac:(lia) (abs_lt_pow2_bound n)) as [v ->].
  cbn. right; right; lia.
Qed.
End CorputOutcome.

Section ExactRecurrence.
Local Open Scope Q_scope.

Lemma exact_fold_scale (t u : nat -> Q) (c : Q) (l : list nat)
      (q q' q0 : Q) :
  (forall k, t k == u k / c) -> q == q0 + q' / c ->
  fold_left (fun acc k => acc + t k) l q
  == q0 + fold_left (fun acc k => acc + u k) l q' / c.
Proof.
  intros Ht. revert q q'. induction l as [|k l IH]; intros q q' Hq.
  - exact Hq.
  - cbn [fold_left]. apply IH. rewrite Hq, Ht. unfold Qdiv. ring.
Qed.

Lemma inject_Z_nonzero (z : Z) : z <> 0%Z -> ~ inject_Z z == 0.
Proof. intros Hz E. apply Hz. unfold Qeq in E. simpl in E. lia. Qed.

Lemma exact_reversed_digits_0 (b : Z) : reversed_digits (F:=exact) 0 b == 0.
Proof. reflexivity. Qed.

(** The digit-reversal value of [n] from the one of [n / b]. *)
Lemma exact_reversed_digits_step (n b : Z) :
  (2 <= b)%Z -> (0 < n)%Z ->
  reversed_digits (F:=exact) n b
  == (inject_Z (n mod b) + reversed_digits (F:=exact) (n / b) b) / inject_Z b.
Proof.
  intros Hb Hn. unfold reversed_digits.
  rewrite num_digits_step by assumption.
  unfold reversed_sum. cbn [seq fold_left].
  rewrite (fold_left_seq_shift _
             (fun acc k => fadd acc (reversed_term (F:=exact) n b (S k))))
    by reflexivity.
  cbn [fadd float_of_int exact_float].
  rewrite (exact_fold_scale _ (reversed_term (F:=exact) (n / b) b)
             (inject_Z b) _ _ (inject_Z 0)
             (inject_Z (n mod b) / inject_Z b)).
  - assert (Hnz := inject_Z_nonzero b ltac:(lia)).
    unfold exact. unfold Qdiv. ring.
  - intros k. unfold reversed_term. cbn [int_truediv exact_float].
    rewrite digit_S by lia.
    rewrite (Nat2Z.inj_succ (S k)), Z.pow_succ_r by lia.
    rewrite inject_Z_mult.
    assert (Hp : (0 < b ^ Z.of_nat (S k))%Z) by (apply Z.pow_pos_nonneg; lia).
    field. split; apply inject_Z_nonzero; lia.
  - unfold reversed_term. cbn [int_truediv exact_float].
    rewrite digit_0. change (Z.of_nat 1) with 1%Z. rewrite Z.pow_1_r.
    change (inject_Z 0) with 0.
    assert (Hnz := inject_Z_nonzero b ltac:(lia)). field. exact Hnz.
Qed.

Lemma exact_reversed_digits_pos (n b : Z) :
  (2 <= b)%Z -> (0 < n)%Z -> 0 < reversed_digits (F:=exact) n b.
Proof.
  intros Hb Hn. assert (Hn0 : (0 <= n)%Z) by lia.
  revert Hn. pattern n. apply Z_lt_induction; [|assumption].
  clear n Hn0. intros n IH Hn.
  rewrite exact_reversed_digits_step by assumption.
  assert (Hbq : 0 < inject_Z b) by (apply inject_Z_pos; lia).
  apply Qlt_shift_div_l; [assumption|]. rewrite Qmult_0_l.
  pose proof (Z.mod_pos_bound n b ltac:(lia)) as Hmod.
  pose proof (exact_reversed_digits_range (n / b) b Hb) as [Hlo _].
  destruct (Z.eq_dec (n mod b) 0%Z) as [E|E].
  - rewrite E. change (inject_Z 0) with 0. rewrite Qplus_0_l.
    apply IH.
    + pose proof (div_base_decreases n b Hb Hn). lia.
    + pose proof (Z.div_mod n b ltac:(lia)). nia.
  - assert (0 < inject_Z (n mod b)) by (apply inject_Z_pos; lia). lra.
Qed.

(** Two integers whose difference is a rational strictly between -1 and 1
    are equal. *)
Lemma inject_Z_close (a c : Z) (x y : Q) :
  0 <= x < 1 -> 0 <= y < 1 -> inject_Z a + x == inject_Z c + y -> a = c.
Proof.
  intros Hx Hy E.
  assert (H1 : inject_Z (a - c) < inject_Z 1).
  { unfold Z.sub. rewrite inject_Z_plus, inject_Z_opp.
    change (inject_Z 1) with 1. lra. }
  assert (H2 : inject_Z (-1) < inject_Z (a - c)).
  { unfold Z.sub. rewrite inject_Z_plus, inject_Z_opp.
    change (inject_Z (-1)) with (-1). lra. }
  rewrite <- Zlt_Qlt in H1, H2. lia.
Qed.

Lemma exact_reversed_digits_inj (n m b : Z) :
  (2 <= b)%Z -> (0 <= n)%Z -> (0 <= m)%Z ->
  reversed_digits (F:=exact) n b == reversed_digits (F:=exact) m b -> n = m.
Proof.
  intros Hb Hn. revert m. generalize Hn. pattern n.
  apply Z_lt_induction; [|assumption].
  clear n Hn. intros n IH Hn m Hm E.
  destruct (Z.eq_dec n 0%Z) as [->|Hn0].
  { destruct (Z.eq_dec m 0%Z) as [->|Hm0]; [reflexivity|].
    pose proof (exact_reversed_digits_pos m b Hb ltac:(lia)) as Hpos.
    rewrite <- E, exact_reversed_digits_0 in Hpos.
    exfalso. apply (Qlt_irrefl 0). exact Hpos. }
  destruct (Z.eq_dec m 0%Z) as [->|Hm0].
  { pose proof (exact_reversed_digits_pos n b Hb ltac:(lia)) as Hpos.
    rewrite E, exact_reversed_digits_0 in Hpos.
    exfalso. apply (Qlt_irrefl 0). exact Hpos. }
  rewrite (exact_reversed_digits_step n b), (exact_reversed_digits_step m b)
    in E by lia.
  assert (Hbq : 0 < inject_Z b) by (apply inject_Z_pos; lia).
  assert (E' : inject_Z (n mod b) + reversed_digits (F:=exact) (n / b) b
               == inject_Z (m mod b) + reversed_digits (F:=exact) (m / b) b).
  { apply (Qmult_inj_r _ _ (/ inject_Z b)).
    - intros Z0. apply (Qlt_irrefl 0). rewrite <- Z0 at 2.
      apply Qinv_lt_0_compat. exact Hbq.
    - exact E. }
  pose proof (exact_reversed_digits_range (n / b) b Hb) as Rn.
  pose proof (exact_reversed_digits_range (m / b) b Hb) as Rm.
  assert (Emod : (n mod b = m mod b)%Z)
    by (apply (inject_Z_close _ _ _ _ Rn Rm E')).
  assert (Ediv : (n / b = m / b)%Z).
  { pose proof (div_base_decreases n b Hb ltac:(lia)).
    pose proof (div_base_decreases m b Hb ltac:(lia)).
    apply IH; try lia. rewrite Emod in E'. lra. }
  rewrite (Z.div_mod n b), (Z.div_mod m b) by lia. congruence.
Qed.

(** The partial sums are multiples of [1 / b^len]. *)
Lemma exact_reversed_sum_grid (n b : Z) (len : nat) :
  (2 <= b)%Z ->
  exists j : Z, (0 <= j < b ^ Z.of_nat len)%Z /\
    reversed_sum (F:=exact) n b len
    == inject_Z j / inject_Z (b ^ Z.of_nat len).
Proof.
  intros Hb. induction len as [|len (j & Hj & E)].
  - exists 0%Z. split; [simpl; lia|reflexivity].
  - exists (j * b + digit n b len)%Z.
    pose proof (digit_range n b len Hb) as Hd.
    assert (Hp : (0 < b ^ Z.of_nat len)%Z) by (apply Z.pow_pos_nonneg; lia).
    rewrite Nat2Z.inj_succ, Z.pow_succ_r by lia.
    split; [nia|].
    rewrite reversed_sum_S, E. unfold reversed_term.
    cbn [fadd int_truediv exact_float].
    rewrite Nat2Z.inj_succ, Z.pow_succ_r by lia.
    rewrite inject_Z_plus, !inject_Z_mult.
    field. split; apply inject_Z_nonzero; lia.
Qed.

(** Every multiple of [1 / b^len] below 1 is the value at some
    [n < b^len]. *)
Lemma exact_reversed_digits_onto (b : Z) (len : nat) (j : Z) :
  (2 <= b)%Z -> (0 <= j < b ^ Z.of_nat len)%Z ->
  exists n : Z, (0 <= n < b ^ Z.of_nat len)%Z /\
    reversed_digits (F:=exact) n b
    == inject_Z j / inject_Z (b ^ Z.of_nat len).
Proof.
  intros Hb. revert j. induction len as [|len IH]; intros j Hj.
  - exists 0%Z. simpl in Hj. assert (j = 0%Z) as -> by lia.
    split; [simpl; lia|reflexivity].
  - assert (Hp : (0 < b ^ Z.of_nat len)%Z) by (apply Z.pow_pos_nonneg; lia).
    rewrite Nat2Z.inj_succ, Z.pow_succ_r in Hj |- * by lia.
    set (p := (b ^ Z.of_nat len)%Z) in *.
    destruct (IH (j mod p)%Z) as (n' & Hn' & E').
    { apply Z.mod_pos_bound. lia. }
    set (d := (j / p)%Z).
    assert (Hd : (0 <= d < b)%Z).
    { unfold d. split; [apply Z.div_pos; lia|].
      apply Z.div_lt_upper_bound; lia. }
    exists (n' * b + d)%Z. split; [nia|].
    destruct (Z.eq_dec (n' * b + d)%Z 0%Z) as [E0|Hne].
    + assert (n' = 0%Z) by nia. assert (Hd0 : d = 0%Z) by nia. subst n'.
      rewrite E0. rewrite exact_reversed_digits_0 in *.
      assert (Hj0 : (j mod p = 0)%Z).
      { assert (Hq : inject_Z (j mod p) == 0).
        { assert (Hpq := inject_Z_nonzero p ltac:(lia)).
          rewrite <- (Qmult_div_r (inject_Z (j mod p)) (inject_Z p))
            by exact Hpq.
          rewrite <- E'. ring. }
        unfold Qeq in Hq. simpl in Hq. lia. }
      assert (j = 0%Z).
      { rewrite (Z.div_mod j p) by lia. fold d. nia. }
      subst j. unfold Qdiv. rewrite Qmult_0_l. reflexivity.
    + rewrite exact_reversed_digits_step by lia.
      replace ((n' * b + d) mod b)%Z with d.
      2:{ rewrite Z.add_comm, Z.mod_add by lia.
          symmetry. apply Z.mod_small. lia. }
      replace ((n' * b + d) / b)%Z with n'.
      2:{ rewrite Z.add_comm, Z.div_add by lia.
          rewrite Z.div_small by lia. reflexivity. }
      rewrite E'.
      rewrite (Z.div_mod j p) at 2 by lia. fold d.
      rewrite inject_Z_plus, !inject_Z_mult.
      field. split; apply inject_Z_nonzero; lia.
Qed.
End ExactRecurrence.

(** * [corput] in exact arithmetic: the van der Corput sequence *)

(** X2. For n > 0 and base b >= 2, without rounding,
    corput(n, b) + 1/2 = ((n mod b) + (corput(n // b, b) + 1/2)) / b:
    the last digit of n becomes the first digit after the point. *)
Theorem corput_exact_recurrence (n b : Z) :
  0 < n -> 2 <= b ->
  exists v u : Q,
    corput (F:=exact) n b = Returns v /\
    corput (F:=exact) (n / b) b = Returns u /\
    (v + (1 # 2) == (inject_Z (n mod b) + (u + (1 # 2))) / inject_Z b)%Q.
Proof.
  intros Hn Hb.
  pose proof (div_base_decreases n b Hb Hn) as Hd.
  exists (fsub (reversed_digits (F:=exact) n b) float_half),
         (fsub (reversed_digits (F:=exact) (n / b) b) float_half).
  split; [apply (corput_spec (F:=exact)); lia|].
  split; [apply (corput_spec (F:=exact)); lia|].
  cbn [fsub float_half exact_float].
  rewrite (exact_reversed_digits_step n b) by assumption.
  assert (Hnz := inject_Z_nonzero b ltac:(lia)).
  field. exact Hnz.
Qed.

Lemma corput_exact_recurrence_witness :
  0 < 6 /\ 2 <= 3 /\
  exists v u : Q,
    corput (F:=exact) 6 3 = Returns v /\
    corput (F:=exact) (6 / 3) 3 = Returns u /\
    (v + (1 # 2) == (inject_Z (6 mod 3) + (u + (1 # 2))) / inject_Z 3)%Q.
Proof.
  split; [lia|]. split; [lia|].
  apply (corput_exact_recurrence 6 3); lia.
Defined.

(** X3. For base b >= 2 and any length L, without rounding: the values
    corput(n, b) + 1/2 for 0 <= n < b^L are multiples j / b^L with
    0 <= j < b^L, and every such multiple is the value at some n < b^L.
    The first b^L points of the sequence fill the grid of step 1 / b^L. *)
Theorem corput_exact_grid (b : Z) (L : nat) :
  2 <= b ->
  (forall n, 0 <= n < b ^ Z.of_nat L ->
     exists (v : Q) (j : Z),
       corput (F:=exact) n b = Returns v /\ 0 <= j < b ^ Z.of_nat L /\
       (v + (1 # 2) == inject_Z j / inject_Z (b ^ Z.of_nat L))%Q) /\
  (forall j, 0 <= j < b ^ Z.of_nat L ->
     exists (n : Z) (v : Q),
       0 <= n < b ^ Z.of_nat L /\ corput (F:=exact) n b = Returns v /\
       (v + (1 # 2) == inject_Z j / inject_Z (b ^ Z.of_nat L))%Q).
Proof.
  intros Hb. split.
  - intros n Hn.
    destruct (exact_reversed_sum_grid n b L Hb) as (j & Hj & E).
    exists (fsub (reversed_digits (F:=exact) n b) float_half), j.
    split; [apply (corput_spec (F:=exact)); lia|]. split; [exact Hj|].
    cbn [fsub float_half exact_float].
    rewrite <- E, exact_reversed_sum_above; try lia.
    + ring.
    + apply num_digits_spec; lia.
  - intros j Hj.
    destruct (exact_reversed_digits_onto b L j Hb Hj) as (n & Hn & E).
    exists n, (fsub (reversed_digits (F:=exact) n b) float_half).
    split; [exact Hn|]. split; [apply (corput_spec (F:=exact)); lia|].
    cbn [fsub float_half exact_float]. rewrite <- E. ring.
Qed.

Lemma corput_exact_grid_witness :
  2 <= 2 /\
  (forall n, 0 <= n < 2 ^ Z.of_nat 3 ->
     exists (v : Q) (j : Z),
       corput (F:=exact) n 2 = Returns v /\ 0 <= j < 2 ^ Z.of_nat 3 /\
       (v + (1 # 2) == inject_Z j / inject_Z (2 ^ Z.of_nat 3))%Q) /\
  (forall j, 0 <= j < 2 ^ Z.of_nat 3 ->
     exists (n : Z) (v : Q),
       0 <= n < 2 ^ Z.of_nat 3 /\ corput (F:=exact) n 2 = Returns v /\
       (v + (1 # 2) == inject_Z j / inject_Z (2 ^ Z.of_nat 3))%Q).
Proof.
  split; [lia|]. apply (corput_exact_grid 2 3). lia.
Defined.

(** X4. For base b >= 2, without rounding, [corput] takes different values at
    different n >= 0: no sample point is repeated.  (In binary64 the
    values at 0 and at 2^54 in base 2 are both -0.5.) *)
Theorem corput_exact_injective (n m b : Z) :
  0 <= n -> 0 <= m -> 2 <= b ->
  exists v u : Q,
    corput (F:=exact) n b = Returns v /\
    corput (F:=exact) m b = Returns u /\
    ((v == u)%Q <-> n = m).
Proof.
  intros Hn Hm Hb.
  exists (fsub (reversed_digits (F:=exact) n b) float_half),
         (fsub (reversed_digits (F:=exact) m b) float_half).
  split; [apply (corput_spec (F:=exact)); lia|].
  split; [apply (corput_spec (F:=exact)); lia|].
  cbn [fsub float_half exact_float]. split.
  - intros E. apply (exact_reversed_digits_inj n m b); try assumption. lra.
  - intros ->. reflexivity.
Qed.

Lemma corput_exact_injective_witness :
  0 <= 5 /\ 0 <= 9 /\ 2 <= 2 /\
  exists v u : Q,
    corput (F:=exact) 5 2 = Returns v /\
    corput (F:=exact) 9 2 = Returns u /\
    ((v == u)%Q <-> 5 = 9).
Proof.
  split; [lia|]. split; [lia|]. split; [lia|].
  apply (corput_exact_injective 5 9 2); lia.
Defined.

(** * Beyond the claims: every run of [render] *)

Section RenderMore.
Context {F : Type} {float_ops : PyFloat F} {host : Host F}.

Lemma foldl_keep {A S : Type} (l : list A) (s : S) :
  foldl (fun s _ => s) s l = s.
Proof. induction l as [|a l IH]; [reflexivity|exact IH]. Qed.

Lemma concat_nils {A B : Type} (l : list A) :
  concat ((fun _ => @nil B) <$> l) = [].
Proof. induction l as [|a l IH]; [reflexivity|exact IH]. Qed.

(** A loop whose body does nothing. *)
Lemma for_each_idle {A S : Type} (l : list A) (body : S -> A -> M S) :
  (forall s a wd, a ∈ l -> body s a wd = (Returns s, wd)) ->
  forall s wd, for_each l body s wd = (Returns s, wd).
Proof.
  intros Hbody s wd.
  destruct (for_each_run (fun _ => True) l body (fun s _ => s)
              (fun _ => []) ) with (s := s) (wd := wd) as [E _].
  - intros s' a wd' Ha _. rewrite cast_all_nil. split; [|exact I].
    apply Hbody, Ha.
  - exact I.
  - rewrite E, foldl_keep, concat_nils, cast_all_nil. reflexivity.
Qed.

(** With a negative width or height (and neither zero) no pixel is
    visited. *)
Lemma passes_idle (sc : scene) (cnt w h : Z) (fl ar : F) (cx cy : list F)
      (rect : list pixel) (wd : world) :
  w <> 0 -> h <> 0 -> w < 0 \/ h < 0 ->
  for_each (py_range cnt) (pass_body sc w h w h fl ar cx cy) rect wd
  = (Returns rect, wd).
Proof.
  intros Hw Hh Hneg. apply for_each_idle. intros rect1 s wd1 _.
  unfold pass_body. apply for_each_idle. intros rect2 y wd2 Hy.
  apply py_range_elem in Hy. unfold row_body.
  rewrite (bind_lift_returns _ _ (fmul (screen_value y h) ar)).
  2:{ rewrite screen_coord_returns by lia. reflexivity. }
  rewrite py_range_nonpos by lia. reflexivity.
Qed.

Lemma render_sized_negative_run (sc : scene) (cnt w h : Z) (wd : world) :
  fis_zero (camera_sensor_width sc) = false ->
  w <> 0 -> h <> 0 -> w < 0 \/ h < 0 ->
  render_sized sc cnt w h wd
  = (Returns tt,
     {| ray_casts := ray_casts wd;
        results :=
          results wd ++
          [{| res_x := 0; res_y := 0; res_w := w; res_h := h;
              res_rect := replicate (Z.to_nat (w * h)) initial_color |}] |}).
Proof.
  intros Hsw Hw Hh Hneg. unfold render_sized.
  rewrite (bind_lift_returns _ _ (focal_length_of sc)).
  2:{ unfold py_div_ff. rewrite Hsw. reflexivity. }
  rewrite (bind_lift_returns _ _ (aspect_ratio_of w h)).
  2:{ unfold py_div_ii. eqb_false w. reflexivity. }
  rewrite (bind_lift_returns _ _ (int_truediv 1 w)).
  2:{ unfold py_div_ii. eqb_false w. reflexivity. }
  rewrite (bind_lift_returns _ _
             (fdiv (aspect_ratio_of w h) (float_of_int h))).
  2:{ unfold py_div_fi. eqb_false h. reflexivity. }
  rewrite (bind_lift_returns _ _ (sample_offset_x w <$> py_range cnt)).
  2:{ apply sample_offsets_return. lia. }
  rewrite (bind_lift_returns _ _ (sample_offset_y w h <$> py_range cnt)).
  2:{ apply sample_offsets_return. lia. }
  rewrite (bind_returns _ _ _ _ _
             (passes_idle _ _ _ _ _ _ _ _ _ wd Hw Hh Hneg)).
  reflexivity.
Qed.

(** *** The order of the rays *)

Lemma length_row_rays (sc : scene) (w h s y : Z) :
  length (row_rays sc w h s y) = Z.to_nat w.
Proof.
  unfold row_rays, py_range. rewrite length_fmap, length_seqZ. reflexivity.
Qed.

Lemma length_concat_uniform {A : Type} (W : nat) (rows : list (list A)) :
  Forall (fun r => length r = W) rows ->
  length (concat rows) = (length rows * W)%nat.
Proof.
  induction 1 as [|r rows Hr _ IH]; [reflexivity|].
  cbn [concat]. rewrite length_app, IH, Hr. simpl. lia.
Qed.

Lemma row_rays_uniform (sc : scene) (w h s : Z) (l : list Z) :
  Forall (fun r => length r = Z.to_nat w) (row_rays sc w h s <$> l).
Proof.
  apply Forall_fmap, Forall_forall. intros y _. apply length_row_rays.
Qed.

Lemma length_frame_rays (sc : scene) (w h s : Z) :
  length (frame_rays sc w h s) = (Z.to_nat h * Z.to_nat w)%nat.
Proof.
  unfold frame_rays.
  rewrite (length_concat_uniform (Z.to_nat w)) by apply row_rays_uniform.
  unfold py_range. rewrite length_fmap, length_seqZ. reflexivity.
Qed.

Lemma frame_rays_lookup (sc : scene) (w h s y x : Z) :
  0 <= x < w -> 0 <= y < h ->
  frame_rays sc w h s !! (Z.to_nat y * Z.to_nat w + Z.to_nat x)%nat
  = Some (camera_location sc, pixel_ray sc w h s y x).
Proof.
  intros Hx Hy. unfold frame_rays.
  rewrite (lookup_concat_rows (Z.to_nat w)).
  - rewrite list_lookup_fmap. unfold py_range at 1.
    rewrite lookup_seqZ_lt by lia.
    cbn [fmap option_fmap option_map mbind option_bind].
    unfold row_rays. rewrite list_lookup_fmap. unfold py_range.
    rewrite lookup_seqZ_lt by lia. simpl.
    rewrite !Z2Nat.id by lia. reflexivity.
  - apply row_rays_uniform.
  - lia.
Qed.

Lemma all_rays_lookup (sc : scene) (w h cnt s y x : Z) :
  0 <= s < cnt -> 0 <= y < h -> 0 <= x < w ->
  concat (frame_rays sc w h <$> py_range cnt)
    !! Z.to_nat ((s * h + y) * w + x)
  = Some (camera_location sc, pixel_ray sc w h s y x).
Proof.
  intros Hs Hy Hx.
  replace (Z.to_nat ((s * h + y) * w + x))
    with (Z.to_nat s * (Z.to_nat h * Z.to_nat w)
          + (Z.to_nat y * Z.to_nat w + Z.to_nat x))%nat by nia.
  rewrite (lookup_concat_rows (Z.to_nat h * Z.to_nat w)).
  - rewrite list_lookup_fmap. unfold py_range.
    rewrite lookup_seqZ_lt by lia.
    cbn [fmap option_fmap option_map mbind option_bind].
    rewrite Z.add_0_l, Z2Nat.id by lia.
    apply frame_rays_lookup; assumption.
  - apply Forall_fmap, Forall_forall. intros s' _. apply length_frame_rays.
  - nia.
Qed.

Lemma length_all_rays (sc : scene) (w h cnt : Z) :
  length (concat (frame_rays sc w h <$> py_range cnt))
  = (Z.to_nat cnt * (Z.to_nat h * Z.to_nat w))%nat.
Proof.
  rewrite (length_concat_uniform (Z.to_nat h * Z.to_nat w)).
  - unfold py_range. rewrite length_fmap, length_seqZ. reflexivity.
  - apply Forall_fmap, Forall_forall. intros s' _. apply length_frame_rays.
Qed.

Lemma last_py_range (k : Z) : 1 <= k -> last (py_range k) = Some (k - 1).
Proof.
  intros Hk. rewrite last_lookup. unfold py_range.
  rewrite length_seqZ.
  rewrite lookup_seqZ_lt by lia. f_equal. lia.
Qed.

End RenderMore.

(** * Beyond the claims: the run with the list of line 77 as CPython
      builds it *)

Section RenderWithin.
Context {F : Type} {float_ops : PyFloat F} {host : Host F}.

(** The divisions of lines 65-68 and the two offset lists, which come
    before the allocation of line 77. *)
Lemma render_sized_within_prefix (capacity : Z) (sc : scene) (cnt w h : Z)
      (wd : world) :
  fis_zero (camera_sensor_width sc) = false -> w <> 0 -> h <> 0 ->
  render_sized_within capacity sc cnt w h wd
  = (rect ← lift (py_list_repeat capacity initial_color (w * h));
     rect ← for_each (py_range cnt)
              (pass_body sc w h w h (focal_length_of sc)
                 (aspect_ratio_of w h)
                 (sample_offset_x w <$> py_range cnt)
                 (sample_offset_y w h <$> py_range cnt))
              rect;
     write_result 0 0 w h rect) wd.
Proof.
  intros Hsw Hw Hh. unfold render_sized_within.
  rewrite (bind_lift_returns _ _ (focal_length_of sc)).
  2:{ unfold py_div_ff. rewrite Hsw. reflexivity. }
  rewrite (bind_lift_returns _ _ (aspect_ratio_of w h)).
  2:{ unfold py_div_ii. eqb_false w. reflexivity. }
  rewrite (bind_lift_returns _ _ (int_truediv 1 w)).
  2:{ unfold py_div_ii. eqb_false w. reflexivity. }
  rewrite (bind_lift_returns _ _
             (fdiv (aspect_ratio_of w h) (float_of_int h))).
  2:{ unfold py_div_fi. eqb_false h. reflexivity. }
  rewrite (bind_lift_returns _ _ (sample_offset_x w <$> py_range cnt)).
  2:{ apply sample_offsets_return. lia. }
  rewrite (bind_lift_returns _ _ (sample_offset_y w h <$> py_range cnt)).
  2:{ apply sample_offsets_return. lia. }
  reflexivity.
Qed.

Lemma render_sized_prefix (sc : scene) (cnt w h : Z) (wd : world) :
  fis_zero (camera_sensor_width sc) = false -> w <> 0 -> h <> 0 ->
  render_sized sc cnt w h wd
  = (rect ← for_each (py_range cnt)
              (pass_body sc w h w h (focal_length_of sc)
                 (aspect_ratio_of w h)
                 (sample_offset_x w <$> py_range cnt)
                 (sample_offset_y w h <$> py_range cnt))
              (replicate (Z.to_nat (w * h)) initial_color);
     write_result 0 0 w h rect) wd.
Proof.
  intros Hsw Hw Hh. unfold render_sized.
  rewrite (bind_lift_returns _ _ (focal_length_of sc)).
  2:{ unfold py_div_ff. rewrite Hsw. reflexivity. }
  rewrite (bind_lift_returns _ _ (aspect_ratio_of w h)).
  2:{ unfold py_div_ii. eqb_false w. reflexivity. }
  rewrite (bind_lift_returns _ _ (int_truediv 1 w)).
  2:{ unfold py_div_ii. eqb_false w. reflexivity. }
  rewrite (bind_lift_returns _ _
             (fdiv (aspect_ratio_of w h) (float_of_int h))).
  2:{ unfold py_div_fi. eqb_false h. reflexivity. }
  rewrite (bind_lift_returns _ _ (sample_offset_x w <$> py_range cnt)).
  2:{ apply sample_offsets_return. lia. }
  rewrite (bind_lift_returns _ _ (sample_offset_y w h <$> py_range cnt)).
  2:{ apply sample_offsets_return. lia. }
  reflexivity.
Qed.

Lemma render_sized_within_zero (capacity : Z) (sc : scene) (cnt w h : Z)
      (wd : world) :
  fis_zero (camera_sensor_width sc) || (w =? 0) || (h =? 0) = true ->
  render_sized_within capacity sc cnt w h wd = (Raises ZeroDivisionError, wd).
Proof.
  intros Hz. unfold render_sized_within.
  destruct (fis_zero (camera_sensor_width sc)) eqn:Hsw.
  { apply bind_lift_raises. unfold py_div_ff. rewrite Hsw. reflexivity. }
  rewrite (bind_lift_returns _ _ (focal_length_of sc)).
  2:{ unfold py_div_ff. rewrite Hsw. reflexivity. }
  destruct (Z.eq_dec w 0) as [->|Hw].
  { apply bind_lift_raises. reflexivity. }
  assert (h = 0) as ->.
  { cbn [orb] in Hz. apply orb_true_iff in Hz as [Hz|Hz];
      apply Z.eqb_eq in Hz; lia. }
  rewrite (bind_lift_returns _ _ (aspect_ratio_of w 0)).
  2:{ unfold py_div_ii. eqb_false w. reflexivity. }
  rewrite (bind_lift_returns _ _ (int_truediv 1 w)).
  2:{ unfold py_div_ii. eqb_false w. reflexivity. }
  apply bind_lift_raises. reflexivity.
Qed.

Lemma render_sized_zero (sc : scene) (cnt w h : Z) (wd : world) :
  fis_zero (camera_sensor_width sc) || (w =? 0) || (h =? 0) = true ->
  render_sized sc cnt w h wd = (Raises ZeroDivisionError, wd).
Proof.
  intros Hz. unfold render_sized.
  destruct (fis_zero (camera_sensor_width sc)) eqn:Hsw.
  { apply bind_lift_raises. unfold py_div_ff. rewrite Hsw. reflexivity. }
  rewrite (bind_lift_returns _ _ (focal_length_of sc)).
  2:{ unfold py_div_ff. rewrite Hsw. reflexivity. }
  destruct (Z.eq_dec w 0) as [->|Hw].
  { apply bind_lift_raises. reflexivity. }
  assert (h = 0) as ->.
  { cbn [orb] in Hz. apply orb_true_iff in Hz as [Hz|Hz];
      apply Z.eqb_eq in Hz; lia. }
  rewrite (bind_lift_returns _ _ (aspect_ratio_of w 0)).
  2:{ unfold py_div_ii. eqb_false w. reflexivity. }
  rewrite (bind_lift_returns _ _ (int_truediv 1 w)).
  2:{ unfold py_div_ii. eqb_false w. reflexivity. }
  apply bind_lift_raises. reflexivity.
Qed.

(** The run on a machine with a list limit: the divisions fail as they do
    without the limit; then line 77 raises, or the run goes on as it does
    without the limit. *)
Lemma render_sized_within_eq (capacity : Z) (sc : scene) (cnt w h : Z)
      (wd : world) :
  render_sized_within capacity sc cnt w h wd
  = if fis_zero (camera_sensor_width sc) || (w =? 0) || (h =? 0)
    then (Raises ZeroDivisionError, wd)
    else match py_list_repeat capacity initial_color (w * h) with
         | Returns _ => render_sized sc cnt w h wd
         | Raises e => (Raises e, wd)
         | Diverges => (Diverges, wd)
         end.
Proof.
  destruct (fis_zero (camera_sensor_width sc) || (w =? 0) || (h =? 0))
    eqn:Hz; [apply render_sized_within_zero; exact Hz|].
  apply orb_false_iff in Hz as [Hz Hh]. apply orb_false_iff in Hz as [Hsw Hw].
  apply Z.eqb_neq in Hw, Hh.
  rewrite render_sized_within_prefix by assumption.
  destruct (py_list_repeat capacity initial_color (w * h)) as [rect|e|] eqn:E;
    [|reflexivity|reflexivity].
  rewrite render_sized_prefix by assumption.
  unfold py_list_repeat in E.
  destruct ((w * h <? - 2 ^ 63) || (2 ^ 63 <=? w * h)); [discriminate|].
  destruct ((0 <? w * h) && (capacity <? w * h)); [discriminate|].
  injection E as <-. reflexivity.
Qed.

Lemma py_list_repeat_fits {A : Type} (capacity : Z) (x : A) (n : Z) :
  - 2 ^ 63 <= n < 2 ^ 63 -> n <= capacity \/ n <= 0 ->
  py_list_repeat capacity x n = Returns (replicate (Z.to_nat n) x).
Proof.
  intros Hn Hc. unfold py_list_repeat.
  destruct (n <? - 2 ^ 63) eqn:E1; [apply Z.ltb_lt in E1; lia|].
  destruct (2 ^ 63 <=? n) eqn:E2; [apply Z.leb_le in E2; lia|].
  cbn [orb].
  destruct (0 <? n) eqn:E3; [|reflexivity].
  destruct (capacity <? n) eqn:E4; [|reflexivity].
  apply Z.ltb_lt in E3, E4. lia.
Qed.

(** When line 77 gets its list the limit plays no part. *)
Lemma render_sized_within_fits (capacity : Z) (sc : scene) (cnt w h : Z)
      (wd : world) :
  - 2 ^ 63 <= w * h < 2 ^ 63 -> w * h <= capacity \/ w * h <= 0 ->
  render_sized_within capacity sc cnt w h wd = render_sized sc cnt w h wd.
Proof.
  intros Hn Hc. rewrite render_sized_within_eq.
  rewrite py_list_repeat_fits by assumption.
  destruct (fis_zero (camera_sensor_width sc) || (w =? 0) || (h =? 0))
    eqn:Hz; [|reflexivity].
  symmetry. apply render_sized_zero. exact Hz.
Qed.

Lemma render_within_unfold (capacity : Z) (sc : scene) (w h : Z)
      (wd : world) :
  let scale :=
    fdiv (float_of_int (resolution_percentage sc)) (float_of_int 100) in
  int_of_float (fmul (float_of_int (resolution_x sc)) scale) = Returns w ->
  int_of_float (fmul (float_of_int (resolution_y sc)) scale) = Returns h ->
  render_within capacity sc wd = render_sized_within capacity sc 1 w h wd.
Proof.
  intros scale Hw Hh. unfold render_within. fold scale.
  rewrite (bind_lift_returns _ _ _ _ Hw), (bind_lift_returns _ _ _ _ Hh).
  reflexivity.
Qed.

Lemma py_list_repeat_cases {A : Type} (capacity : Z) (x : A) (n : Z) :
  py_list_repeat capacity x n
  = if (n <? - 2 ^ 63) || (2 ^ 63 <=? n) then Raises OverflowError
    else if (0 <? n) && (capacity <? n) then Raises MemoryError
    else Returns (replicate (Z.to_nat n) x).
Proof. reflexivity. Qed.

(** The run when both sizes are non-zero and the sensor width is not. *)
Lemma render_sized_within_run (capacity : Z) (sc : scene) (cnt w h : Z)
      (wd : world) :
  fis_zero (camera_sensor_width sc) = false -> w <> 0 -> h <> 0 ->
  render_sized_within capacity sc cnt w h wd
  = if (w * h <? - 2 ^ 63) || (2 ^ 63 <=? w * h)
    then (Raises OverflowError, wd)
    else if (0 <? w * h) && (capacity <? w * h)
         then (Raises MemoryError, wd)
         else render_sized sc cnt w h wd.
Proof.
  intros Hsw Hw Hh. rewrite render_sized_within_eq, Hsw.
  destruct (w =? 0) eqn:Ew; [apply Z.eqb_eq in Ew; lia|].
  destruct (h =? 0) eqn:Eh; [apply Z.eqb_eq in Eh; lia|].
  cbn [orb]. rewrite py_list_repeat_cases.
  destruct ((w * h <? - 2 ^ 63) || (2 ^ 63 <=? w * h)); [reflexivity|].
  destruct ((0 <? w * h) && (capacity <? w * h)); reflexivity.
Qed.

(** X5. For a scene with a camera, sizes below 2^53 in magnitude and a
    sample count that the machine can hold a list of, a run of lines
    65-103 on a machine whose lists hold at most [capacity] items ends in
    one of four ways.  It raises ZeroDivisionError, leaving
    the host untouched, exactly when the sensor width of the camera is
    zero or the width is 0 or the height is 0.  Otherwise line 77 raises
    OverflowError when width * height is outside the index range
    [-2^63, 2^63), and MemoryError when it is positive and above the
    capacity, both before any ray is cast.  Otherwise the run returns,
    having written exactly one result, of the given size, whose buffer
    has max(0, width * height) pixels; no pixel index is out of range. *)
Theorem render_sized_outcome (capacity : Z) (sc : scene) (cnt w h : Z)
        (wd : world) :
  Z.abs w < 2 ^ 53 -> Z.abs h < 2 ^ 53 -> cnt <= capacity ->
  if fis_zero (camera_sensor_width sc) || (w =? 0) || (h =? 0)
  then render_sized_within capacity sc cnt w h wd
       = (Raises ZeroDivisionError, wd)
  else if (w * h <? - 2 ^ 63) || (2 ^ 63 <=? w * h)
  then render_sized_within capacity sc cnt w h wd
       = (Raises OverflowError, wd)
  else if (0 <? w * h) && (capacity <? w * h)
  then render_sized_within capacity sc cnt w h wd = (Raises MemoryError, wd)
  else exists rays rect,
      render_sized_within capacity sc cnt w h wd
      = (Returns tt,
         {| ray_casts := ray_casts wd ++ rays;
            results :=
              results wd ++
              [{| res_x := 0; res_y := 0; res_w := w; res_h := h;
                  res_rect := rect |}] |}) /\
      length rect = Z.to_nat (w * h).
Proof.
  intros _ _ _.
  destruct (fis_zero (camera_sensor_width sc) || (w =? 0) || (h =? 0))
    eqn:Hz; [apply render_sized_within_zero; exact Hz|].
  apply orb_false_iff in Hz as [Hz Hh]. apply orb_false_iff in Hz as [Hsw Hw].
  apply Z.eqb_neq in Hw, Hh.
  rewrite render_sized_within_run by assumption.
  destruct ((w * h <? - 2 ^ 63) || (2 ^ 63 <=? w * h)); [reflexivity|].
  destruct ((0 <? w * h) && (capacity <? w * h)); [reflexivity|].
  destruct (Z_lt_le_dec 0 w) as [Hw'|Hw'];
    [destruct (Z_lt_le_dec 0 h) as [Hh'|Hh']|].
  - exists (concat (frame_rays sc w h <$> py_range cnt)),
           (final_rect sc w h cnt).
    split; [apply render_sized_run; assumption|].
    destruct (final_rect_invariants sc w h cnt) as [Hlen _]; lia.
  - exists [], (replicate (Z.to_nat (w * h)) initial_color).
    rewrite app_nil_r. split; [|apply length_replicate].
    apply render_sized_negative_run; (assumption || lia).
  - exists [], (replicate (Z.to_nat (w * h)) initial_color).
    rewrite app_nil_r. split; [|apply length_replicate].
    apply render_sized_negative_run; (assumption || lia).
Qed.

(** X6. With a negative width or a negative height (neither zero, both
    below 2^53 in magnitude), a camera whose sensor width is not zero and
    a sample count within the capacity of the machine, no pixel is
    visited.  Line 77 raises OverflowError when
    width * height is outside [-2^63, 2^63) and MemoryError when it is
    positive and above the capacity of the machine.  Otherwise the run
    casts no ray and hands the host a result of that negative size: its
    buffer is empty when one size is negative and the other positive;
    with both sizes negative it holds width * height pixels, all of them
    the initial (0, 0, 0, 1). *)
Theorem render_negative_size (capacity : Z) (sc : scene) (cnt w h : Z)
        (wd : world) :
  fis_zero (camera_sensor_width sc) = false ->
  w < 0 \/ h < 0 -> w <> 0 -> h <> 0 ->
  Z.abs w < 2 ^ 53 -> Z.abs h < 2 ^ 53 -> cnt <= capacity ->
  render_sized_within capacity sc cnt w h wd
  = if (w * h <? - 2 ^ 63) || (2 ^ 63 <=? w * h)
    then (Raises OverflowError, wd)
    else if (0 <? w * h) && (capacity <? w * h)
    then (Raises MemoryError, wd)
    else (Returns tt,
          {| ray_casts := ray_casts wd;
             results :=
               results wd ++
               [{| res_x := 0; res_y := 0; res_w := w; res_h := h;
                   res_rect :=
                     if (w <? 0) && (h <? 0)
                     then replicate (Z.to_nat (w * h)) opaque_black
                     else [] |}] |}).
Proof.
  intros Hsw Hneg Hw Hh _ _ _.
  rewrite render_sized_within_run by assumption.
  destruct ((w * h <? - 2 ^ 63) || (2 ^ 63 <=? w * h)); [reflexivity|].
  destruct ((0 <? w * h) && (capacity <? w * h)); [reflexivity|].
  rewrite render_sized_negative_run by assumption.
  do 4 f_equal.
  destruct (w <? 0) eqn:Ew, (h <? 0) eqn:Eh; cbn [andb];
    rewrite ?Z.ltb_lt, ?Z.ltb_ge in Ew, Eh; try reflexivity.
  - replace (Z.to_nat (w * h)) with 0%nat by nia. reflexivity.
  - replace (Z.to_nat (w * h)) with 0%nat by nia. reflexivity.
  - lia.
Qed.

(** X7. On a valid resolution whose pixel count width * height is below
    2^63 and within the capacity of the machine, with a sample count
    within that capacity and a camera whose sensor width is not zero, the
    run casts exactly
    sample_count * height * width rays, all from the camera location, in
    sample-major, then row-major order: the ray of sample s, row y and
    column x is the one of index (s * height + y) * width + x. *)
Theorem render_ray_order (capacity : Z) (sc : scene) (cnt w h : Z)
        (wd : world) :
  fis_zero (camera_sensor_width sc) = false ->
  0 < w -> 0 < h -> 0 <= cnt <= capacity ->
  w * h < 2 ^ 63 -> w * h <= capacity ->
  exists rays,
    ray_casts (render_sized_within capacity sc cnt w h wd).2
    = ray_casts wd ++ rays /\
    Z.of_nat (length rays) = cnt * h * w /\
    forall s y x, 0 <= s < cnt -> 0 <= y < h -> 0 <= x < w ->
      rays !! Z.to_nat ((s * h + y) * w + x)
      = Some (camera_location sc, pixel_ray sc w h s y x).
Proof.
  intros Hsw Hw Hh Hcnt H63 Hcap.
  exists (concat (frame_rays sc w h <$> py_range cnt)).
  rewrite render_sized_within_fits by nia.
  rewrite render_sized_run by assumption. split; [reflexivity|]. split.
  - rewrite length_all_rays. nia.
  - intros s y x. apply all_rays_lookup.
Qed.

(** C8 (as amended). With width <= 0 or height <= 0 a run of lines 65-103
    casts no ray, whatever its outcome, and that outcome is never
    InvalidResolution: no test of the resolution exists.  The run raises
    ZeroDivisionError (always so when the width or the height is 0, from
    [height / width] or from [aspect_ratio / height], with the host left
    untouched), or OverflowError or MemoryError at line 77, or it
    returns. *)
Theorem render_nonpositive_size (capacity : Z) (sc : scene) (cnt w h : Z)
        (wd : world) :
  w <= 0 \/ h <= 0 ->
  ray_casts (render_sized_within capacity sc cnt w h wd).2 = ray_casts wd /\
  ((render_sized_within capacity sc cnt w h wd).1 = Raises ZeroDivisionError \/
   (render_sized_within capacity sc cnt w h wd).1 = Raises OverflowError \/
   (render_sized_within capacity sc cnt w h wd).1 = Raises MemoryError \/
   (render_sized_within capacity sc cnt w h wd).1 = Returns tt) /\
  (render_sized_within capacity sc cnt w h wd).1 <> Raises InvalidResolution /\
  (w = 0 \/ h = 0 ->
   render_sized_within capacity sc cnt w h wd
   = (Raises ZeroDivisionError, wd)).
Proof.
  intros Hwh.
  assert (Hzero : w = 0 \/ h = 0 ->
            render_sized_within capacity sc cnt w h wd
            = (Raises ZeroDivisionError, wd)).
  { intros Hz. apply render_sized_within_zero.
    destruct Hz as [-> | ->]; cbn [Z.eqb]; rewrite ?orb_true_r; reflexivity. }
  assert (Hrun : render_sized_within capacity sc cnt w h wd
                 = (Raises ZeroDivisionError, wd) \/
                 render_sized_within capacity sc cnt w h wd
                 = (Raises OverflowError, wd) \/
                 render_sized_within capacity sc cnt w h wd
                 = (Raises MemoryError, wd) \/
                 render_sized_within capacity sc cnt w h wd
                 = (Returns tt,
                    {| ray_casts := ray_casts wd;
                       results :=
                         results wd ++
                         [{| res_x := 0; res_y := 0; res_w := w; res_h := h;
                             res_rect :=
                               replicate (Z.to_nat (w * h)) initial_color
                          |}] |})).
  { destruct (fis_zero (camera_sensor_width sc) || (w =? 0) || (h =? 0))
      eqn:Hz; [left; apply render_sized_within_zero; exact Hz|].
    apply orb_false_iff in Hz as [Hz Hh].
    apply orb_false_iff in Hz as [Hsw Hw].
    apply Z.eqb_neq in Hw, Hh.
    rewrite render_sized_within_run by assumption.
    destruct ((w * h <? - 2 ^ 63) || (2 ^ 63 <=? w * h)); [auto|].
    destruct ((0 <? w * h) && (capacity <? w * h)); [auto|].
    do 3 right. apply render_sized_negative_run; (assumption || lia). }
  split; [|split; [|split; [|exact Hzero]]].
  - destruct Hrun as [E|[E|[E|E]]]; rewrite E; reflexivity.
  - destruct Hrun as [E|[E|[E|E]]]; rewrite E; auto.
  - destruct Hrun as [E|[E|[E|E]]]; rewrite E; discriminate.
Qed.
End RenderWithin.

Section WithinOnTheStub.
#[local] Existing Instance Stub.host.

Lemma render_sized_outcome_witness :
  Z.abs 4 < 2 ^ 53 /\ Z.abs 4 < 2 ^ 53 /\ 1 <= 16 /\
  exists rays rect,
    render_sized_within (F:=exact) 16 (Stub.scene_of 4 4 100 Stub.never_hits)
                        1 4 4 empty_world
    = (Returns tt,
       {| ray_casts := ray_casts empty_world ++ rays;
          results :=
            results empty_world ++
            [{| res_x := 0; res_y := 0; res_w := 4; res_h := 4;
                res_rect := rect |}] |}) /\
    length rect = Z.to_nat (4 * 4).
Proof.
  assert (H : Z.abs 4 < 2 ^ 53) by (simpl; lia).
  assert (Hcnt : 1 <= 16) by lia.
  split; [exact H|]. split; [exact H|]. split; [exact Hcnt|].
  exact (render_sized_outcome
           (F:=exact) 16 (Stub.scene_of 4 4 100 Stub.never_hits) 1 4 4
           empty_world H H Hcnt).
Defined.

Lemma render_negative_size_witness :
  fis_zero (camera_sensor_width
              (Stub.scene_of (F:=exact) 4 4 100 Stub.never_hits)) = false /\
  (-2 < 0 \/ -3 < 0) /\ -2 <> 0 /\ -3 <> 0 /\
  Z.abs (-2) < 2 ^ 53 /\ Z.abs (-3) < 2 ^ 53 /\ 1 <= 4 /\
  render_sized_within (F:=exact) 4 (Stub.scene_of 4 4 100 Stub.never_hits)
                      1 (-2) (-3) empty_world
  = (if (-2 * -3 <? - 2 ^ 63) || (2 ^ 63 <=? -2 * -3)
     then (Raises OverflowError, empty_world)
     else if (0 <? -2 * -3) && (4 <? -2 * -3)
     then (Raises MemoryError, empty_world)
     else (Returns tt,
           {| ray_casts := ray_casts empty_world;
              results :=
                results empty_world ++
                [{| res_x := 0; res_y := 0; res_w := -2; res_h := -3;
                    res_rect :=
                      if (-2 <? 0) && (-3 <? 0)
                      then replicate (Z.to_nat (-2 * -3)) opaque_black
                      else [] |}] |})).
Proof.
  split; [reflexivity|]. split; [left; lia|]. split; [lia|]. split; [lia|].
  split; [simpl; lia|]. split; [simpl; lia|]. split; [lia|].
  apply (render_negative_size
           (F:=exact) 4 (Stub.scene_of 4 4 100 Stub.never_hits) 1 (-2) (-3)
           empty_world);
    [reflexivity|left; lia|lia|lia|simpl; lia|simpl; lia|lia].
Defined.

Lemma render_ray_order_witness :
  fis_zero (camera_sensor_width
              (Stub.scene_of (F:=exact) 3 2 100 Stub.never_hits)) = false /\
  0 < 3 /\ 0 < 2 /\ 0 <= 2 <= 6 /\ 3 * 2 < 2 ^ 63 /\ 3 * 2 <= 6 /\
  exists rays,
    ray_casts
      (render_sized_within (F:=exact) 6
         (Stub.scene_of 3 2 100 Stub.never_hits) 2 3 2 empty_world).2
    = ray_casts empty_world ++ rays /\
    Z.of_nat (length rays) = 2 * 2 * 3 /\
    forall s y x, 0 <= s < 2 -> 0 <= y < 2 -> 0 <= x < 3 ->
      rays !! Z.to_nat ((s * 2 + y) * 3 + x)
      = Some (camera_location (Stub.scene_of 3 2 100 Stub.never_hits),
              pixel_ray (Stub.scene_of 3 2 100 Stub.never_hits) 3 2 s y x).
Proof.
  split; [reflexivity|]. split; [lia|]. split; [lia|]. split; [lia|].
  split; [lia|]. split; [lia|].
  apply (render_ray_order
           (F:=exact) 6 (Stub.scene_of 3 2 100 Stub.never_hits) 2 3 2
           empty_world); [reflexivity|lia|lia|lia|lia|lia].
Defined.

Lemma render_nonpositive_size_witness :
  (0 <= 0 \/ 4 <= 0) /\
  ray_casts
    (render_sized_within (F:=exact) 16
       (Stub.scene_of 4 400 1 Stub.never_hits) 1 0 4 empty_world).2
  = ray_casts empty_world /\
  ((render_sized_within (F:=exact) 16
      (Stub.scene_of 4 400 1 Stub.never_hits) 1 0 4 empty_world).1
   = Raises ZeroDivisionError \/
   (render_sized_within (F:=exact) 16
      (Stub.scene_of 4 400 1 Stub.never_hits) 1 0 4 empty_world).1
   = Raises OverflowError \/
   (render_sized_within (F:=exact) 16
      (Stub.scene_of 4 400 1 Stub.never_hits) 1 0 4 empty_world).1
   = Raises MemoryError \/
   (render_sized_within (F:=exact) 16
      (Stub.scene_of 4 400 1 Stub.never_hits) 1 0 4 empty_world).1
   = Returns tt) /\
  (render_sized_within (F:=exact) 16
     (Stub.scene_of 4 400 1 Stub.never_hits) 1 0 4 empty_world).1
  <> Raises InvalidResolution /\
  (0 = 0 \/ 4 = 0 ->
   render_sized_within (F:=exact) 16
     (Stub.scene_of 4 400 1 Stub.never_hits) 1 0 4 empty_world
   = (Raises ZeroDivisionError, empty_world)).
Proof.
  split; [left; lia|].
  apply (render_nonpositive_size
           (F:=exact) 16 (Stub.scene_of 4 400 1 Stub.never_hits) 1 0 4
           empty_world).
  left. lia.
Defined.

(** Two sizes of 2^40 pixels: the product 2^80 is no list length, and line
    77 raises OverflowError before any ray is cast. *)
Lemma render_too_many_pixels :
  render_sized_within (F:=b64) (2 ^ 32)
    (Stub.scene_of (2 ^ 40) (2 ^ 40) 100 Stub.never_hits) 1 (2 ^ 40) (2 ^ 40)
    empty_world
  = (Raises OverflowError, empty_world) /\
  render_sized_within (F:=b64) (2 ^ 32)
    (Stub.scene_of (2 ^ 20) (2 ^ 20) 100 Stub.never_hits) 1 (2 ^ 20) (2 ^ 20)
    empty_world
  = (Raises MemoryError, empty_world).
Proof.
  split.
  - rewrite render_sized_within_run by (reflexivity || lia). reflexivity.
  - rewrite render_sized_within_run by (reflexivity || lia). reflexivity.
Qed.
End WithinOnTheStub.

(** * The direction of the rays

    First on any host: each ray cast has the direction built by lines
    89-91.  Then in the camera model of the specification, where the
    vector operations are those of [Ideal]. *)

Section CastsOnly.
Context {F : Type} {float_ops : PyFloat F} {host : Host F}.
Variable P : Vector * Vector -> Prop.







End CastsOnly.

Section IdealFacts.
Import Reals Lra.
Local Open Scope R_scope.
#[local] Existing Instance Ideal.real_float.
#[local] Existing Instance Ideal.host.











End IdealFacts.

Section MoreOnTheStub.
#[local] Existing Instance Stub.host.


(** With two samples the hit at pixel (2, 2) of the first pass does not
    show: the second pass, whose rays are offset, overwrites it. *)
Lemma second_pass_overwrites :
  results (render_sized (Stub.scene_of 4 4 100 Stub.hits_pixel_2_2)
                        1 4 4 empty_world).2
  = [{| res_x := 0; res_y := 0; res_w := 4; res_h := 4;
        res_rect := replicate 10 opaque_black ++ [opaque_red]
                    ++ replicate 5 opaque_black |}] /\
  results (render_sized (Stub.scene_of 4 4 100 Stub.hits_pixel_2_2)
                        2 4 4 empty_world).2
  = [{| res_x := 0; res_y := 0; res_w := 4; res_h := 4;
        res_rect := replicate 16 opaque_black |}].
Proof. split; vm_compute; reflexivity. Qed.
End MoreOnTheStub.

(** * Beyond the claims: the image size in binary64

    At 100 percent the scale is [100 / 100.0 = 1.0], and
    [int(float(z) * 1.0) = z] for every integer [z] of at most 53 bits:
    [float(z)] is exact, the product with 1.0 shifts out zero bits only,
    and truncation undoes the normalisation. *)

Section Binary64Exactness.

Lemma shr_1_even (k : Z) :
  0 <= k ->
  shr_1 {| shr_m := 2 * k; shr_r := false; shr_s := false |}
  = {| shr_m := k; shr_r := false; shr_s := false |}.
Proof. intros Hk. destruct k as [|p|p]; [reflexivity|reflexivity|lia]. Qed.

(** Shifting out [n] zero bits leaves the round and sticky bits clear. *)
Lemma iter_pos_shr_exact (n : positive) :
  forall m, 0 <= m ->
    SpecFloat.iter_pos shr_1 n
      {| shr_m := m * 2 ^ Zpos n; shr_r := false; shr_s := false |}
    = {| shr_m := m; shr_r := false; shr_s := false |}.
Proof.
  induction n as [n IH|n IH|]; intros m Hm.
  - assert (Hp : 0 < 2 ^ Zpos n) by (apply Z.pow_pos_nonneg; lia).
    replace (m * 2 ^ Zpos n~1) with (2 * (m * 2 ^ Zpos n * 2 ^ Zpos n)).
    2:{ replace (2 ^ Zpos n~1) with (2 * (2 ^ Zpos n * 2 ^ Zpos n)); [ring|].
        rewrite <- Z.pow_add_r, <- Z.pow_succ_r by lia. f_equal. lia. }
    change (SpecFloat.iter_pos shr_1 n~1 ?r)
      with (SpecFloat.iter_pos shr_1 n (SpecFloat.iter_pos shr_1 n (shr_1 r))).
    rewrite shr_1_even by nia. rewrite IH by nia. apply IH. assumption.
  - assert (Hp : 0 < 2 ^ Zpos n) by (apply Z.pow_pos_nonneg; lia).
    replace (m * 2 ^ Zpos n~0) with (m * 2 ^ Zpos n * 2 ^ Zpos n).
    2:{ replace (2 ^ Zpos n~0) with (2 ^ Zpos n * 2 ^ Zpos n); [ring|].
        rewrite <- Z.pow_add_r by lia. f_equal. lia. }
    change (SpecFloat.iter_pos shr_1 n~0 ?r)
      with (SpecFloat.iter_pos shr_1 n (SpecFloat.iter_pos shr_1 n r)).
    rewrite IH by nia. apply IH. assumption.
  - change (2 ^ 1) with 2. rewrite Z.mul_comm.
    change (SpecFloat.iter_pos shr_1 1 ?r) with (shr_1 r).
    apply shr_1_even. assumption.
Qed.

Lemma Zdigits2_mul_pow2 (p : positive) (n : Z) :
  0 <= n -> Zdigits2 (Zpos p * 2 ^ n) = Zdigits2 (Zpos p) + n.
Proof.
  intros Hn. assert (0 < 2 ^ n) by (apply Z.pow_pos_nonneg; lia).
  destruct (Zpos p * 2 ^ n) as [|q|q] eqn:E; try lia.
  rewrite !Zdigits2_log2, <- E, Z.log2_mul_pow2 by lia. lia.
Qed.

(** A mantissa of 53 bits followed by [n] zero bits is rounded to itself. *)
Lemma binary_round_aux_exact (s : bool) (p : positive) (e n : Z) :
  0 <= n -> Zdigits2 (Zpos p) = 53 -> -1074 <= e + n <= 971 ->
  binary_round_aux prec emax s (Zpos p * 2 ^ n) e loc_Exact
  = S754_finite s p (e + n).
Proof.
  intros Hn Hd He. unfold binary_round_aux.
  assert (E1 : shr_fexp prec emax (Zpos p * 2 ^ n) e loc_Exact
               = ({| shr_m := Zpos p; shr_r := false; shr_s := false |},
                  e + n)).
  { unfold shr_fexp. rewrite Zdigits2_mul_pow2, Hd, fexp_eq by assumption.
    replace (Z.max (53 + n + e - 53) (-1074) - e) with n by lia.
    unfold shr. destruct n as [|k|k]; [|cbn [shr_record_of_loc]|lia].
    - rewrite Z.mul_1_r, Z.add_0_r. reflexivity.
    - rewrite iter_pos_shr_exact by lia. reflexivity. }
  rewrite E1. cbn [shr_m loc_of_shr_record round_nearest_even].
  assert (E2 : shr_fexp prec emax (Zpos p) (e + n) loc_Exact
               = ({| shr_m := Zpos p; shr_r := false; shr_s := false |},
                  e + n)).
  { unfold shr_fexp. rewrite Hd, fexp_eq.
    replace (Z.max (53 + (e + n) - 53) (-1074) - (e + n)) with 0 by lia.
    reflexivity. }
  rewrite E2. cbn [shr_m].
  destruct (e + n <=? emax - prec) eqn:El; [reflexivity|].
  apply Z.leb_gt in El. unfold emax, prec in El. lia.
Qed.

(** [float(z)] for an integer of at most 53 bits: the mantissa is [z]
    shifted to 53 bits. *)
Lemma binary_round_small_int (s : bool) (p : positive) :
  Zpos p < 2 ^ 53 ->
  exists (mz : positive) (k : Z),
    0 <= k <= 52 /\ Zpos mz = Zpos p * 2 ^ k /\ Zdigits2 (Zpos mz) = 53 /\
    binary_round prec emax s p 0 = S754_finite s mz (- k).
Proof.
  intros Hp. unfold binary_round.
  change (Zpos (digits2_pos p)) with (Zdigits2 (Zpos p)).
  assert (Hd : 1 <= Zdigits2 (Zpos p) <= 53).
  { split; [rewrite Zdigits2_log2; pose proof (Z.log2_nonneg (Zpos p)); lia|].
    apply Zdigits2_le; lia. }
  rewrite Z.add_0_r, fexp_eq.
  replace (Z.max (Zdigits2 (Zpos p) - 53) (-1074))
    with (Zdigits2 (Zpos p) - 53) by lia.
  unfold shl_align. rewrite Z.sub_0_r.
  destruct (Zdigits2 (Zpos p) - 53) as [|d|d] eqn:Ed; [|lia|].
  - exists p, 0. change (2 ^ 0) with 1. rewrite Z.mul_1_r.
    repeat split; try lia.
    rewrite <- (Z.mul_1_r (Zpos p)) at 1. change 1 with (2 ^ 0) at 1.
    rewrite binary_round_aux_exact by lia. reflexivity.
  - exists (Pos.iter xO p d), (Zpos d).
    assert (Hm : Zpos (Pos.iter xO p d) = Zpos p * 2 ^ Zpos d)
      by apply iter_xO_spec.
    assert (Hdig : Zdigits2 (Zpos (Pos.iter xO p d)) = 53).
    { rewrite Hm, Zdigits2_mul_pow2 by lia. lia. }
    repeat split; try lia.
    rewrite <- (Z.mul_1_r (Zpos (Pos.iter xO p d))). change 1 with (2 ^ 0) at 1.
    rewrite binary_round_aux_exact by lia. reflexivity.
Qed.

Lemma SFmul_one (s : bool) (m : positive) (k : Z) :
  0 <= k <= 52 -> Zdigits2 (Zpos m) = 53 ->
  SFmul prec emax (S754_finite s m (- k)) b64_one = S754_finite s m (- k).
Proof.
  intros Hk Hd. unfold b64_one. cbn [SFmul].
  rewrite xorb_false_r, Pos2Z.inj_mul.
  change (Zpos 4503599627370496) with (2 ^ 52).
  rewrite binary_round_aux_exact by lia. f_equal. lia.
Qed.

Lemma trunc_small_int (s : bool) (p mz : positive) (k : Z) :
  0 <= k -> Zpos mz = Zpos p * 2 ^ k ->
  Binary64.trunc (S754_finite s mz (- k))
  = Returns (if s then Zneg p else Zpos p).
Proof.
  intros Hk Hm. unfold Binary64.trunc. rewrite Hm.
  assert (E : (if 0 <=? - k then Z.shiftl (Zpos p * 2 ^ k) (- k)
               else Z.shiftr (Zpos p * 2 ^ k) (- - k)) = Zpos p).
  { destruct (0 <=? - k) eqn:E0.
    - apply Z.leb_le in E0. assert (k = 0) as -> by lia.
      change (2 ^ 0) with 1. rewrite Z.mul_1_r. reflexivity.
    - rewrite Z.opp_involutive, Z.shiftr_div_pow2 by lia.
      apply Z.div_mul. apply Z.pow_nonzero; lia. }
  rewrite E. destruct s; reflexivity.
Qed.

(** [int(float(z) * 1.0) = z] for an integer below 2^53 in magnitude. *)
Lemma trunc_of_Z_times_one (z : Z) :
  Z.abs z < 2 ^ 53 ->
  Binary64.trunc (SFmul prec emax (of_Z z) b64_one) = Returns z.
Proof.
  intros Hz. unfold of_Z, binary_normalize.
  destruct z as [|p|p]; [reflexivity| |].
  - destruct (binary_round_small_int false p ltac:(lia))
      as (mz & k & Hk & Hm & Hd & ->).
    rewrite SFmul_one by assumption.
    rewrite (trunc_small_int false p mz k) by lia. reflexivity.
  - destruct (binary_round_small_int true p ltac:(lia))
      as (mz & k & Hk & Hm & Hd & ->).
    rewrite SFmul_one by assumption.
    rewrite (trunc_small_int true p mz k) by lia. reflexivity.
Qed.

Lemma full_scale_is_one : SFdiv prec emax (of_Z 100) (of_Z 100) = b64_one.
Proof. vm_compute. reflexivity. Qed.
End Binary64Exactness.

Section RenderB64.
Context {host : Host b64}.

(** X9. In binary64, at a resolution percentage of 100 and for resolutions
    below 2^53 in magnitude, the scaling is exact: [render] is the run of
    lines 65-103 at width = resolution_x and height = resolution_y, with
    one sample. *)
Theorem render_full_scale_b64 (sc : scene) (wd : world) :
  resolution_percentage sc = 100 ->
  Z.abs (resolution_x sc) < 2 ^ 53 -> Z.abs (resolution_y sc) < 2 ^ 53 ->
  render sc wd
  = render_sized sc 1 (resolution_x sc) (resolution_y sc) wd.
Proof.
  intros Hp Hx Hy. apply render_unfold; rewrite Hp;
    cbn [fdiv fmul float_of_int int_of_float b64_float];
    rewrite full_scale_is_one; apply trunc_of_Z_times_one; assumption.
Qed.
End RenderB64.

Section FullScaleOnTheStub.
#[local] Existing Instance Stub.host.

Lemma render_full_scale_b64_witness :
  resolution_percentage (Stub.scene_of (F:=b64) 1920 1080 100 Stub.never_hits)
  = 100 /\
  Z.abs (resolution_x (Stub.scene_of (F:=b64) 1920 1080 100 Stub.never_hits))
  < 2 ^ 53 /\
  Z.abs (resolution_y (Stub.scene_of (F:=b64) 1920 1080 100 Stub.never_hits))
  < 2 ^ 53 /\
  render (Stub.scene_of (F:=b64) 1920 1080 100 Stub.never_hits) empty_world
  = render_sized
      (Stub.scene_of (F:=b64) 1920 1080 100 Stub.never_hits) 1
      (resolution_x (Stub.scene_of (F:=b64) 1920 1080 100 Stub.never_hits))
      (resolution_y (Stub.scene_of (F:=b64) 1920 1080 100 Stub.never_hits))
      empty_world.
Proof.
  split; [reflexivity|]. split; [simpl; lia|]. split; [simpl; lia|].
  apply (render_full_scale_b64
           (Stub.scene_of (F:=b64) 1920 1080 100 Stub.never_hits)
           empty_world); [reflexivity|simpl; lia|simpl; lia].
Defined.

(** Below 100 percent the scaled size is a rounded product: 100 pixels at
    29 percent give a width of 28, since 100 * 0.29 is just below 29 in
    binary64. *)
Lemma render_scale_rounds_down :
  int_of_float (fmul (float_of_int (F:=b64) 100)
                     (fdiv (float_of_int 29) (float_of_int 100)))
  = Returns 28.
Proof. vm_compute. reflexivity. Qed.
End FullScaleOnTheStub.

(** * Beyond the claims: one call of [render], end to end *)

Section RenderEndToEnd.
Context {host : Host b64}.

(** X10. In binary64, for a scene at 100 percent with a resolution
    0 < resolution_x, resolution_y < 2^53 whose pixel count
    resolution_x * resolution_y is below 2^63 and within the capacity of
    the machine, and a camera whose sensor width is not zero,
    [CustomRenderEngine.render] returns after casting one ray per pixel,
    in row-major order, and writing one result of the size of the
    resolution; the pixel at index y * resolution_x + x is (1, 0, 0, 1)
    when the ray through (x, y) hit and (0, 0, 0, 1) when it missed. *)
Theorem render_full_scale_image (capacity : Z) (sc : scene) (wd : world) :
  resolution_percentage sc = 100 ->
  0 < resolution_x sc < 2 ^ 53 -> 0 < resolution_y sc < 2 ^ 53 ->
  resolution_x sc * resolution_y sc < 2 ^ 63 ->
  resolution_x sc * resolution_y sc <= capacity ->
  is_zero (camera_sensor_width sc) = false ->
  exists rays rect,
    render_within capacity sc wd
    = (Returns tt,
       {| ray_casts := ray_casts wd ++ rays;
          results :=
            results wd ++
            [{| res_x := 0; res_y := 0;
                res_w := resolution_x sc; res_h := resolution_y sc;
                res_rect := rect |}] |}) /\
    Z.of_nat (length rays) = resolution_x sc * resolution_y sc /\
    Z.of_nat (length rect) = resolution_x sc * resolution_y sc /\
    forall x y, 0 <= x < resolution_x sc -> 0 <= y < resolution_y sc ->
      rays !! Z.to_nat (y * resolution_x sc + x)
      = Some (camera_location sc,
              pixel_ray sc (resolution_x sc) (resolution_y sc) 0 y x) /\
      rect !! Z.to_nat (y * resolution_x sc + x)
      = Some (if has_hit
                   (scene_ray_cast sc (camera_location sc)
                      (pixel_ray sc (resolution_x sc) (resolution_y sc)
                                 0 y x))
              then opaque_red else opaque_black).
Proof.
  intros Hp Hx Hy H63 Hcap Hsw.
  set (w := resolution_x sc) in *. set (h := resolution_y sc) in *.
  exists (concat (frame_rays sc w h <$> py_range 1)), (frame sc w h 0).
  split; [|split; [|split]].
  - rewrite (render_within_unfold capacity sc w h).
    + rewrite render_sized_within_fits by nia.
      rewrite render_sized_run by (lia || exact Hsw).
      unfold final_rect. rewrite last_py_range by lia. reflexivity.
    + rewrite Hp. cbn [fdiv fmul float_of_int int_of_float b64_float].
      rewrite full_scale_is_one. apply trunc_of_Z_times_one. fold w. lia.
    + rewrite Hp. cbn [fdiv fmul float_of_int int_of_float b64_float].
      rewrite full_scale_is_one. apply trunc_of_Z_times_one. fold h. lia.
  - rewrite length_all_rays. change (Z.to_nat 1) with 1%nat. nia.
  - rewrite length_frame by lia. rewrite Z2Nat.id; nia.
  - intros x y Hx' Hy'. split.
    + replace (y * w + x) with ((0 * h + y) * w + x) by ring.
      apply all_rays_lookup; lia.
    + rewrite frame_lookup by assumption.
      unfold pixel_value. rewrite shade_cases. reflexivity.
Qed.
End RenderEndToEnd.

Section EndToEndOnTheStub.
#[local] Existing Instance Stub.host.

Lemma render_full_scale_image_witness :
  resolution_percentage (Stub.scene_of 4 4 100 Stub.hits_pixel_2_2_b64) = 100 /\
  0 < resolution_x (Stub.scene_of 4 4 100 Stub.hits_pixel_2_2_b64) < 2 ^ 53 /\
  0 < resolution_y (Stub.scene_of 4 4 100 Stub.hits_pixel_2_2_b64) < 2 ^ 53 /\
  resolution_x (Stub.scene_of 4 4 100 Stub.hits_pixel_2_2_b64)
  * resolution_y (Stub.scene_of 4 4 100 Stub.hits_pixel_2_2_b64) < 2 ^ 63 /\
  resolution_x (Stub.scene_of 4 4 100 Stub.hits_pixel_2_2_b64)
  * resolution_y (Stub.scene_of 4 4 100 Stub.hits_pixel_2_2_b64) <= 16 /\
  is_zero (camera_sensor_width (Stub.scene_of 4 4 100 Stub.hits_pixel_2_2_b64))
  = false /\
  exists rays rect,
    render_within 16 (Stub.scene_of 4 4 100 Stub.hits_pixel_2_2_b64)
                  empty_world
    = (Returns tt,
       {| ray_casts := ray_casts empty_world ++ rays;
          results :=
            results empty_world ++
            [{| res_x := 0; res_y := 0;
                res_w := resolution_x
                           (Stub.scene_of 4 4 100 Stub.hits_pixel_2_2_b64);
                res_h := resolution_y
                           (Stub.scene_of 4 4 100 Stub.hits_pixel_2_2_b64);
                res_rect := rect |}] |}) /\
    Z.of_nat (length rays)
    = resolution_x (Stub.scene_of 4 4 100 Stub.hits_pixel_2_2_b64)
      * resolution_y (Stub.scene_of 4 4 100 Stub.hits_pixel_2_2_b64) /\
    Z.of_nat (length rect)
    = resolution_x (Stub.scene_of 4 4 100 Stub.hits_pixel_2_2_b64)
      * resolution_y (Stub.scene_of 4 4 100 Stub.hits_pixel_2_2_b64) /\
    forall x y,
      0 <= x < resolution_x (Stub.scene_of 4 4 100 Stub.hits_pixel_2_2_b64) ->
      0 <= y < resolution_y (Stub.scene_of 4 4 100 Stub.hits_pixel_2_2_b64) ->
      rays !! Z.to_nat
                (y * resolution_x
                       (Stub.scene_of 4 4 100 Stub.hits_pixel_2_2_b64) + x)
      = Some (camera_location (Stub.scene_of 4 4 100 Stub.hits_pixel_2_2_b64),
              pixel_ray
                (Stub.scene_of 4 4 100 Stub.hits_pixel_2_2_b64)
                (resolution_x (Stub.scene_of 4 4 100 Stub.hits_pixel_2_2_b64))
                (resolution_y (Stub.scene_of 4 4 100 Stub.hits_pixel_2_2_b64))
                0 y x) /\
      rect !! Z.to_nat
                (y * resolution_x
                       (Stub.scene_of 4 4 100 Stub.hits_pixel_2_2_b64) + x)
      = Some (if has_hit
                   (scene_ray_cast
                      (Stub.scene_of 4 4 100 Stub.hits_pixel_2_2_b64)
                      (camera_location
                         (Stub.scene_of 4 4 100 Stub.hits_pixel_2_2_b64))
                      (pixel_ray
                         (Stub.scene_of 4 4 100 Stub.hits_pixel_2_2_b64)
                         (resolution_x
                            (Stub.scene_of 4 4 100 Stub.hits_pixel_2_2_b64))
                         (resolution_y
                            (Stub.scene_of 4 4 100 Stub.hits_pixel_2_2_b64))
                         0 y x))
              then opaque_red else opaque_black).
Proof.
  split; [reflexivity|]. split; [simpl; lia|]. split; [simpl; lia|].
  split; [simpl; lia|]. split; [simpl; lia|]. split; [reflexivity|].
  apply (render_full_scale_image
           16 (Stub.scene_of 4 4 100 Stub.hits_pixel_2_2_b64) empty_world);
    [reflexivity|simpl; lia|simpl; lia|simpl; lia|simpl; lia|reflexivity].
Defined.
End EndToEndOnTheStub.

(** * Beyond the claims: base 2 in binary64

    The terms [d_k / 2^(k+1)] and their partial sums are dyadic numbers of
    at most 53 bits while [n < 2^53], so every division, every addition
    and the final subtraction are exact. *)

Section Base2.

Lemma Zdigits2_range (p : positive) : 1 <= Zdigits2 (Zpos p).
Proof. rewrite Zdigits2_log2. pose proof (Z.log2_nonneg (Zpos p)). lia. Qed.

(** The canonical float of [p * 2^e] for a mantissa [p] of at most 53
    bits, however many zero bits [t] the mantissa given carries. *)
Lemma binary_round_normal (s : bool) (p P : positive) (e t : Z) :
  Zdigits2 (Zpos p) <= 53 -> 0 <= t ->
  -1074 <= e + Zdigits2 (Zpos p) - 53 <= 971 ->
  Zpos P = Zpos p * 2 ^ t ->
  exists m : positive,
    Zpos m = Zpos p * 2 ^ (53 - Zdigits2 (Zpos p)) /\
    binary_round prec emax s P (e - t)
    = S754_finite s m (e + Zdigits2 (Zpos p) - 53).
Proof.
  intros Hd Ht He HP.
  pose proof (Zdigits2_range p) as Hd1.
  set (d := Zdigits2 (Zpos p)) in *.
  assert (Hpos : 0 < Zpos p * 2 ^ (53 - d)).
  { assert (0 < 2 ^ (53 - d)) by (apply Z.pow_pos_nonneg; lia). lia. }
  destruct (Zpos p * 2 ^ (53 - d)) as [|m|m] eqn:Em; try lia.
  exists m. split; [reflexivity|].
  assert (Hdm : Zdigits2 (Zpos m) = 53).
  { rewrite <- Em, Zdigits2_mul_pow2 by lia. fold d. lia. }
  assert (HdP : Zdigits2 (Zpos P) = d + t).
  { rewrite HP, Zdigits2_mul_pow2 by lia. reflexivity. }
  unfold binary_round.
  change (Zpos (digits2_pos P)) with (Zdigits2 (Zpos P)).
  rewrite HdP, fexp_eq.
  replace (Z.max (d + t + (e - t) - 53) (-1074)) with (e + d - 53) by lia.
  unfold shl_align.
  destruct (e + d - 53 - (e - t)) as [|k|k] eqn:Ek.
  - assert (Zpos P = Zpos m).
    { rewrite HP, <- Em. f_equal. f_equal. lia. }
    replace (Zpos P) with (Zpos m * 2 ^ 0) by (rewrite Z.mul_1_r; lia).
    rewrite binary_round_aux_exact by lia. f_equal. lia.
  - replace (Zpos P) with (Zpos m * 2 ^ Zpos k).
    2:{ rewrite HP, <- Em, <- Z.mul_assoc, <- Z.pow_add_r by lia.
        f_equal. f_equal. lia. }
    rewrite binary_round_aux_exact by lia. f_equal. lia.
  - assert (Hm : Zpos (Pos.iter xO P k) = Zpos m).
    { rewrite iter_xO_spec, HP, <- Em, <- Z.mul_assoc, <- Z.pow_add_r by lia.
      f_equal. f_equal. lia. }
    rewrite Hm.
    replace (Zpos m) with (Zpos m * 2 ^ 0) by (rewrite Z.mul_1_r; lia).
    rewrite binary_round_aux_exact by lia. f_equal. lia.
Qed.

(** Zero bits at the end of the mantissa do not change the float. *)
Lemma binary_normalize_scale (J E t : Z) :
  Z.abs J < 2 ^ 53 -> 0 <= t -> -1021 <= E <= 0 ->
  binary_normalize prec emax (J * 2 ^ t) (E - t) false
  = binary_normalize prec emax J E false.
Proof.
  intros HJ Ht HE.
  assert (Hp : 0 < 2 ^ t) by (apply Z.pow_pos_nonneg; lia).
  destruct J as [|p|p]; [reflexivity| |].
  - assert (Hd : Zdigits2 (Zpos p) <= 53) by (apply Zdigits2_le; lia).
    pose proof (Zdigits2_range p) as Hd1.
    destruct (Zpos p * 2 ^ t) as [|P|P] eqn:EP; try lia.
    cbn [binary_normalize].
    destruct (binary_round_normal false p P E t Hd Ht ltac:(lia)
                ltac:(lia)) as (m & Hm & ->).
    destruct (binary_round_normal false p p E 0 Hd ltac:(lia) ltac:(lia)
                ltac:(rewrite Z.mul_1_r; reflexivity)) as (m' & Hm' & E').
    rewrite Z.sub_0_r in E'. rewrite E'. f_equal. lia.
  - assert (Hd : Zdigits2 (Zpos p) <= 53) by (apply Zdigits2_le; lia).
    pose proof (Zdigits2_range p) as Hd1.
    destruct (Zneg p * 2 ^ t) as [|P|P] eqn:EP; try lia.
    cbn [binary_normalize].
    destruct (binary_round_normal true p P E t Hd Ht ltac:(lia)
                ltac:(lia)) as (m & Hm & ->).
    destruct (binary_round_normal true p p E 0 Hd ltac:(lia) ltac:(lia)
                ltac:(rewrite Z.mul_1_r; reflexivity)) as (m' & Hm' & E').
    rewrite Z.sub_0_r in E'. rewrite E'. f_equal. lia.
Qed.

Lemma dyadic_normal (j len : Z) :
  0 < j < 2 ^ 53 -> 0 <= len <= 1021 ->
  exists m : positive,
    Zpos m = j * 2 ^ (53 - Zdigits2 j) /\ 1 <= Zdigits2 j <= 53 /\
    dyadic j len = S754_finite false m (Zdigits2 j - 53 - len).
Proof.
  intros Hj Hlen. destruct j as [|p|p]; try lia.
  assert (Hd : Zdigits2 (Zpos p) <= 53) by (apply Zdigits2_le; lia).
  pose proof (Zdigits2_range p) as Hd1.
  unfold dyadic. cbn [binary_normalize].
  destruct (binary_round_normal false p p (- len) 0 Hd ltac:(lia) ltac:(lia)
              ltac:(rewrite Z.mul_1_r; reflexivity)) as (m & Hm & E).
  rewrite Z.sub_0_r in E. exists m. split; [exact Hm|]. split; [lia|].
  rewrite E. f_equal. lia.
Qed.

Lemma shl_align_spec (m : positive) (e ez : Z) :
  ez <= e -> Zpos (fst (shl_align m e ez)) = Zpos m * 2 ^ (e - ez).
Proof.
  intros He. unfold shl_align.
  destruct (ez - e) as [|k|k] eqn:Ek; try lia.
  - replace (e - ez) with 0 by lia. cbn [fst]. lia.
  - cbn [fst]. rewrite iter_xO_spec. f_equal. f_equal. lia.
Qed.

(** The mantissa of a dyadic aligned to a smaller exponent. *)
Lemma aligned_dyadic (j len : Z) (m : positive) (ez : Z) :
  0 < j -> Zpos m = j * 2 ^ (53 - Zdigits2 j) -> 1 <= Zdigits2 j <= 53 ->
  ez <= Zdigits2 j - 53 - len ->
  Zpos (fst (shl_align m (Zdigits2 j - 53 - len) ez)) = j * 2 ^ (- len - ez).
Proof.
  intros Hj Hm Hd Hez. rewrite shl_align_spec by assumption.
  rewrite Hm, <- Z.mul_assoc, <- Z.pow_add_r by lia. f_equal. f_equal. lia.
Qed.

Lemma SFadd_dyadic (j1 len1 j2 len2 : Z) :
  0 < j1 < 2 ^ 53 -> 0 < j2 < 2 ^ 53 ->
  0 <= len1 <= 1021 -> 0 <= len2 <= 1021 ->
  let len := Z.max len1 len2 in
  j1 * 2 ^ (len - len1) + j2 * 2 ^ (len - len2) < 2 ^ 53 ->
  SFadd prec emax (dyadic j1 len1) (dyadic j2 len2)
  = dyadic (j1 * 2 ^ (len - len1) + j2 * 2 ^ (len - len2)) len.
Proof.
  intros Hj1 Hj2 Hl1 Hl2 len HJ.
  destruct (dyadic_normal j1 len1 Hj1 Hl1) as (m1 & Hm1 & Hd1 & ->).
  destruct (dyadic_normal j2 len2 Hj2 Hl2) as (m2 & Hm2 & Hd2 & ->).
  cbn [SFadd cond_Zopp].
  set (ez := Z.min (Zdigits2 j1 - 53 - len1) (Zdigits2 j2 - 53 - len2)).
  rewrite (aligned_dyadic j1 len1 m1 ez) by lia.
  rewrite (aligned_dyadic j2 len2 m2 ez) by lia.
  unfold dyadic.
  assert (Hp1 : 0 < 2 ^ (len - len1)) by (apply Z.pow_pos_nonneg; lia).
  assert (Hp2 : 0 < 2 ^ (len - len2)) by (apply Z.pow_pos_nonneg; lia).
  rewrite <- (binary_normalize_scale _ (- len) (- len - ez)) by nia.
  f_equal; [|lia].
  rewrite Z.mul_add_distr_r, <- !Z.mul_assoc, <- !Z.pow_add_r by lia.
  f_equal; f_equal; f_equal; lia.
Qed.

Lemma SFsub_dyadic (j1 len1 j2 len2 : Z) :
  0 < j1 < 2 ^ 53 -> 0 < j2 < 2 ^ 53 ->
  0 <= len1 <= 1021 -> 0 <= len2 <= 1021 ->
  let len := Z.max len1 len2 in
  Z.abs (j1 * 2 ^ (len - len1) - j2 * 2 ^ (len - len2)) < 2 ^ 53 ->
  SFsub prec emax (dyadic j1 len1) (dyadic j2 len2)
  = dyadic (j1 * 2 ^ (len - len1) - j2 * 2 ^ (len - len2)) len.
Proof.
  intros Hj1 Hj2 Hl1 Hl2 len HJ.
  destruct (dyadic_normal j1 len1 Hj1 Hl1) as (m1 & Hm1 & Hd1 & ->).
  destruct (dyadic_normal j2 len2 Hj2 Hl2) as (m2 & Hm2 & Hd2 & ->).
  cbn [SFsub cond_Zopp].
  set (ez := Z.min (Zdigits2 j1 - 53 - len1) (Zdigits2 j2 - 53 - len2)).
  rewrite (aligned_dyadic j1 len1 m1 ez) by lia.
  rewrite (aligned_dyadic j2 len2 m2 ez) by lia.
  unfold dyadic.
  rewrite <- (binary_normalize_scale _ (- len) (- len - ez)) by lia.
  f_equal; [|lia].
  rewrite Z.mul_sub_distr_r, <- !Z.mul_assoc, <- !Z.pow_add_r by lia.
  f_equal; f_equal; f_equal; lia.
Qed.

(** [1 / 2^K] is computed exactly. *)
Lemma truediv_pow2 (K : Z) :
  1 <= K <= 1021 -> truediv 1 (2 ^ K) = dyadic 1 K.
Proof.
  intros HK.
  assert (Hp : 0 < 2 ^ K) by (apply Z.pow_pos_nonneg; lia).
  destruct (dyadic_normal 1 K ltac:(lia) ltac:(lia)) as (m & Hm & _ & ->).
  change (Zdigits2 1) with 1 in *.
  change (1 * 2 ^ (53 - 1)) with (2 ^ 52) in Hm.
  unfold truediv. pose proof (Zdigits2_pow2 K ltac:(lia)) as Hd2.
  destruct (2 ^ K) as [|q|q] eqn:Eq; try lia.
  cbn [Z_as_float SFdiv xorb]. unfold SFdiv_core_binary.
  rewrite Hd2. change (Zdigits2 1) with 1. rewrite fexp_eq.
  replace (Z.min (Z.max (1 + 0 - (K + 1 + 0) - 53) (-1074)) (0 - 0))
    with (- K - 53) by lia.
  replace (0 - 0 - (- K - 53)) with (K + 53) by lia.
  destruct (K + 53) as [|k|k] eqn:Ek; try lia.
  rewrite Z.shiftl_1_l, <- Ek.
  destruct (Z.div_eucl (2 ^ (K + 53)) (Zpos q)) as [d r] eqn:E.
  assert (Hdiv : d = 2 ^ (K + 53) / Zpos q)
    by (unfold Z.div; rewrite E; reflexivity).
  assert (Hmod : r = 2 ^ (K + 53) mod Zpos q)
    by (unfold Z.modulo; rewrite E; reflexivity).
  rewrite <- Eq in Hdiv, Hmod.
  assert (E2 : 2 ^ (K + 53) = 2 ^ 53 * 2 ^ K)
    by (rewrite <- Z.pow_add_r by lia; f_equal; lia).
  rewrite E2, Z.div_mul in Hdiv by lia.
  rewrite E2, Z.mod_mul in Hmod by lia.
  subst d r.
  assert (Hloc : new_location (Zpos q) 0 = loc_Exact).
  { unfold new_location, new_location_even, new_location_odd.
    destruct (Z.even (Zpos q)); reflexivity. }
  rewrite Hloc.
  replace (2 ^ 53) with (Zpos m * 2 ^ 1) by (rewrite Hm; reflexivity).
  rewrite binary_round_aux_exact.
  - f_equal. lia.
  - lia.
  - rewrite Hm. reflexivity.
  - lia.
Qed.

Lemma truediv_zero (b : Z) : 0 < b -> truediv 0 b = S754_zero false.
Proof. intros Hb. destruct b; try lia. reflexivity. Qed.

Lemma reversed_int_range (n b : Z) (len : nat) :
  2 <= b -> 0 <= reversed_int n b len < b ^ Z.of_nat len.
Proof.
  intros Hb. induction len as [|len IH]; [simpl; lia|].
  cbn [reversed_int]. rewrite Nat2Z.inj_succ, Z.pow_succ_r by lia.
  pose proof (digit_range n b len Hb). nia.
Qed.

Lemma dyadic_double (j len : Z) :
  0 <= j < 2 ^ 53 -> 0 <= len <= 1020 ->
  dyadic (j * 2) (len + 1) = dyadic j len.
Proof.
  intros Hj Hlen. unfold dyadic.
  replace (- (len + 1)) with (- len - 1) by lia.
  change 2 with (2 ^ 1) at 1.
  apply binary_normalize_scale; lia.
Qed.

(** In base 2 every partial sum of at most 53 terms is computed exactly:
    it is the float of the digit-reversed integer over [2^len]. *)
Lemma b64_reversed_sum_base_2 (n : Z) (len : nat) :
  (len <= 53)%nat ->
  reversed_sum (F:=b64) n 2 len
  = dyadic (reversed_int n 2 len) (Z.of_nat len).
Proof.
  induction len as [|len IH]; intros Hlen; [reflexivity|].
  rewrite reversed_sum_S, IH by lia. unfold reversed_term.
  cbn [fadd int_truediv b64_float reversed_int].
  pose proof (reversed_int_range n 2 len ltac:(lia)) as Hj.
  pose proof (digit_range n 2 len ltac:(lia)) as Hd.
  assert (Hpow : 2 ^ Z.of_nat len <= 2 ^ 52)
    by (apply Z.pow_le_mono_r; lia).
  set (j := reversed_int n 2 len) in *.
  rewrite Nat2Z.inj_succ.
  replace (Z.succ (Z.of_nat len)) with (Z.of_nat len + 1) by lia.
  assert (Hcases : digit n 2 len = 0 \/ digit n 2 len = 1) by lia.
  destruct Hcases as [-> | ->].
  - rewrite truediv_zero by (apply Z.pow_pos_nonneg; lia).
    rewrite Z.add_0_r, dyadic_double by lia.
    destruct (Z.eq_dec j 0) as [->|Hne]; [reflexivity|].
    destruct (dyadic_normal j (Z.of_nat len) ltac:(lia) ltac:(lia))
      as (m & _ & _ & ->).
    reflexivity.
  - rewrite truediv_pow2 by lia.
    destruct (Z.eq_dec j 0) as [->|Hne].
    + destruct (dyadic_normal 1 (Z.of_nat len + 1) ltac:(lia) ltac:(lia))
        as (m & _ & _ & E).
      change (0 * 2 + 1) with 1.
      change (dyadic 0 (Z.of_nat len)) with (S754_zero false).
      rewrite E. reflexivity.
    + rewrite SFadd_dyadic; try lia.
      * f_equal; [|lia].
        replace (Z.max (Z.of_nat len) (Z.of_nat len + 1))
          with (Z.of_nat len + 1) by lia.
        replace (Z.of_nat len + 1 - Z.of_nat len) with 1 by lia.
        rewrite Z.sub_diag. change (2 ^ 1) with 2. change (2 ^ 0) with 1. lia.
      * replace (Z.max (Z.of_nat len) (Z.of_nat len + 1))
          with (Z.of_nat len + 1) by lia.
        replace (Z.of_nat len + 1 - Z.of_nat len) with 1 by lia.
        rewrite Z.sub_diag. change (2 ^ 1) with 2. change (2 ^ 0) with 1. lia.
Qed.

Lemma exact_reversed_sum_int (n b : Z) (len : nat) :
  2 <= b ->
  (reversed_sum (F:=exact) n b len
   == inject_Z (reversed_int n b len) / inject_Z (b ^ Z.of_nat len))%Q.
Proof.
  intros Hb. induction len as [|len IH]; [reflexivity|].
  rewrite reversed_sum_S, IH. unfold reversed_term.
  cbn [fadd int_truediv exact_float reversed_int].
  assert (Hp : 0 < b ^ Z.of_nat len) by (apply Z.pow_pos_nonneg; lia).
  rewrite Nat2Z.inj_succ, Z.pow_succ_r by lia.
  rewrite inject_Z_plus, !inject_Z_mult.
  field. split; apply inject_Z_nonzero; lia.
Qed.

Lemma Qpower_2_neg (k : Z) :
  0 <= k -> (Qpower 2 (- k) == / inject_Z (2 ^ k))%Q.
Proof.
  intros Hk. rewrite Qpower_opp. apply Qinv_comp.
  rewrite Zpower_Qpower by assumption. reflexivity.
Qed.

(** The value of the float of [J / 2^len], for [J] of at most 53 bits. *)
Lemma to_Q_dyadic (J len : Z) :
  Z.abs J < 2 ^ 53 -> 0 <= len <= 1021 ->
  exists q : Q,
    to_Q (dyadic J len) = Some q /\
    (q == inject_Z J / inject_Z (2 ^ len))%Q.
Proof.
  intros HJ Hlen.
  assert (Hpl : 0 < 2 ^ len) by (apply Z.pow_pos_nonneg; lia).
  assert (Hval : forall (p m : positive),
            Zdigits2 (Zpos p) <= 53 ->
            Zpos m = Zpos p * 2 ^ (53 - Zdigits2 (Zpos p)) ->
            (inject_Z (Zpos m)
             * Qpower 2 (- len + Zdigits2 (Zpos p) - 53)
             == inject_Z (Zpos p) / inject_Z (2 ^ len))%Q).
  { intros p m Hd Hm. pose proof (Zdigits2_range p) as Hd1.
    set (d := Zdigits2 (Zpos p)) in *.
    replace (- len + d - 53) with (- (53 - d + len)) by lia.
    rewrite Qpower_2_neg by lia.
    rewrite Hm, Z.pow_add_r, !inject_Z_mult by lia.
    assert (0 < 2 ^ (53 - d)) by (apply Z.pow_pos_nonneg; lia).
    field. split; apply inject_Z_nonzero; lia. }
  destruct J as [|p|p].
  - exists 0%Q. split; [reflexivity|].
    unfold Qdiv. rewrite Qmult_0_l. reflexivity.
  - assert (Hd : Zdigits2 (Zpos p) <= 53) by (apply Zdigits2_le; lia).
    pose proof (Zdigits2_range p) as Hd1.
    destruct (binary_round_normal false p p (- len) 0 Hd ltac:(lia)
                ltac:(lia) ltac:(rewrite Z.mul_1_r; reflexivity))
      as (m & Hm & E).
    rewrite Z.sub_0_r in E. unfold dyadic. cbn [binary_normalize].
    rewrite E. cbn [to_Q]. eexists. split; [reflexivity|].
    apply Hval; assumption.
  - assert (Hd : Zdigits2 (Zpos p) <= 53) by (apply Zdigits2_le; lia).
    pose proof (Zdigits2_range p) as Hd1.
    destruct (binary_round_normal true p p (- len) 0 Hd ltac:(lia)
                ltac:(lia) ltac:(rewrite Z.mul_1_r; reflexivity))
      as (m & Hm & E).
    rewrite Z.sub_0_r in E. unfold dyadic. cbn [binary_normalize].
    rewrite E. cbn [to_Q]. eexists. split; [reflexivity|].
    rewrite (Hval p m) by assumption.
    change (Zneg p) with (- Zpos p). rewrite inject_Z_opp.
    unfold Qdiv. ring.
Qed.

Lemma num_digits_below_2p53 (n : Z) :
  0 <= n < 2 ^ 53 -> (num_digits n 2 <= 53)%nat.
Proof.
  intros Hn. apply (proj2 (num_digits_spec n 2 ltac:(lia) ltac:(lia))).
  exact (proj2 Hn).
Qed.

(** X11. In binary64, for base 2 and 0 <= n < 2^53, no operation of
    [corput] rounds: the float returned stands for exactly the rational
    number that the same computation gives without rounding, the
    digit-reversal value minus 1/2.  (From n = 2^54 - 1 on this fails.) *)
Theorem corput_base_2_exact_b64 (n : Z) :
  0 <= n < 2 ^ 53 ->
  exists (x : b64) (q v : Q),
    corput (F:=b64) n 2 = Returns x /\
    corput (F:=exact) n 2 = Returns v /\
    to_Q x = Some q /\ (q == v)%Q.
Proof.
  intros Hn.
  pose proof (num_digits_below_2p53 n Hn) as HL.
  pose proof (reversed_int_range n 2 (num_digits n 2) ltac:(lia)) as Hj.
  assert (Hpow : 2 ^ Z.of_nat (num_digits n 2) <= 2 ^ 53)
    by (apply Z.pow_le_mono_r; lia).
  assert (Hx : reversed_digits (F:=b64) n 2
               = dyadic (reversed_int n 2 (num_digits n 2))
                        (Z.of_nat (num_digits n 2)))
    by (apply b64_reversed_sum_base_2; exact HL).
  assert (Hv : (reversed_digits (F:=exact) n 2
                == inject_Z (reversed_int n 2 (num_digits n 2))
                   / inject_Z (2 ^ Z.of_nat (num_digits n 2)))%Q)
    by (apply exact_reversed_sum_int; lia).
  set (L := Z.of_nat (num_digits n 2)) in *.
  set (j := reversed_int n 2 (num_digits n 2)) in *.
  assert (HL0 : 0 <= L <= 53) by lia.
  assert (HpL : 0 < 2 ^ L) by (apply Z.pow_pos_nonneg; lia).
  assert (Hsub : exists q : Q,
             to_Q (SFsub prec emax (dyadic j L) Binary64.half) = Some q /\
             (q == inject_Z j / inject_Z (2 ^ L) - (1 # 2))%Q).
  { destruct (Z.eq_dec j 0) as [->|Hne].
    - change (dyadic 0 L) with (S754_zero false).
      eexists. split; [reflexivity|].
      unfold Qdiv. rewrite Qmult_0_l. vm_compute. reflexivity.
    - change Binary64.half with (dyadic 1 1).
      assert (HL1 : 1 <= L).
      { destruct (Z.eq_dec L 0) as [E0|]; [|lia].
        rewrite E0 in Hj. simpl in Hj. lia. }
      rewrite SFsub_dyadic; try lia.
      + replace (Z.max L 1) with L by lia.
        rewrite Z.sub_diag. change (2 ^ 0) with 1.
        rewrite Z.mul_1_r, Z.mul_1_l.
        assert (Hh : 0 < 2 ^ (L - 1)) by (apply Z.pow_pos_nonneg; lia).
        assert (E2 : 2 ^ L = 2 * 2 ^ (L - 1)).
        { rewrite <- Z.pow_succ_r by lia. f_equal. lia. }
        destruct (to_Q_dyadic (j - 2 ^ (L - 1)) L ltac:(lia) ltac:(lia))
          as (q & Hq & Eq).
        exists q. split; [exact Hq|]. rewrite Eq.
        unfold Z.sub at 1. rewrite inject_Z_plus, inject_Z_opp.
        rewrite E2, inject_Z_mult.
        field. apply inject_Z_nonzero. lia.
      + replace (Z.max L 1) with L by lia.
        rewrite Z.sub_diag. change (2 ^ 0) with 1.
        assert (Hh : 0 < 2 ^ (L - 1)) by (apply Z.pow_pos_nonneg; lia).
        assert (E2 : 2 ^ L = 2 * 2 ^ (L - 1)).
        { rewrite <- Z.pow_succ_r by lia. f_equal. lia. }
        lia. }
  destruct Hsub as (q & Hq & Eq).
  exists (fsub (reversed_digits (F:=b64) n 2) float_half), q,
         (fsub (reversed_digits (F:=exact) n 2) float_half).
  split; [apply (corput_spec (F:=b64)); lia|].
  split; [apply (corput_spec (F:=exact)); lia|].
  cbn [fsub float_half b64_float exact_float].
  rewrite Hx. split; [exact Hq|]. rewrite Eq, Hv. reflexivity.
Qed.
End Base2.

Lemma corput_base_2_exact_b64_witness :
  0 <= 2 ^ 53 - 1 < 2 ^ 53 /\
  exists (x : b64) (q v : Q),
    corput (F:=b64) (2 ^ 53 - 1) 2 = Returns x /\
    corput (F:=exact) (2 ^ 53 - 1) 2 = Returns v /\
    to_Q x = Some q /\ (q == v)%Q.
Proof.
  split; [lia|]. apply (corput_base_2_exact_b64 (2 ^ 53 - 1)). lia.
Defined.

(** * Beyond the claims: registering the engine with the panels *)

Section RegistryFacts.
Import Registry.
#[local] Set Warnings "-clear-no-such-hyp".

Lemma get_panels_fold (s : bpy_state) (ps acc : list panel) :
  foldl (fun panels p =>
           match compat_engines p with
           | Some l =>
               if bool_decide ("BLENDER_RENDER" ∈ engines s l)
               then if bool_decide (panel_name p ∉ exclude_panels)
                    then panels ++ [p]
                    else panels
               else panels
           | None => panels
           end) acc ps
  = acc ++ filter (fun p => selected s p) ps.
Proof.
  revert acc. induction ps as [|p ps IH]; intros acc; simpl.
  - now rewrite app_nil_r.
  - rewrite IH. rewrite filter_cons.
    assert (Hsel : selected s p =
                   match compat_engines p with
                   | Some l => bool_decide ("BLENDER_RENDER" ∈ engines s l)
                               && bool_decide (panel_name p ∉ exclude_panels)
                   | None => false
                   end) by reflexivity.
    destruct (compat_engines p) as [l|];
      [destruct (bool_decide ("BLENDER_RENDER" ∈ engines s l));
       [destruct (bool_decide (panel_name p ∉ exclude_panels))|]|];
      simpl in Hsel; rewrite Hsel; simpl; try reflexivity.
    now rewrite <- app_assoc.
Qed.

(** The loop of [get_panels] is a filter. *)
Lemma get_panels_filter (s : bpy_state) :
  get_panels s = filter (fun p => selected s p) (subclasses s).
Proof. unfold get_panels. now rewrite get_panels_fold. Qed.

Lemma selected_spec (s : bpy_state) (p : panel) :
  selected s p = true <->
  exists l, compat_engines p = Some l
            /\ "BLENDER_RENDER" ∈ engines s l
            /\ panel_name p ∉ exclude_panels.
Proof.
  unfold selected. destruct (compat_engines p) as [l|].
  - rewrite andb_true_iff, !bool_decide_eq_true. split.
    + intros [? ?]. eauto.
    + intros (l' & [= <-] & ? & ?). auto.
  - split; [discriminate|]. intros (l' & [=] & _).
Qed.

Lemma elem_of_get_panels (s : bpy_state) (p : panel) :
  p ∈ get_panels s <->
  p ∈ subclasses s /\
  exists l, compat_engines p = Some l
            /\ "BLENDER_RENDER" ∈ engines s l
            /\ panel_name p <> "VIEWLAYER_PT_filter"
            /\ panel_name p <> "VIEWLAYER_PT_layer_passes".
Proof.
  rewrite get_panels_filter, list_elem_of_filter, Is_true_true, selected_spec.
  unfold exclude_panels. split.
  - intros [(l & ? & ? & Hn) ?]. split; [done|]. exists l.
    repeat split; try done; intros E; apply Hn; rewrite E; set_solver.
  - intros [? (l & ? & ? & ? & ?)]. split; [|done]. exists l.
    repeat split; try done. set_solver.
Qed.

Lemma engines_store (s : bpy_state) (l l' : loc) (v : gset string) :
  engines (store s l v) l' = if decide (l' = l) then v else engines s l'.
Proof.
  unfold engines, store; simpl. destruct (decide (l' = l)) as [->|N].
  - now rewrite lookup_insert_eq.
  - now rewrite lookup_insert_ne by congruence.
Qed.

Lemma selected_ext (s s' : bpy_state) (p : panel) :
  (forall l, "BLENDER_RENDER" ∈ engines s l
             <-> "BLENDER_RENDER" ∈ engines s' l) ->
  selected s p = selected s' p.
Proof.
  intros H. unfold selected. destruct (compat_engines p) as [l|]; [|done].
  f_equal. apply bool_decide_ext, H.
Qed.

Lemma get_panels_ext (s s' : bpy_state) :
  subclasses s = subclasses s' ->
  (forall l, "BLENDER_RENDER" ∈ engines s l
             <-> "BLENDER_RENDER" ∈ engines s' l) ->
  get_panels s = get_panels s'.
Proof.
  intros Hs H. rewrite !get_panels_filter, Hs.
  apply list_filter_iff. intros p. now rewrite (selected_ext s s' p H).
Qed.

(** Every selected panel has the attribute: the loops of [register] and
    [unregister] never raise AttributeError. *)
Lemma get_panels_all_have_sets (s : bpy_state) :
  Forall (fun p => is_Some (compat_engines p)) (get_panels s).
Proof.
  apply Forall_forall. intros p H.
  apply elem_of_get_panels in H as [_ (l & -> & _)]. eauto.
Qed.

Lemma get_panels_call (c : class_call) (s : bpy_state) :
  get_panels (call c s) = get_panels s.
Proof. reflexivity. Qed.

(** The loop of [register] over panels that have the attribute. *)
Lemma for_panels_add (x : string) (ps : list panel) (s : bpy_state) :
  Forall (fun p => is_Some (compat_engines p)) ps ->
  exists s', for_panels ps (set_add x) s = inr s'
    /\ subclasses s' = subclasses s
    /\ class_calls s' = class_calls s
    /\ forall l, engines s' l =
         if decide (l ∈ omap compat_engines ps)
         then engines s l ∪ {[x]} else engines s l.
Proof.
  revert s. induction ps as [|p ps IH]; intros s Hall.
  - exists s. repeat split.
  - inversion_clear Hall as [|? ? [l0 Hp] Hall']. simpl.
    unfold set_add at 1. rewrite Hp.
    change (list_omap _ _ compat_engines ps) with (omap compat_engines ps).
    destruct (IH (store s l0 (engines s l0 ∪ {[x]})) Hall')
      as (s' & -> & Hsub & Hcalls & Heng).
    exists s'. repeat split; try done. intros l. rewrite Heng.
    rewrite !engines_store.
    destruct (decide (l = l0)) as [->|N]; repeat destruct (decide _);
      set_solver.
Qed.

(** One iteration of the loop of [unregister]: the membership test guards
    the removal, so [set.remove] finds its element. *)
Lemma guarded_remove_step (x : string) (s : bpy_state) (p : panel)
      (l0 : loc) :
  compat_engines p = Some l0 ->
  match set_contains x s p with
  | inl e => inl e
  | inr true => set_remove x s p
  | inr false => inr s
  end
  = inr (if bool_decide (x ∈ engines s l0)
         then store s l0 (engines s l0 ∖ {[x]}) else s).
Proof.
  intros Hp. unfold set_contains, set_remove. rewrite Hp.
  now destruct (bool_decide (x ∈ engines s l0)).
Qed.

Lemma for_panels_remove (x : string) (ps : list panel) (s : bpy_state) :
  Forall (fun p => is_Some (compat_engines p)) ps ->
  exists s', for_panels ps
      (fun s p =>
         match set_contains x s p with
         | inl e => inl e
         | inr true => set_remove x s p
         | inr false => inr s
         end) s = inr s'
    /\ subclasses s' = subclasses s
    /\ class_calls s' = class_calls s
    /\ forall l, engines s' l =
         if decide (l ∈ omap compat_engines ps)
         then engines s l ∖ {[x]} else engines s l.
Proof.
  revert s. induction ps as [|p ps IH]; intros s Hall.
  - exists s. repeat split.
  - inversion_clear Hall as [|? ? [l0 Hp] Hall'].
    cbn [for_panels]. rewrite (guarded_remove_step x s p l0 Hp).
    cbn [omap list_omap]. rewrite Hp.
    change (list_omap _ _ compat_engines ps) with (omap compat_engines ps).
    destruct (IH (if bool_decide (x ∈ engines s l0)
                  then store s l0 (engines s l0 ∖ {[x]}) else s) Hall')
      as (s' & -> & Hsub & Hcalls & Heng).
    exists s'.
    destruct (bool_decide (x ∈ engines s l0)) eqn:Hx;
      [apply bool_decide_eq_true in Hx | apply bool_decide_eq_false in Hx];
      (repeat split; try done); intros l; rewrite Heng;
      rewrite ?engines_store;
      destruct (decide (l = l0)) as [->|N]; repeat destruct (decide _);
      set_solver.
Qed.

Lemma register_run (s : bpy_state) :
  exists s', register s = inr s'
    /\ subclasses s' = subclasses s
    /\ class_calls s' = class_calls s ++ [register_class "CUSTOM"]
    /\ forall l, engines s' l =
         if decide (l ∈ selected_sets s)
         then engines s l ∪ {["CUSTOM"]} else engines s l.
Proof.
  unfold register; cbn zeta. rewrite get_panels_call.
  destruct (for_panels_add "CUSTOM" (get_panels s)
              (call (register_class "CUSTOM") s)
              (get_panels_all_have_sets s))
    as (s' & -> & Hsub & Hcalls & Heng).
  exists s'. repeat split; done.
Qed.

Lemma unregister_run (s : bpy_state) :
  exists s', unregister s = inr s'
    /\ subclasses s' = subclasses s
    /\ class_calls s' = class_calls s ++ [unregister_class "CUSTOM"]
    /\ forall l, engines s' l =
         if decide (l ∈ selected_sets s)
         then engines s l ∖ {["CUSTOM"]} else engines s l.
Proof.
  unfold unregister; cbn zeta. rewrite get_panels_call.
  destruct (for_panels_remove "CUSTOM" (get_panels s)
              (call (unregister_class "CUSTOM") s)
              (get_panels_all_have_sets s))
    as (s' & -> & Hsub & Hcalls & Heng).
  exists s'. repeat split; done.
Qed.

(** Adding or removing CUSTOM does not change which panels are selected:
    the selection reads BLENDER_RENDER and the names only. *)
Lemma get_panels_stable (s s' : bpy_state)
      (f : gset string -> gset string) :
  subclasses s' = subclasses s ->
  (forall v, "BLENDER_RENDER" ∈ f v <-> "BLENDER_RENDER" ∈ v) ->
  (forall l, engines s' l =
         if decide (l ∈ selected_sets s) then f (engines s l)
         else engines s l) ->
  get_panels s' = get_panels s.
Proof.
  intros Hsub Hf Heng. apply get_panels_ext; [done|].
  intros l. rewrite Heng. destruct (decide _); [apply Hf|done].
Qed.


Lemma unregister_keeps_selection (s s' : bpy_state) :
  unregister s = inr s' -> get_panels s' = get_panels s.
Proof.
  intros H. destruct (unregister_run s) as (s1 & E & Hsub & _ & Heng).
  rewrite H in E. injection E as <-.
  apply (get_panels_stable s s' (fun v => v ∖ {["CUSTOM"]})); try done.
  intros v. set_solver.
Qed.

(** X12. [get_panels] returns, in the order of [__subclasses__()], exactly
    the panel classes that have the attribute COMPAT_ENGINES, list
    BLENDER_RENDER in it, and are not named VIEWLAYER_PT_filter or
    VIEWLAYER_PT_layer_passes. *)
Theorem get_panels_spec (s : bpy_state) :
  sublist (get_panels s) (subclasses s) /\
  forall p, p ∈ get_panels s <->
    p ∈ subclasses s /\
    exists l, compat_engines p = Some l
              /\ "BLENDER_RENDER" ∈ engines s l
              /\ panel_name p <> "VIEWLAYER_PT_filter"
              /\ panel_name p <> "VIEWLAYER_PT_layer_passes".
Proof.
  split; [|apply elem_of_get_panels].
  rewrite get_panels_filter. apply sublist_filter.
Qed.

(** A selected panel refers to one of the selected sets. *)
Lemma selected_panel_set (s : bpy_state) (p : panel) :
  p ∈ get_panels s ->
  exists l, compat_engines p = Some l /\ l ∈ selected_sets s.
Proof.
  intros Hp. pose proof Hp as Hin.
  apply elem_of_get_panels in Hin as [_ (l & Hl & _)].
  exists l. split; [exact Hl|].
  unfold selected_sets. apply list_elem_of_omap. exists p. split; assumption.
Qed.


(** On a host where the class is not registered yet, [register_checked]
    is [register] on the panels, and the class is registered afterwards. *)
Lemma register_checked_run (h : host_state) :
  "CUSTOM" ∉ registered h ->
  exists s', register (bpy h) = inr s' /\
    register_checked h
    = inr {| registered := registered h ∪ {["CUSTOM"]}; bpy := s' |}.
Proof.
  intros Hreg. destruct (register_run (bpy h)) as (s' & E & _).
  exists s'. split; [exact E|].
  unfold register_checked, host_register_class.
  rewrite bool_decide_eq_false_2 by exact Hreg.
  unfold on_panels. cbn [bpy registered].
  unfold register in E. cbn zeta in E. rewrite E. reflexivity.
Qed.

(** A registered class is refused before the panel loop starts. *)
Lemma register_checked_again (h : host_state) :
  "CUSTOM" ∈ registered h -> register_checked h = inl ValueError.
Proof.
  intros Hreg. unfold register_checked, host_register_class.
  rewrite bool_decide_eq_true_2 by exact Hreg. reflexivity.
Qed.

(** On a host where the class is registered, [unregister_checked] is
    [unregister] on the panels, and the class is no longer registered. *)
Lemma unregister_checked_run (h : host_state) :
  "CUSTOM" ∈ registered h ->
  exists s', unregister (bpy h) = inr s' /\
    unregister_checked h
    = inr {| registered := registered h ∖ {["CUSTOM"]}; bpy := s' |}.
Proof.
  intros Hreg. destruct (unregister_run (bpy h)) as (s' & E & _).
  exists s'. split; [exact E|].
  unfold unregister_checked, host_unregister_class.
  rewrite bool_decide_eq_true_2 by exact Hreg.
  unfold on_panels. cbn [bpy registered].
  unfold unregister in E. cbn zeta in E. rewrite E. reflexivity.
Qed.

(** X14. On a host where the class is registered, [unregister] returns,
    also when several selected panels share one set object: the
    membership test before [remove] rules out KeyError.  It calls
    [unregister_class] once and removes CUSTOM, and nothing else, from the
    set object of every selected panel; other sets are untouched, the
    selection is the same, and afterwards no selected panel lists
    CUSTOM.  On a host where the class is not registered,
    [unregister_class] raises RuntimeError and the loop over the panels
    is not reached; that loop by itself raises nothing. *)
Theorem unregister_spec (h : host_state) :
  if bool_decide ("CUSTOM" ∈ registered h)
  then exists h', unregister_checked h = inr h'
    /\ registered h' = registered h ∖ {["CUSTOM"]}
    /\ subclasses (bpy h') = subclasses (bpy h)
    /\ get_panels (bpy h') = get_panels (bpy h)
    /\ class_calls (bpy h')
       = class_calls (bpy h) ++ [unregister_class "CUSTOM"]
    /\ (forall l, engines (bpy h') l =
          if decide (l ∈ selected_sets (bpy h))
          then engines (bpy h) l ∖ {["CUSTOM"]} else engines (bpy h) l)
    /\ (forall p, p ∈ get_panels (bpy h') ->
          exists l, compat_engines p = Some l
                    /\ "CUSTOM" ∉ engines (bpy h') l)
  else unregister_checked h = inl RuntimeError
       /\ forall s, unregister (bpy h) <> inl s.
Proof.
  destruct (bool_decide ("CUSTOM" ∈ registered h)) eqn:Hreg.
  - apply bool_decide_eq_true in Hreg.
    destruct (unregister_checked_run h Hreg) as (s' & E & ->).
    destruct (unregister_run (bpy h)) as (s1 & E1 & Hsub & Hcalls & Heng).
    rewrite E in E1. injection E1 as <-.
    pose proof (unregister_keeps_selection (bpy h) s' E) as Hsel.
    eexists. split; [reflexivity|]. cbn [registered bpy].
    repeat split; try done.
    intros p Hp. rewrite Hsel in Hp.
    destruct (selected_panel_set (bpy h) p Hp) as (l & Hl & Hin).
    exists l. split; [exact Hl|].
    rewrite Heng, decide_True by exact Hin. set_solver.
  - split.
    + unfold unregister_checked, host_unregister_class. rewrite Hreg.
      reflexivity.
    + intros e He. destruct (unregister_run (bpy h)) as (s1 & E1 & _).
      rewrite He in E1. discriminate.
Qed.


(** X16. [register] on a host where the class is registered already
    raises ValueError at [register_class], before the loop over the
    panels: no engine set is touched.  So after a first [register], which
    returns and acts on the engine sets as described for [register], a
    second one raises ValueError; an [unregister] then returns, and a
    second [unregister] raises RuntimeError. *)
Theorem register_twice (h : host_state) :
  if bool_decide ("CUSTOM" ∈ registered h)
  then register_checked h = inl ValueError
  else exists h1, register_checked h = inr h1
    /\ registered h1 = registered h ∪ {["CUSTOM"]}
    /\ register (bpy h) = inr (bpy h1)
    /\ register_checked h1 = inl ValueError
    /\ exists h2, unregister_checked h1 = inr h2
         /\ registered h2 = registered h
         /\ unregister (bpy h1) = inr (bpy h2)
         /\ unregister_checked h2 = inl RuntimeError.
Proof.
  destruct (bool_decide ("CUSTOM" ∈ registered h)) eqn:Hreg.
  - apply bool_decide_eq_true in Hreg. apply register_checked_again, Hreg.
  - apply bool_decide_eq_false in Hreg.
    destruct (register_checked_run h Hreg) as (s1 & E1 & Eh1).
    eexists. split; [exact Eh1|]. cbn [registered bpy].
    split; [reflexivity|]. split; [exact E1|].
    split; [apply register_checked_again; cbn [registered]; set_solver|].
    set (h1 := {| registered := registered h ∪ {["CUSTOM"]}; bpy := s1 |}).
    assert (Hin : "CUSTOM" ∈ registered h1) by (cbn [registered h1]; set_solver).
    destruct (unregister_checked_run h1 Hin) as (s2 & E2 & Eh2).
    eexists. split; [exact Eh2|]. cbn [registered bpy h1].
    split; [set_solver|]. split; [exact E2|].
    unfold unregister_checked, host_unregister_class. cbn [registered].
    rewrite bool_decide_eq_false_2 by set_solver. reflexivity.
Qed.
(** Two panels on one set object, one of them excluded by name, and a
    panel without the attribute: [register] reaches the excluded panel
    through the shared set, and [unregister] removes CUSTOM once without
    a KeyError. *)
Lemma register_reaches_shared_sets :
  panel_name <$> get_panels shared_sets = ["RENDER_PT_context"] /\
  (exists s1, register shared_sets = inr s1 /\
     ("CUSTOM" ∈ engines s1 0%nat) /\ ("CUSTOM" ∉ engines s1 1%nat) /\
     exists s2, unregister s1 = inr s2 /\
       engines s2 0%nat = engines shared_sets 0%nat /\
       engines s2 1%nat = engines shared_sets 1%nat).
Proof.
  split; [vm_compute; reflexivity|].
  destruct (register shared_sets) as [e|s1] eqn:E1;
    [vm_compute in E1; discriminate|].
  exists s1. split; [reflexivity|].
  assert (Hs1 : inr s1 = register shared_sets) by (symmetry; exact E1).
  vm_compute in Hs1. injection Hs1 as ->.
  split; [vm_compute; set_solver|]. split; [vm_compute; set_solver|].
  eexists. split; [vm_compute; reflexivity|].
  split; vm_compute; reflexivity.
Qed.
End RegistryFacts.

(** * Beyond the claims: the pixels of the draw data *)

Section DrawDataFacts.
Import DrawData.



End DrawDataFacts.
